(** * eleventy-html-tag-templates: the tag-template expansion engine

    A shallow embedding of the three implementations of [HTMLTagTemplates]
    found in the repository:

    - [V0]  the first draft (whitelist forwarding, one pass);
    - [V1]  the draft with [add_template], [forward_html_attributes],
            [transform] and [recursive_transform];
    - [V2]  [src/index.ts]: the [TagTemplate] class, the [forward] helper,
            [transform] and [recursive_template_transform].

    HTML text is identified with the forest it parses to: [cheerio.load]
    and [$.html()] are mutually inverse on the documents considered, so a
    value of type [html] stands both for the string and for the tree.
    An element carries its name as the text spells it; the parser writes
    element names in lower case and the selector engine does the same
    with a tag selector, so names are compared, and looked up, in lower
    case.  Attribute mappings are as the parser leaves them.  The
    collaborators (Nunjucks, gray-matter, the stylesheet
    preprocessor, the table of [html-element-attributes], the file system,
    and the selector engine of cheerio for every selector that is not a
    plain tag name) are parameters. *)

From Stdlib Require Import List String Ascii Bool Arith Lia ZArith.
Import ListNotations.
Open Scope string_scope.
Open Scope list_scope.

Set Implicit Arguments.

(* ================================================================== *)
(** * Part I: definitions                                              *)
(* ================================================================== *)

(** ** JavaScript values used by the code *)

Module JS.

(** Exceptions the code can raise.  [MultipleRootsError] is the
    [Error("Template definition must have only one top level tag")],
    [DuplicateTagError] the two [Error]s of [add_template], [TypeError]
    a property read or method call on [undefined], [SelectorError] what
    the selector engine throws on a string it cannot parse. *)
Inductive error : Type :=
| MultipleRootsError
| DuplicateTagError
| UnknownTagNameError
| TypeError
| SelectorError.

Inductive result (A : Type) : Type :=
| Ok (a : A)
| Throw (e : error).
Arguments Ok {A} a.
Arguments Throw {A} e.

Definition bind {A B : Type} (r : result A) (k : A -> result B) : result B :=
  match r with
  | Ok a => k a
  | Throw e => Throw e
  end.

(** *** Strings *)

(** [s.split(c)] for a one-character separator. *)
Fixpoint split (c : ascii) (s : string) : list string :=
  match s with
  | EmptyString => [EmptyString]
  | String a r =>
      if Ascii.eqb a c then EmptyString :: split c r
      else match split c r with
           | [] => [String a EmptyString]
           | w :: ws => String a w :: ws
           end
  end.

(** [a.join(sep)] on an array of strings. *)
Fixpoint join (sep : string) (l : list string) : string :=
  match l with
  | [] => EmptyString
  | [x] => x
  | x :: r => x ++ sep ++ join sep r
  end.

(** An array cell read back by [join]: [undefined] prints as the empty
    string. *)
Definition cell (o : option string) : string :=
  match o with
  | Some s => s
  | None => EmptyString
  end.

(** [a.join(sep)] on an array that may hold [undefined]. *)
Definition join_cells (sep : string) (l : list (option string)) : string :=
  join sep (map cell l).

Definition startsWith (p s : string) : bool := String.prefix p s.

Definition endsWith (suf s : string) : bool :=
  Nat.leb (String.length suf) (String.length s)
  && String.eqb (substring (String.length s - String.length suf)
                           (String.length suf) s) suf.

(** [s.toLowerCase()] on the letters [A] to [Z]. *)
Definition lower (c : ascii) : ascii :=
  let n := N_of_ascii c in
  if (N.leb 65 n && N.leb n 90)%bool then ascii_of_N (n + 32) else c.

Fixpoint toLowerCase (s : string) : string :=
  match s with
  | EmptyString => EmptyString
  | String c r => String (lower c) (toLowerCase r)
  end.

(** [s.slice(1)]. *)
Definition slice1 (s : string) : string :=
  match s with
  | EmptyString => EmptyString
  | String _ r => r
  end.

(** *** Arrays *)

(** [a[i]]: a negative or too large index reads [undefined]. *)
Definition index {A : Type} (a : list A) (i : Z) : option A :=
  if (i <? 0)%Z then None else nth_error a (Z.to_nat i).

(** [a.indexOf(x) == -1] *)
Definition not_indexOf (a : list string) (x : string) : bool :=
  negb (existsb (String.eqb x) a).

(** *** Objects with string keys
    An object is its list of own entries in insertion order
    ([Object.entries]); keys are unique. *)
Definition obj (V : Type) : Type := list (string * V).

Fixpoint get {V : Type} (o : obj V) (k : string) : option V :=
  match o with
  | [] => None
  | (k', v) :: r => if String.eqb k k' then Some v else get r k
  end.

(** [k in o] for an object without prototype, or for a name that no
    object inherits: [k] is an own key. *)
Definition has {V : Type} (k : string) (o : obj V) : bool :=
  match get o k with
  | Some _ => true
  | None => false
  end.

(** The properties every object created by [{}] inherits from
    [Object.prototype]. *)
Definition object_prototype : list string :=
  ["constructor"; "toString"; "toLocaleString"; "valueOf";
   "hasOwnProperty"; "isPrototypeOf"; "propertyIsEnumerable";
   "__proto__"; "__defineGetter__"; "__defineSetter__";
   "__lookupGetter__"; "__lookupSetter__"].

Definition inherited (k : string) : bool :=
  existsb (String.eqb k) object_prototype.

(** [k in o] for an object [o] created by [{}]: own or inherited. *)
Definition in_ {V : Type} (k : string) (o : obj V) : bool :=
  has k o || inherited k.

(** [o[k] = v]: an existing key keeps its place, a new one goes last. *)
Fixpoint set {V : Type} (o : obj V) (k : string) (v : V) : obj V :=
  match o with
  | [] => [(k, v)]
  | (k', v') :: r =>
      if String.eqb k k' then (k', v) :: r else (k', v') :: set r k v
  end.

Definition keys {V : Type} (o : obj V) : list string := map fst o.

(** *** [Set<string>], iterated in insertion order *)
Definition sset : Type := list string.

Definition sset_has (s : sset) (k : string) : bool :=
  existsb (String.eqb k) s.

Definition sset_add (s : sset) (k : string) : sset :=
  if sset_has s k then s else s ++ [k].

Definition sset_delete (s : sset) (k : string) : sset :=
  filter (fun x => negb (String.eqb k x)) s.

End JS.

Import JS.

Notation "x <- r ;; k" := (bind r (fun x => k))
  (at level 61, r at next level, right associativity).


(** ** The document tree (cheerio) *)

Module Dom.

Definition attrs : Type := obj string.

#[warnings="-register-all"]
Inductive node : Type :=
| Text (data : string)
| Elem (name : string) (attribs : attrs) (children : list node).

(** An HTML string, read as the forest it parses to. *)
Definition html : Type := list node.

(** Plain text spliced into markup. *)
Definition text (s : string) : html :=
  match s with
  | EmptyString => []
  | _ => [Text s]
  end.

(** [existing + s] for raw text [s]: the text joins a trailing text
    node. *)
Fixpoint append_text (h : html) (s : string) : html :=
  match h with
  | [] => text s
  | [Text t] => [Text (t ++ s)]
  | n :: r => n :: append_text r s
  end.

Definition is_elem (n : node) : bool :=
  match n with
  | Elem _ _ _ => true
  | Text _ => false
  end.

(** Tag names are the same when they differ by case only: the parser
    and the selector engine put both in lower case. *)
Definition same_tag (a b : string) : bool :=
  String.eqb (toLowerCase a) (toLowerCase b).

(** The element [n] is a [nm]. *)
Definition named (nm : string) (n : node) : bool :=
  match n with
  | Elem nm' _ _ => same_tag nm' nm
  | Text _ => false
  end.

(** [$el.attr()]: the attribute object of a tag, [undefined] for any
    other node. *)
Definition attr (n : node) : option attrs :=
  match n with
  | Elem _ a _ => Some a
  | Text _ => None
  end.

(** [$el.html()]: the inner HTML of a tag, [null] otherwise. *)
Definition inner (n : node) : option html :=
  match n with
  | Elem _ _ kids => Some kids
  | Text _ => None
  end.

(** [x.children()]: the element children. *)
Definition element_children (h : html) : list node := filter is_elem h.

(** [$(nm)] for a tag name [nm], as in [$("head")]: every element
    called [nm], in document order. *)
Fixpoint select_node (nm : string) (n : node) : list node :=
  match n with
  | Text _ => []
  | Elem nm' a kids =>
      (if same_tag nm' nm then [n] else [])
        ++ flat_map (select_node nm) kids
  end.

Definition select (nm : string) (doc : html) : list node :=
  flat_map (select_node nm) doc.

(** [$(sel).children(nm)] *)
Definition select_children (sel nm : string) (doc : html) : list node :=
  flat_map (fun n => match n with
                     | Elem _ _ kids => filter (named nm) kids
                     | Text _ => []
                     end) (select sel doc).

(** [$(sel).append(content)] *)
Fixpoint append_node (sel : string) (content : html) (n : node) : node :=
  match n with
  | Text s => Text s
  | Elem nm a kids =>
      let kids' := map (append_node sel content) kids in
      Elem nm a (if same_tag nm sel then kids' ++ content else kids')
  end.

Definition append (sel : string) (content : html) (doc : html) : html :=
  map (append_node sel content) doc.

(** Rewrite the first element of a list on which [g] succeeds. *)
Definition first_map {A : Type} (g : A -> option A)
  : list A -> option (list A) :=
  fix go (l : list A) : option (list A) :=
    match l with
    | [] => None
    | a :: r =>
        match g a with
        | Some a' => Some (a' :: r)
        | None => match go r with
                  | Some r' => Some (a :: r')
                  | None => None
                  end
        end
    end.

Definition set_html_named (nm : string) (f : html -> html) (n : node)
  : option node :=
  match n with
  | Elem nm' a c => if same_tag nm' nm then Some (Elem nm' a (f c)) else None
  | Text _ => None
  end.

(** [$(styleTag).html(f old)] for [styleTag] the first element of
    [$(sel).children(nm)]. *)
Fixpoint set_first_child_html (sel nm : string) (f : html -> html)
  (n : node) : option node :=
  match n with
  | Text _ => None
  | Elem nm' a kids =>
      match (if same_tag nm' sel
             then first_map (set_html_named nm f) kids else None) with
      | Some kids' => Some (Elem nm' a kids')
      | None =>
          match first_map (set_first_child_html sel nm f) kids with
          | Some kids' => Some (Elem nm' a kids')
          | None => None
          end
      end
  end.

(** Sequencing a traversal whose visits may throw. *)
Definition concatM {A B : Type} (f : A -> result (list B))
  : list A -> result (list B) :=
  fix go (l : list A) : result (list B) :=
    match l with
    | [] => Ok []
    | a :: r => x <- f a ;; y <- go r ;; Ok (x ++ y)
    end.

Definition iterM {A : Type} (f : A -> result unit)
  : list A -> result unit :=
  fix go (l : list A) : result unit :=
    match l with
    | [] => Ok tt
    | a :: r => _ <- f a ;; go r
    end.

(** The same over the cells of an array, each with its index. *)
Definition concatM_i {A B : Type} (f : nat -> A -> result (list B))
  : nat -> list A -> result (list B) :=
  fix go (i : nat) (l : list A) : result (list B) :=
    match l with
    | [] => Ok []
    | a :: r => x <- f i a ;; y <- go (S i) r ;; Ok (x ++ y)
    end.

Definition iterM_i {A : Type} (f : nat -> A -> result unit)
  : nat -> list A -> result unit :=
  fix go (i : nat) (l : list A) : result unit :=
    match l with
    | [] => Ok tt
    | a :: r => _ <- f i a ;; go (S i) r
    end.

Definition flat_map_i {A B : Type} (f : nat -> A -> list B)
  : nat -> list A -> list B :=
  fix go (i : nat) (l : list A) : list B :=
    match l with
    | [] => []
    | a :: r => f i a ++ go (S i) r
    end.

Definition foldM {A S : Type} (f : S -> A -> result S)
  : list A -> S -> result S :=
  fix go (l : list A) (s : S) : result S :=
    match l with
    | [] => Ok s
    | a :: r => s' <- f s a ;; go r s'
    end.

(** A loop over [l] that updates an object in place: the state reached
    is kept when a turn throws, and the loop stops there. *)
Definition foldS {A S : Type} (f : S -> A -> S * result unit)
  : list A -> S -> S * result unit :=
  fix go (l : list A) (s : S) : S * result unit :=
    match l with
    | [] => (s, Ok tt)
    | a :: r =>
        match f s a with
        | (s', Ok _) => go r s'
        | (s', Throw e) => (s', Throw e)
        end
    end.

(** *** [$(tag).each(function () { ...; $el.replaceWith(expansion) })]

    What [$(sel)] holds.  For a selector it is a set of elements of the
    document: [Found m], where [m p n] tells whether the element [n] at
    the place [p] is in the set; a place is the list of child indices
    that lead to the element, the innermost first.  For a string that
    cheerio reads as markup it is the nodes parsed from that string, which
    are not in the document: [Made l]. *)
Definition place : Type := list nat.

Inductive selection : Type :=
| Found (m : place -> node -> bool)
| Made (l : list node).

(** The set is computed before the loop, in document order, so an
    element is visited before the matches nested inside it and
    [$el.html()] always reads the children the pass started with.
    [callback] is the part of the loop body that computes the expansion
    from [$el.attr()] and [$el.html()]; it may throw.  Replacing a match
    detaches its subtree: the matches nested inside it are still visited
    (the callback runs and may throw) but their replacement happens in
    the detached subtree and does not reach the document.  Replacing a
    node made from markup does not reach the document either. *)
Section Each.
Variable m : place -> node -> bool.
Variable callback : option attrs -> option html -> result html.

Fixpoint visit_detached (p : place) (n : node) : result unit :=
  match n with
  | Text _ => Ok tt
  | Elem nm a kids =>
      _ <- (if m p n
            then _ <- callback (attr n) (inner n) ;; Ok tt
            else Ok tt) ;;
      iterM_i (fun i k => visit_detached (i :: p) k) 0 kids
  end.

Fixpoint each_node (p : place) (n : node) : result html :=
  match n with
  | Text s => Ok [Text s]
  | Elem nm a kids =>
      if m p n then
        expansion <- callback (attr n) (inner n) ;;
        _ <- iterM_i (fun i k => visit_detached (i :: p) k) 0 kids ;;
        Ok expansion
      else
        kids' <- concatM_i (fun i k => each_node (i :: p) k) 0 kids ;;
        Ok [Elem nm a kids']
  end.

Definition each_found (doc : html) : result html :=
  concatM_i (fun i n => each_node [i] n) 0 doc.

(** The elements of the set, in document order. *)
Fixpoint found_node (p : place) (n : node) : list node :=
  match n with
  | Text _ => []
  | Elem nm a kids =>
      (if m p n then [n] else [])
        ++ flat_map_i (fun i k => found_node (i :: p) k) 0 kids
  end.

Definition found (doc : html) : list node :=
  flat_map_i (fun i n => found_node [i] n) 0 doc.
End Each.

(** The nodes [each] runs the loop body on. *)
Definition targets (q : selection) (doc : html) : list node :=
  match q with
  | Found m => found m doc
  | Made l => l
  end.

Definition each (q : selection)
  (callback : option attrs -> option html -> result html) (doc : html)
  : result html :=
  match q with
  | Found m => each_found m callback doc
  | Made l =>
      _ <- iterM (fun n => _ <- callback (attr n) (inner n) ;; Ok tt) l ;;
      Ok doc
  end.

(** Whether the loop body ran: the flag it raises. *)
Definition matched (q : selection) (doc : html) : bool :=
  match targets q doc with
  | [] => false
  | _ :: _ => true
  end.

End Dom.

Import Dom.

(** ** Collaborators *)

(** A value bound to a template variable. *)
Inductive value : Type :=
| VStr (s : string)
| VHtml (h : option html)
| VFun (f : list string -> string).

(** A directory as [readdirSync], [statSync] and [readFileSync] show it. *)
#[warnings="-register-all"]
Inductive entry : Type :=
| File (filename : string) (contents : string)
| Dir (filename : string) (entries : list entry).

Record World : Type := {
  (** gray-matter: the body and the front-matter data of a source text *)
  matter : string -> string * obj string;
  (** [nunjucksEnvironment.renderString] *)
  renderString : string -> obj value -> html;
  (** [config.styleSheetPreprocessor] *)
  styleSheetPreprocessor : string -> string;
  (** the table exported by html-element-attributes *)
  htmlElementAttributes : obj (list string);
  (** cheerio's [$(sel)] on a document, for a string [sel] that is not a
      plain tag name: a selector is run by css-select, which may throw;
      markup is parsed *)
  cssSelect : string -> html -> result selection
}.

(** The characters of a plain tag name: letters, digits, [-] and [_]. *)
Definition word_char (c : ascii) : bool :=
  let n := N_of_ascii c in
  (N.leb 97 n && N.leb n 122) || (N.leb 65 n && N.leb n 90)
  || (N.leb 48 n && N.leb n 57) || N.eqb n 45 || N.eqb n 95.

Fixpoint word (s : string) : bool :=
  match s with
  | EmptyString => true
  | String c r => word_char c && word r
  end.

(** A string the selector engine reads as one type selector. *)
Definition tag_selector (sel : string) : bool :=
  negb (String.eqb sel EmptyString) && word sel.

(** [$(sel)] on the document [doc]: a tag name selects the elements of
    that name, whatever the case; anything else is left to cheerio. *)
Definition query (w : World) (sel : string) (doc : html)
  : result selection :=
  if tag_selector sel then Ok (Found (fun _ n => named sel n))
  else cssSelect w sel doc.

(** [join(template_directory, filename)] *)
Definition path_join (dir filename : string) : string :=
  dir ++ "/" ++ filename.

(** [{...attributes}]: spreading [undefined] gives no entry. *)
Definition spread (attributes : option attrs) : obj value :=
  match attributes with
  | Some a => map (fun kv => (fst kv, VStr (snd kv))) a
  | None => []
  end.

(** The lines [if (attr === "class") ...] and [if (attr === "id") ...] of
    [forward_html_attributes], the same in both drafts that have it: the
    value written for [attr], given the root's attributes at that
    point. *)
Definition merge_value (attr value : string) (attribs : attrs) : string :=
  let value :=
    if String.eqb attr "class" then
      if has "class" attribs
      then join_cells " "
             (map Some (split " " value) ++ [get attribs "class"])
      else value
    else value in
  let value :=
    if String.eqb attr "id" then
      if has "id" attribs
      then join_cells " "
             (map Some (split " " value) ++ [get attribs "class"])
      else value
    else value in
  value.

(** Put [top], the mutated first element child, back in its place. *)
Fixpoint replace_top (top : node) (h : html) : html :=
  match h with
  | [] => []
  | n :: r => if is_elem n then top :: r else n :: replace_top top r
  end.

(** The loop [while (true) { transform; if (!transformed) break }] shared
    by [recursive_transform] and [recursive_template_transform].  [fuel]
    bounds the number of calls of [transform]; [None] means the bound was
    reached with the loop still running. *)
Section Fixpoint_loop.
Variable transform : html -> sset -> result (html * string * bool * sset).

Fixpoint run (fuel : nat) (html_content : html) (processed_tags : sset)
  (template_css : string) : option (result (html * string * sset)) :=
  match fuel with
  | O => None
  | S fuel' =>
      match transform html_content processed_tags with
      | Throw e => Some (Throw e)
      | Ok (html', css, transformed, processed_tags') =>
          let template_css := (template_css ++ css)%string in
          if negb transformed
          then Some (Ok (html', template_css, processed_tags'))
          else run fuel' html' processed_tags' template_css
      end
  end.
End Fixpoint_loop.

(** What a call leaves behind: the tree [$] holds when the function
    returns, and the returned value ([None] is [undefined]). *)
Record returned : Type := {
  tree : html;
  value_of : option html
}.

(** The lines after the loop, shared by [recursive_transform] and
    [recursive_template_transform]. *)
Definition inject_css (template_css : string) (html_content : html)
  : returned :=
  let headStyleChildren := select_children "head" "style" html_content in
  match headStyleChildren with
  | [] =>
      {| tree := append "head" [Elem "style" [] (text template_css)]
                   html_content;
         value_of := None |}
  | styleTag :: _ =>
      let existingStyleContent := inner styleTag in
      let content :=
        match existingStyleContent with
        | None => []
        | Some existing => append_text existing template_css
        end in
      let doc :=
        match first_map (set_first_child_html "head" "style"
                           (fun _ => content)) html_content with
        | Some d => d
        | None => html_content
        end in
      {| tree := doc; value_of := Some doc |}
  end.

(** [exclusive.concat(htmlElementAttributes["*"])]: concatenating
    [undefined] adds one cell that no attribute name equals. *)
Definition allowed_attributes (w : World) (exclusive : list string)
  : list string :=
  match get (htmlElementAttributes w) "*" with
  | Some globals => exclusive ++ globals
  | None => exclusive
  end.

(** ** The first draft *)

Module V0.

(** One turn of the loop over [Object.entries(attributes)].
    [top_element.name] is the name as the parser wrote it, in lower
    case. *)
Definition forward_entry (w : World) (top_element : option node)
  (entry : string * string) : result (option node) :=
  let (attr, value) := entry in
  match top_element with
  | None => Throw TypeError
  | Some (Text _) => Ok top_element
  | Some (Elem name attribs kids) =>
      match get (htmlElementAttributes w) (toLowerCase name) with
      | None => Throw TypeError
      | Some exclusive =>
          if not_indexOf (allowed_attributes w exclusive) attr
          then Ok top_element
          else Ok (Some (Elem name
                           (set attribs attr (merge_value attr value attribs))
                           kids))
      end
  end.

Definition forward_html_attributes (w : World) (html_content : html)
  (attributes : attrs) : result html :=
  let expanded_template := html_content in
  if Nat.ltb 1 (List.length (element_children expanded_template))
  then Throw MultipleRootsError
  else
    top_element <- foldM (forward_entry w) attributes
                     (index (element_children expanded_template) 0) ;;
    Ok (match top_element with
        | Some top => replace_top top expanded_template
        | None => expanded_template
        end).

(** [process_template_directory] of the first draft: no suffix test,
    directories skipped, every file kept under what precedes the first
    dot of its name. *)
Definition process_template_directory (template_files : list entry)
  (templates : obj string) : obj string :=
  fold_left
    (fun ts e =>
       match e with
       | Dir _ _ => ts
       | File filename template_content =>
           let file_stem := hd EmptyString (split "." filename) in
           set ts file_stem template_content
       end) template_files templates.

(** [add_template(template)] of the first draft. *)
Definition add_template (w : World) (template : string)
  (templates : obj string) : obj string * result unit :=
  let (_, data) := matter w template in
  match get data "tag" with
  | None => (templates, Throw UnknownTagNameError)
  | Some tag => (set templates tag template, Ok tt)
  end.

(** The tag [transform_content] looks for: the [tag] of the front matter
    when there is one, the registry key otherwise. *)
Definition selector (w : World) (entry : string * string) : string :=
  match get (snd (matter w (snd entry))) "tag" with
  | Some tag => tag
  | None => fst entry
  end.

(** The body of the function given to [each], up to [replaceWith]. *)
Definition on_match (w : World) (content : string)
  (attributes : option attrs) (inner_html : option html) : result html :=
  let expansion :=
    renderString w content
      (set (spread attributes) "content" (VHtml inner_html)) in
  match attributes with
  | None => Ok expansion
  | Some a => forward_html_attributes w expansion a
  end.

(** One turn of the loop over [Object.entries(this.templates)]. *)
Definition transform_tag (w : World) (doc : html) (entry : string * string)
  : result html :=
  let (content, data) := matter w (snd entry) in
  let tag := selector w entry in
  q <- query w tag doc ;;
  let has_tag := matched q doc in
  doc' <- each q (on_match w content) doc ;;
  if has "stylesheet" data && has_tag then
    let contents := styleSheetPreprocessor w (cell (get data "stylesheet")) in
    Ok (append "head" [Elem "style" [] (text contents)] doc')
  else Ok doc'.

Definition transform_content (w : World) (templates : obj string)
  (html_content : html) : result html :=
  foldM (transform_tag w) templates html_content.

(** The function [eleventyPlugin] registers as the transform. *)
Definition eleventyPlugin_transform (w : World) (templates : obj string)
  (content : html) (outputPath : string) : result html :=
  if negb (endsWith ".html" outputPath) then Ok content
  else transform_content w templates content.

End V0.

(** ** The draft with [add_template] and [recursive_transform] *)

Module V1.

(** [filename.split(".")[0]]; [split] never returns an empty array. *)
Definition file_stem (filename : string) : string :=
  hd EmptyString (split "." filename).

(** The name [add_template] registers [template] under. *)
Definition registered_name (w : World) (template default_tag_name : string)
  : string :=
  match get (snd (matter w template)) "tag" with
  | Some tag => tag
  | None => default_tag_name
  end.

(** [this.templates] is passed in and handed back: the pair is the
    registry after the call and how the call ended. *)
Definition add_template (w : World) (template default_tag_name : string)
  (templates : obj string) : obj string * result unit :=
  let (_, data) := matter w template in
  match get data "tag" with
  | Some tag =>
      if in_ tag templates then (templates, Throw DuplicateTagError)
      else (set templates tag template, Ok tt)
  | None =>
      if in_ default_tag_name templates
      then (templates, Throw DuplicateTagError)
      else (set templates default_tag_name template, Ok tt)
  end.

Fixpoint process_entry (w : World) (template_directory : string)
  (templates : obj string) (e : entry) : obj string * result unit :=
  match e with
  | File filename template_content =>
      if negb (endsWith ".html" filename) && negb (endsWith ".njk" filename)
      then (templates, Ok tt)
      else add_template w template_content (file_stem filename) templates
  | Dir filename entries =>
      if negb (endsWith ".html" filename) && negb (endsWith ".njk" filename)
      then (templates, Ok tt)
      else foldS (process_entry w (path_join template_directory filename))
             entries templates
  end.

Definition process_template_directory (w : World)
  (template_directory : string) (template_files : list entry)
  (templates : obj string) : obj string * result unit :=
  foldS (process_entry w template_directory) template_files templates.

(** One turn of the loop over [Object.entries(attributes)].
    [top_element.name] is the name as the parser wrote it, in lower
    case. *)
Definition forward_entry (w : World) (templates : obj string)
  (top_element : option node) (entry : string * string)
  : result (option node) :=
  let (attr, value) := entry in
  match top_element with
  | None => Throw TypeError
  | Some (Text _) => Ok top_element
  | Some (Elem name attribs kids) =>
      if negb (in_ (toLowerCase name) templates)
         && (let exclusiveAttributes :=
               match get (htmlElementAttributes w) (toLowerCase name) with
               | Some l => l
               | None => []
               end in
             not_indexOf (allowed_attributes w exclusiveAttributes) attr)
      then Ok top_element
      else Ok (Some (Elem name
                       (set attribs attr (merge_value attr value attribs))
                       kids))
  end.

Definition forward_html_attributes (w : World) (templates : obj string)
  (html_content : html) (attributes : attrs) : result html :=
  let expanded_template := html_content in
  if Nat.ltb 1 (List.length (element_children expanded_template))
  then Throw MultipleRootsError
  else
    top_element <- foldM (forward_entry w templates) attributes
                     (index (element_children expanded_template) 0) ;;
    Ok (match top_element with
        | Some top => replace_top top expanded_template
        | None => expanded_template
        end).

(** The variables handed to the renderer:
    [{...attributes, content: $el.html()}]. *)
Definition variables (attributes : option attrs) (inner_html : option html)
  : obj value :=
  set (spread attributes) "content" (VHtml inner_html).

(** The body of the function given to [each], up to [replaceWith]. *)
Definition on_match (w : World) (templates : obj string) (content : string)
  (attributes : option attrs) (inner_html : option html) : result html :=
  let expansion := renderString w content (variables attributes inner_html) in
  match attributes with
  | Some a => forward_html_attributes w templates expansion a
  | None => Ok expansion
  end.

(** One turn of the loop over [Object.entries(this.templates)]. *)
Definition transform_tag (w : World) (templates : obj string)
  (st : html * string * bool * sset) (entry : string * string)
  : result (html * string * bool * sset) :=
  let '(doc, template_css, did_transform, processed_tags) := st in
  let (tag, template) := entry in
  let (content, data) := matter w template in
  q <- query w tag doc ;;
  let has_tag := matched q doc in
  doc' <- each q (on_match w templates content) doc ;;
  let did_transform := did_transform || has_tag in
  if negb (has "stylesheet" data)
  then Ok (doc', template_css, did_transform, processed_tags)
  else if negb has_tag
  then Ok (doc', template_css, did_transform, processed_tags)
  else if sset_has processed_tags tag
  then Ok (doc', template_css, did_transform, processed_tags)
  else
    let stylesheet_path := cell (get data "stylesheet") in
    Ok (doc',
        (template_css ++ styleSheetPreprocessor w stylesheet_path)%string,
        did_transform, sset_add processed_tags tag).

Definition transform (w : World) (templates : obj string)
  (html_content : html) (processed_tags : sset)
  : result (html * string * bool * sset) :=
  foldM (transform_tag w templates) templates
    (html_content, EmptyString, false, processed_tags).

Definition recursive_transform (w : World) (templates : obj string)
  (fuel : nat) (html_content : html) : option (result returned) :=
  match run (transform w templates) fuel html_content [] EmptyString with
  | None => None
  | Some (Throw e) => Some (Throw e)
  | Some (Ok (html_content', template_css, _)) =>
      Some (Ok (inject_css template_css html_content'))
  end.

(** The function [eleventyPlugin] registers as the transform; it hands
    back what [recursive_transform] returns. *)
Definition eleventyPlugin_transform (w : World) (templates : obj string)
  (fuel : nat) (content : html) (outputPath : string)
  : option (result (option html)) :=
  if negb (endsWith ".html" outputPath) then Some (Ok (Some content))
  else
    match recursive_transform w templates fuel content with
    | None => None
    | Some (Throw e) => Some (Throw e)
    | Some (Ok r) => Some (Ok (value_of r))
    end.

End V1.

(** ** [src/index.ts] *)

Module V2.

Record TagTemplate : Type := {
  tag_name : string;
  template_content : string;
  stylesheet_path : string
}.

(** [new TagTemplate(template_filepath, env)]; [contents] is what
    [readFileSync(template_filepath)] returns. *)
Definition TagTemplate_new (w : World) (template_filepath contents : string)
  : result TagTemplate :=
  let (content, data) := matter w contents in
  tag <- (if negb (has "tag" data) then
            match index (split "/" template_filepath) (-1) with
            | None => Throw TypeError
            | Some last => Ok (hd EmptyString (split "." last))
            end
          else Ok (cell (get data "tag"))) ;;
  Ok {| tag_name := tag;
        template_content := content;
        stylesheet_path :=
          if has "stylesheet" data then cell (get data "stylesheet")
          else EmptyString |}.

Definition render (w : World) (t : TagTemplate) (variables : obj value)
  : html :=
  renderString w (template_content t) variables.

Definition stylesheet (t : TagTemplate) : string := stylesheet_path t.
Definition tagname (t : TagTemplate) : string := tag_name t.

Fixpoint process_entry (w : World) (template_directory : string)
  (templates : obj TagTemplate) (e : entry)
  : obj TagTemplate * result unit :=
  match e with
  | File filename contents =>
      if negb (endsWith ".html" filename) && negb (endsWith ".njk" filename)
      then (templates, Ok tt)
      else
        match TagTemplate_new w (path_join template_directory filename)
                contents with
        | Throw e => (templates, Throw e)
        | Ok template => (set templates (tagname template) template, Ok tt)
        end
  | Dir filename entries =>
      if negb (endsWith ".html" filename) && negb (endsWith ".njk" filename)
      then (templates, Ok tt)
      else foldS (process_entry w (path_join template_directory filename))
             entries templates
  end.

Definition process_template_directory (w : World)
  (template_directory : string) (template_files : list entry)
  (templates : obj TagTemplate) : obj TagTemplate * result unit :=
  foldS (process_entry w template_directory) template_files templates.

(** One turn of [for (let key of keys)] in the [forward] closure. *)
Definition forward_key (attributes : attrs) (expanded_keys : sset)
  (key : string) : sset :=
  if String.eqb key "*" then
    fold_left sset_add (keys attributes) expanded_keys
  else if startsWith "!" key then
    sset_delete expanded_keys (slice1 key)
  else sset_add expanded_keys key.

(** The [forward] closure built for a match with [attributes]. *)
Definition forward (attributes : attrs) (keys : list string) : string :=
  let expanded_keys :=
    if Nat.ltb 0 (List.length keys)
    then fold_left (forward_key attributes) keys []
    else fold_left sset_add (JS.keys attributes) [] in
  let attribute_list :=
    flat_map (fun key =>
                if has key attributes
                then [(key ++ "=" ++ cell (get attributes key))%string]
                else []) expanded_keys in
  join " " attribute_list.

(** The variables handed to the renderer:
    [{...attributes, content: $el.html(), forward: ...}]. *)
Definition variables (attributes : attrs) (inner_html : option html)
  : obj value :=
  set (set (spread (Some attributes)) "content" (VHtml inner_html))
    "forward" (VFun (forward attributes)).

(** The body of the function given to [each], up to [replaceWith]. *)
Definition on_match (w : World) (template : TagTemplate)
  (attributes : option attrs) (inner_html : option html) : result html :=
  let attributes :=
    match attributes with
    | Some a => a
    | None => []
    end in
  Ok (render w template (variables attributes inner_html)).

(** One turn of the loop over [Object.entries(this.templates)]. *)
Definition transform_tag (w : World)
  (st : html * string * bool * sset) (entry : string * TagTemplate)
  : result (html * string * bool * sset) :=
  let '(doc, template_css, did_transform, processed_tags) := st in
  let (tag, template) := entry in
  q <- query w tag doc ;;
  let has_tag := matched q doc in
  doc' <- each q (on_match w template) doc ;;
  let did_transform := did_transform || has_tag in
  if negb has_tag
  then Ok (doc', template_css, did_transform, processed_tags)
  else if sset_has processed_tags tag
  then Ok (doc', template_css, did_transform, processed_tags)
  else
    Ok (doc',
        (template_css
           ++ styleSheetPreprocessor w (stylesheet template))%string,
        did_transform, sset_add processed_tags tag).

Definition transform (w : World) (templates : obj TagTemplate)
  (html_content : html) (processed_tags : sset)
  : result (html * string * bool * sset) :=
  foldM (transform_tag w) templates
    (html_content, EmptyString, false, processed_tags).

Definition recursive_template_transform (w : World)
  (templates : obj TagTemplate) (fuel : nat) (html_content : html)
  : option (result returned) :=
  match run (transform w templates) fuel html_content [] EmptyString with
  | None => None
  | Some (Throw e) => Some (Throw e)
  | Some (Ok (html_content', template_css, _)) =>
      Some (Ok (inject_css template_css html_content'))
  end.

Definition get_classlist (attributes : attrs) : list string :=
  let attr := "class" in
  if has attr attributes then split " " (cell (get attributes attr)) else [].

Definition get_idlist (attributes : attrs) : list string :=
  let attr := "id" in
  if has attr attributes then split " " (cell (get attributes attr)) else [].

Definition get_stylelist (attributes : attrs) : list string :=
  let attr := "style" in
  if has attr attributes then split " " (cell (get attributes attr)) else [].

(** The function [eleventyPlugin] registers as the transform; it hands
    back what [recursive_template_transform] returns. *)
Definition eleventyPlugin_transform (w : World) (templates : obj TagTemplate)
  (fuel : nat) (content : html) (outputPath : string)
  : option (result (option html)) :=
  if negb (endsWith ".html" outputPath) then Some (Ok (Some content))
  else
    match recursive_template_transform w templates fuel content with
    | None => None
    | Some (Throw e) => Some (Throw e)
    | Some (Ok r) => Some (Ok (value_of r))
    end.

End V2.

(** ** Sample collaborators and inputs *)

Module Sample.

(** An excerpt of the table of html-element-attributes. *)
Definition table : obj (list string) :=
  [("*", ["accesskey"; "class"; "contenteditable"; "dir"; "draggable";
          "hidden"; "id"; "lang"; "slot"; "spellcheck"; "style";
          "tabindex"; "title"; "translate"]);
   ("a", ["charset"; "coords"; "download"; "href"; "hreflang"; "name";
          "ping"; "referrerpolicy"; "rel"; "rev"; "shape"; "target";
          "type"]);
   ("button", ["disabled"; "form"; "formaction"; "formenctype";
               "formmethod"; "formnovalidate"; "formtarget"; "name";
               "type"; "value"]);
   ("div", ["align"]);
   ("meta", ["charset"; "content"; "http-equiv"; "name"; "scheme"])].

Definition var_str (vars : obj value) (k : string) : string :=
  match get vars k with
  | Some (VStr s) => s
  | _ => EmptyString
  end.

Definition var_html (vars : obj value) (k : string) : html :=
  match get vars k with
  | Some (VHtml (Some h)) => h
  | _ => []
  end.

(** Front matter of the sample sources: [Card] and [Hero] name
    themselves and carry a stylesheet, the others have no front
    matter. *)
Definition front_matter (src : string) : string * obj string :=
  if String.eqb src "card-source"
  then ("CARD", [("tag", "Card"); ("stylesheet", "card.css")])
  else if String.eqb src "card-source-2"
  then ("WRAP", [("tag", "Card")])
  else if String.eqb src "hero-source"
  then ("WRAP", [("tag", "Hero"); ("stylesheet", "hero.css")])
  else (src, []).

(** A renderer for seven template bodies. *)
Definition renderer (body : string) (vars : obj value) : html :=
  if String.eqb body "CARD" then
    [Elem "div" [("class", "card")]
       [Elem "h2" [] (text (var_str vars "title"));
        Elem "div" [("class", "card-body")] (var_html vars "content")]]
  else if String.eqb body "PAIR" then
    [Elem "div" [("class", "left")] []; Elem "div" [("class", "right")] []]
  else if String.eqb body "BUTTON" then
    [Elem "button" [("class", "btn"); ("id", "base")]
       (text (var_str vars "label"))]
  else if String.eqb body "WRAP" then
    [Elem "div" [] (var_html vars "content")]
  else if String.eqb body "ALERT" then
    [Elem "div" [("role", var_str vars "role")] []]
  else if String.eqb body "OUTER" then
    [Elem "section" [] [Elem "inner" [] (var_html vars "content")]]
  else if String.eqb body "AGAIN" then
    [Elem "again" [] []]
  else text body.

Definition world : World :=
  {| matter := front_matter;
     renderString := renderer;
     styleSheetPreprocessor := fun path => ("/* " ++ path ++ " */")%string;
     htmlElementAttributes := table;
     cssSelect := fun _ _ => Throw SelectorError |}.

(** [<html><head>head</head><body>body</body></html>] *)
Definition page (head body : html) : html :=
  [Elem "html" [] [Elem "head" [] head; Elem "body" [] body]].

End Sample.

(** ** Notions used to state the properties *)

(** An argument of [forward] that names a key: neither ["*"] nor an
    exclusion. *)
Definition plain_key (key : string) : bool :=
  negb (String.eqb key "*") && negb (startsWith "!" key).

(** [k=value], the text [forward] pushes for a key of [attributes]. *)
Definition serialized (attributes : attrs) (key : string) : string :=
  (key ++ "=" ++ cell (get attributes key))%string.

(** The allowed set of the forwarder for a root called [name]: the
    attributes the table gives for [name], read in lower case as the
    parser writes it (none if the table does not know it), and those it
    gives for every element. *)
Definition allowed_for (w : World) (name attr : string) : bool :=
  existsb (String.eqb attr)
    (allowed_attributes w
       (match get (htmlElementAttributes w) (toLowerCase name) with
        | Some l => l
        | None => []
        end)).

(** The attributes of the root of a fragment. *)
Definition root_attribs (h : html) : option attrs :=
  match element_children h with
  | Elem _ a _ :: _ => Some a
  | _ => None
  end.

(** [passes transform n s s']: [n] consecutive calls of [transform] that
    all report a rewrite lead the loop from the state [s] (document,
    processed tags, accumulated CSS) to [s']. *)
Inductive passes
  (transform : html -> sset -> result (html * string * bool * sset))
  : nat -> html * sset * string -> html * sset * string -> Prop :=
| passes_O s : passes transform 0 s s
| passes_S n doc seen css doc' css' seen' s' :
    transform doc seen = Ok (doc', css', true, seen') ->
    passes transform n (doc', seen', (css ++ css')%string) s' ->
    passes transform (S n) (doc, seen, css) s'.

(** The stylesheet texts of [tags], one after the other. *)
Definition css_text (chunk : string -> string) (tags : list string) : string :=
  fold_right (fun t acc => (chunk t ++ acc)%string) EmptyString tags.

(** The compiled stylesheet text of a registered tag, in [src/index.ts]
    and in the draft that keeps template sources in the registry. *)
Definition V2_stylesheet_text (w : World) (templates : obj V2.TagTemplate)
  (tag : string) : string :=
  match get templates tag with
  | Some t => styleSheetPreprocessor w (V2.stylesheet t)
  | None => EmptyString
  end.

Definition V1_stylesheet_text (w : World) (templates : obj string)
  (tag : string) : string :=
  match get templates tag with
  | Some template =>
      styleSheetPreprocessor w
        (cell (get (snd (matter w template)) "stylesheet"))
  | None => EmptyString
  end.

(** [grows chunk seen css seen' css']: from [(seen, css)] to
    [(seen', css')] the processed tags gained the tags [new], the CSS
    gained their texts in the same order, and no tag came twice. *)
Definition grows (chunk : string -> string)
  (seen : sset) (css : string) (seen' : sset) (css' : string) : Prop :=
  exists new,
    seen' = seen ++ new
    /\ css' = (css ++ css_text chunk new)%string
    /\ (NoDup seen -> NoDup seen').

(** Whether the loop body of the turn of [tag] runs on [doc]. *)
Definition met (w : World) (tag : string) (doc : html) : bool :=
  match query w tag doc with
  | Ok q => matched q doc
  | Throw _ => false
  end.

(** The selector [tag] is accepted and finds nothing in [doc]. *)
Definition quiet (w : World) (tag : string) (doc : html) : bool :=
  match query w tag doc with
  | Ok q => negb (matched q doc)
  | Throw _ => false
  end.

(** *** The usage graph

    A usage is an element that bears a registered name.  A usage is
    nested in another when it lies in its content, in the document or once
    the outer one is expanded, or when the expansion of the outer one
    brings it.  [cost nm], for a registered name, counts the usages that
    expanding a [nm] puts on top of its content, the [nm] itself
    included; the nesting depth of a document is the highest sum of
    costs along a chain of nested usages.  The graph is acyclic when such
    costs exist: every expansion is less deep than the usage it
    replaces. *)
Section Depth.
Variable names : list string.
Variable cost : string -> nat.

(** An element called [nm] is a usage. *)
Definition registered (nm : string) : bool :=
  existsb (fun k => same_tag nm k) names.

Fixpoint depth_node (n : node) : nat :=
  match n with
  | Text _ => 0
  | Elem nm _ kids =>
      (if registered nm then cost nm else 0) + list_max (map depth_node kids)
  end.

(** The nesting depth of a document or fragment. *)
Definition depth (h : html) : nat := list_max (map depth_node h).

(** The state of a document in the middle of a pass, the turns of the
    names [done] being over: every outermost usage is within the depth
    [b], and strictly within it when its name had its turn. *)
Fixpoint settled_node (done : list string) (b : nat) (n : node) : bool :=
  match n with
  | Text _ => true
  | Elem nm _ kids =>
      if registered nm
      then Nat.leb (cost nm + list_max (map depth_node kids)
                    + (if existsb (fun k => same_tag nm k) done
                       then 1 else 0)) b
      else forallb (settled_node done b) kids
  end.

Definition settled (done : list string) (b : nat) (h : html) : bool :=
  forallb (settled_node done b) h.
End Depth.

(** The usage graph of the templates of [src/index.ts] is acyclic, with
    costs [cost]: rendering a usage is less deep than the usage. *)
Definition V2_acyclic (w : World) (templates : obj V2.TagTemplate)
  (cost : string -> nat) : Prop :=
  forall tag t nm a kids,
    In (tag, t) templates ->
    same_tag nm tag = true ->
    depth (keys templates) cost (V2.render w t (V2.variables a (Some kids)))
    < cost nm + depth (keys templates) cost kids.

(** The same for the draft that keeps template sources in the
    registry. *)
Definition V1_acyclic (w : World) (templates : obj string)
  (cost : string -> nat) : Prop :=
  forall tag template nm a kids,
    In (tag, template) templates ->
    same_tag nm tag = true ->
    depth (keys templates) cost
      (renderString w (fst (matter w template))
         (V1.variables (Some a) (Some kids)))
    < cost nm + depth (keys templates) cost kids.

(** Two sample templates of [src/index.ts]: [outer] hands its content to
    an [inner], [inner] wraps its content in a [div]. *)
Definition sample_nesting : obj V2.TagTemplate :=
  [("inner", {| V2.tag_name := "inner"; V2.template_content := "WRAP";
                V2.stylesheet_path := "" |});
   ("outer", {| V2.tag_name := "outer"; V2.template_content := "OUTER";
                V2.stylesheet_path := "" |})].

(** One template that wraps its content in a [div]. *)
Definition sample_wrap : obj V2.TagTemplate :=
  [("w", {| V2.tag_name := "w"; V2.template_content := "WRAP";
            V2.stylesheet_path := "" |})].

(** Costs for the sample templates: an [outer] brings an [inner]. *)
Definition sample_cost (nm : string) : nat :=
  if same_tag nm "outer" then 2
  else if same_tag nm "inner" then 1
  else 0.

(** A registry where [b] comes before [Card] and drops its content. *)
Definition sample_drop : obj V2.TagTemplate :=
  [("b", {| V2.tag_name := "b"; V2.template_content := "PAIR";
            V2.stylesheet_path := "" |});
   ("Card", {| V2.tag_name := "Card"; V2.template_content := "CARD";
               V2.stylesheet_path := "card.css" |})].

(** [or_empty a]: an absent attribute mapping read as the empty one. *)
Definition or_empty (a : option attrs) : attrs :=
  match a with
  | Some x => x
  | None => []
  end.

(** [present callback]: the loop body [callback] when it is never told
    that the attribute mapping is absent. *)
Definition present (callback : option attrs -> option html -> result html)
  : option attrs -> option html -> result html :=
  fun a inner_html => callback (Some (or_empty a)) inner_html.

(** Whether [forward(ks)] has the key [k] among its accumulated keys
    when its arguments [ks] are read, [acc] telling whether it had it
    before them: a name adds itself, ["*"] adds every key of the usage,
    ["!k"] removes [k]. *)
Fixpoint kept (A : attrs) (k : string) (ks : list string) (acc : bool)
  : bool :=
  match ks with
  | [] => acc
  | key :: r =>
      kept A k r
        (if String.eqb key "*" then acc || has k A
         else if startsWith "!" key
              then acc && negb (String.eqb (slice1 key) k)
              else acc || String.eqb key k)
  end.

(** [extends t t']: every definition of [t] is in [t'] as it was, and [t']
    has distinct keys if [t] has. *)
Definition extends {V : Type} (t t' : obj V) : Prop :=
  (forall k v, get t k = Some v -> get t' k = Some v)
  /\ (NoDup (keys t) -> NoDup (keys t')).

(** [keeps_names t t']: every name of [t] is a name of [t'], and [t'] has
    distinct keys if [t] has. *)
Definition keeps_names {V : Type} (t t' : obj V) : Prop :=
  (forall k, has k t = true -> has k t' = true)
  /\ (NoDup (keys t) -> NoDup (keys t')).

(** The name of a directory entry. *)
Definition entry_name (e : entry) : string :=
  match e with
  | File filename _ => filename
  | Dir filename _ => filename
  end.

(** The suffix test of [process_template_directory]. *)
Definition template_suffix (filename : string) : bool :=
  endsWith ".html" filename || endsWith ".njk" filename.

(** Whether the character [c] occurs in [s]. *)
Fixpoint has_char (c : ascii) (s : string) : bool :=
  match s with
  | EmptyString => false
  | String a r => Ascii.eqb a c || has_char c r
  end.

(** [k] is among the names [ks]. *)
Definition among (ks : list string) (k : string) : bool :=
  existsb (String.eqb k) ks.

(** [a=value], the text of an entry of a usage mapping. *)
Definition entry_text (kv : string * string) : string :=
  (fst kv ++ "=" ++ snd kv)%string.

(** The files of a listing whose stem is [k], directories apart. *)
Definition stem_is (k : string) (e : entry) : bool :=
  match e with
  | File filename _ => String.eqb (hd EmptyString (split "." filename)) k
  | Dir _ _ => false
  end.

(** The files a load reads, in the order it reads them: those with the
    suffix, in the listing or in a directory with the suffix that the
    load reads. *)
Fixpoint reached_entry (e : entry) : list (string * string) :=
  match e with
  | File filename contents =>
      if template_suffix filename then [(filename, contents)] else []
  | Dir filename entries =>
      if template_suffix filename then flat_map reached_entry entries else []
  end.

Definition reached (files : list entry) : list (string * string) :=
  flat_map reached_entry files.

(** The definitions the draft with [add_template] makes of the files
    [l]: each source under the name of its front matter, or else under
    the stem of its file name. *)
Definition V1_definitions (w : World) (l : list (string * string))
  : obj string :=
  map (fun fc => (V1.registered_name w (snd fc) (V1.file_stem (fst fc)),
                  snd fc)) l.

(** The names [ks] are distinct and none is a name of [t], own or
    inherited. *)
Definition fresh_names {V : Type} (t : obj V) (ks : list string) : Prop :=
  NoDup ks /\ forall k, In k ks -> in_ k t = false.

(** The source [contents] names its tag in its front matter. *)
Definition names_tag (w : World) (contents : string) : bool :=
  has "tag" (snd (matter w contents)).

(** What a turn of the load does, in terms of the files it reads. *)
Definition V1_turn_result (w : World) (e : entry) : Prop :=
  forall dir t t',
    V1.process_entry w dir t e = (t', Ok tt)
    <-> t' = t ++ V1_definitions w (reached_entry e)
        /\ fresh_names t (keys (V1_definitions w (reached_entry e))).

(* ================================================================== *)
(** * Part II: properties                                              *)
(* ================================================================== *)

(** ** Strings, objects and sets *)

Section JS_facts.

Lemma append_assoc (a b c : string) :
  ((a ++ b) ++ c)%string = (a ++ (b ++ c))%string.
Proof. induction a; simpl; congruence. Qed.

Lemma append_nil_r (a : string) : (a ++ "")%string = a.
Proof. induction a; simpl; congruence. Qed.

Lemma split_not_nil (c : ascii) (s : string) : split c s <> [].
Proof.
  induction s as [|a r IH]; simpl; [discriminate|].
  destruct (Ascii.eqb a c); [discriminate|].
  destruct (split c r); discriminate.
Qed.

Lemma join_cons (sep x : string) (l : list string) :
  l <> [] -> join sep (x :: l) = (x ++ sep ++ join sep l)%string.
Proof. destruct l; [congruence|reflexivity]. Qed.

Lemma join_push (sep : string) (a : ascii) (w : string) (ws : list string) :
  join sep (String a w :: ws) = String a (join sep (w :: ws)).
Proof. destruct ws; reflexivity. Qed.

(** [s.split(c).join(c)] gives [s] back. *)
Lemma join_split (c : ascii) (s : string) :
  join (String c EmptyString) (split c s) = s.
Proof.
  induction s as [|a r IH]; simpl; [reflexivity|].
  destruct (Ascii.eqb a c) eqn:E.
  - apply Ascii.eqb_eq in E; subst a.
    rewrite join_cons by apply split_not_nil.
    simpl. now rewrite IH.
  - pose proof (split_not_nil c r) as Hn.
    destruct (split c r) as [|w ws]; [congruence|].
    rewrite join_push. now rewrite IH.
Qed.

Lemma join_snoc (sep x : string) (l : list string) :
  l <> [] -> join sep (l ++ [x]) = (join sep l ++ sep ++ x)%string.
Proof.
  induction l as [|a l IH]; [congruence|]. intros _.
  destruct l as [|b l].
  - reflexivity.
  - change ((a :: b :: l) ++ [x]) with (a :: ((b :: l) ++ [x])).
    rewrite join_cons by (simpl; discriminate).
    rewrite IH by discriminate.
    rewrite (@join_cons sep a (b :: l)) by discriminate.
    now rewrite !append_assoc.
Qed.

Lemma map_cell_some (l : list string) : map cell (map Some l) = l.
Proof. induction l; simpl; congruence. Qed.

(** [value.split(" ").concat(x).join(" ")] is [value + " " + x], with
    [undefined] printed as the empty string. *)
Lemma split_concat_join (value : string) (x : option string) :
  join_cells " " (map Some (split " " value) ++ [x])
  = (value ++ " " ++ cell x)%string.
Proof.
  unfold join_cells. rewrite map_app, map_cell_some. simpl.
  rewrite join_snoc by apply split_not_nil.
  now rewrite join_split.
Qed.

Context {V : Type}.
Implicit Types (o : obj V) (k : string) (v : V).

Lemma has_true o k : has k o = true <-> exists v, get o k = Some v.
Proof.
  unfold has. destruct (get o k); split; intros H; eauto; try discriminate.
  now destruct H.
Qed.

Lemma has_false o k : has k o = false <-> get o k = None.
Proof. unfold has. destruct (get o k); split; congruence. Qed.

Lemma get_set_same o k v : get (set o k v) k = Some v.
Proof.
  induction o as [|[k' v'] o IH]; simpl.
  - now rewrite String.eqb_refl.
  - destruct (String.eqb k k') eqn:E; simpl; rewrite E; auto.
Qed.

Lemma get_set_other o k k' v : k' <> k -> get (set o k v) k' = get o k'.
Proof.
  intros Hne. induction o as [|[k0 v0] o IH]; simpl.
  - apply String.eqb_neq in Hne. now rewrite Hne.
  - destruct (String.eqb k k0) eqn:E; simpl.
    + apply String.eqb_eq in E; subst k0.
      apply String.eqb_neq in Hne. now rewrite Hne.
    + destruct (String.eqb k' k0); auto.
Qed.

Lemma get_in o k v : NoDup (keys o) -> In (k, v) o -> get o k = Some v.
Proof.
  induction o as [|[k0 v0] o IH]; simpl; [tauto|].
  intros Hnd [Heq|Hin].
  - inversion Heq; subst. now rewrite String.eqb_refl.
  - inversion Hnd as [|? ? Hnotin Hnd']; subst.
    destruct (String.eqb k k0) eqn:E.
    + apply String.eqb_eq in E; subst k0.
      exfalso. apply Hnotin. apply (in_map fst) in Hin. exact Hin.
    + auto.
Qed.

Lemma get_some_in o k v : get o k = Some v -> In (k, v) o.
Proof.
  induction o as [|[k0 v0] o IH]; simpl; [discriminate|].
  destruct (String.eqb k k0) eqn:E.
  - apply String.eqb_eq in E; subst. intros [= ->]. now left.
  - auto.
Qed.

Lemma in_own o k : has k o = true -> in_ k o = true.
Proof. intros H. unfold in_. now rewrite H. Qed.

Lemma in_false o k :
  in_ k o = false <-> has k o = false /\ inherited k = false.
Proof. unfold in_. apply orb_false_iff. Qed.

Lemma get_none_keys o k : get o k = None <-> ~ In k (keys o).
Proof.
  induction o as [|[k0 v0] o IH]; simpl; [tauto|].
  destruct (String.eqb k k0) eqn:E.
  - apply String.eqb_eq in E; subst. split; [discriminate|]. tauto.
  - apply String.eqb_neq in E. rewrite IH. split; intros H.
    + intros [Heq|Hin]; [congruence|tauto].
    + tauto.
Qed.

End JS_facts.

Section Sset_facts.
Implicit Types (s : sset) (k x : string).

Lemma sset_has_in s k : sset_has s k = true <-> In k s.
Proof.
  unfold sset_has. rewrite existsb_exists. split.
  - intros [x [Hin Heq]]. apply String.eqb_eq in Heq. now subst.
  - intros Hin. exists k. split; [assumption|apply String.eqb_refl].
Qed.

Lemma sset_has_not_in s k : sset_has s k = false <-> ~ In k s.
Proof.
  rewrite <- sset_has_in. destruct (sset_has s k); split; congruence.
Qed.

Lemma sset_add_in s k x : In x (sset_add s k) <-> In x s \/ x = k.
Proof.
  unfold sset_add. destruct (sset_has s k) eqn:E.
  - apply sset_has_in in E. split; [tauto|]. intros [H| ->]; assumption.
  - rewrite in_app_iff. simpl. split; intros [H|H]; auto.
    + destruct H as [H|[]]; auto.
Qed.

Lemma sset_add_nodup s k : NoDup s -> NoDup (sset_add s k).
Proof.
  intros Hnd. unfold sset_add. destruct (sset_has s k) eqn:E; [assumption|].
  apply sset_has_not_in in E.
  apply NoDup_app; [assumption|repeat constructor; simpl; tauto| ].
  intros x Hin [Heq|[]]. subst. contradiction.
Qed.

Lemma sset_delete_in s k x : In x (sset_delete s k) <-> In x s /\ x <> k.
Proof.
  unfold sset_delete. rewrite filter_In, negb_true_iff, String.eqb_neq.
  split; intros [H1 H2]; split; auto.
Qed.

Lemma sset_delete_nodup s k : NoDup s -> NoDup (sset_delete s k).
Proof. intros. now apply NoDup_filter. Qed.

Lemma sset_delete_absent s k : ~ In k s -> sset_delete s k = s.
Proof.
  intros Hn. unfold sset_delete. induction s as [|a s IH]; simpl; auto.
  destruct (String.eqb k a) eqn:E; simpl.
  - apply String.eqb_eq in E. subst. exfalso. apply Hn. now left.
  - f_equal. apply IH. intros H. apply Hn. now right.
Qed.

Lemma fold_add_in (l : list string) s x :
  In x (fold_left sset_add l s) <-> In x s \/ In x l.
Proof.
  revert s. induction l as [|a l IH]; intros s; simpl; [tauto|].
  rewrite IH, sset_add_in. intuition.
Qed.

Lemma fold_add_nodup (l : list string) s :
  NoDup s -> NoDup (fold_left sset_add l s).
Proof.
  revert s. induction l as [|a l IH]; intros s H; simpl; auto.
  apply IH. now apply sset_add_nodup.
Qed.

Lemma fold_add_fresh (l : list string) s :
  NoDup (s ++ l) -> fold_left sset_add l s = s ++ l.
Proof.
  revert s. induction l as [|a l IH]; intros s H; simpl.
  - now rewrite app_nil_r.
  - assert (Ha : sset_has s a = false).
    { apply sset_has_not_in. apply NoDup_remove_2 in H.
      intros Hin. apply H. apply in_app_iff. now left. }
    unfold sset_add at 2. rewrite Ha.
    rewrite IH; rewrite <- app_assoc; simpl; auto.
Qed.

End Sset_facts.

(** ** Class and id merging in [forward_html_attributes] *)

Section Merge.
Implicit Types (attr value : string) (attribs : attrs).

Lemma merge_value_class value attribs c :
  get attribs "class" = Some c ->
  merge_value "class" value attribs = (value ++ " " ++ c)%string.
Proof.
  intros H. unfold merge_value. simpl.
  assert (Hh : has "class" attribs = true) by (apply has_true; eauto).
  rewrite Hh, split_concat_join, H. reflexivity.
Qed.

(** The [id] branch reads [top_element.attribs["class"]]. *)
Lemma merge_value_id value attribs :
  has "id" attribs = true ->
  merge_value "id" value attribs
  = (value ++ " " ++ cell (get attribs "class"))%string.
Proof.
  intros H. unfold merge_value. simpl.
  rewrite H, split_concat_join. reflexivity.
Qed.

Lemma merge_value_fresh attr value attribs :
  has attr attribs = false -> merge_value attr value attribs = value.
Proof.
  intros H. unfold merge_value.
  destruct (String.eqb attr "class") eqn:Ec.
  - apply String.eqb_eq in Ec. subst. rewrite H. reflexivity.
  - destruct (String.eqb attr "id") eqn:Ei; [|reflexivity].
    apply String.eqb_eq in Ei. subst. rewrite H. reflexivity.
Qed.

Lemma merge_value_other attr value attribs :
  attr <> "class" -> attr <> "id" -> merge_value attr value attribs = value.
Proof.
  intros Hc Hi. unfold merge_value.
  apply String.eqb_neq in Hc, Hi. now rewrite Hc, Hi.
Qed.

End Merge.

(** C3.  Forwarding [class] onto a root that has a class gives the usage
    tokens followed by the root's class tokens.  Forwarding [id] onto a
    root that has an id does not use the root's id: on
    [<button class="btn" id="base">] the usage [id="submit-btn"] becomes
    [id="submit-btn btn"], the usage tokens followed by the root's class
    tokens, in both drafts that forward attributes. *)
Theorem C3_id_merge_reads_class :
  let button := Elem "button" [("class", "btn"); ("id", "base")] [] in
  V1.forward_html_attributes Sample.world [] [button] [("id", "submit-btn")]
  = Ok [Elem "button" [("class", "btn"); ("id", "submit-btn btn")] []]
  /\ V0.forward_html_attributes Sample.world [button] [("id", "submit-btn")]
     = Ok [Elem "button" [("class", "btn"); ("id", "submit-btn btn")] []]
  /\ V1.forward_html_attributes Sample.world [] [button] [("class", "primary")]
     = Ok [Elem "button" [("class", "primary btn"); ("id", "base")] []].
Proof. repeat split; reflexivity. Qed.

(** ** The registry *)

Section Registry.
Variable w : World.

Lemma add_template_spec template default_tag_name templates :
  V1.add_template w template default_tag_name templates
  = let name := V1.registered_name w template default_tag_name in
    if in_ name templates then (templates, Throw DuplicateTagError)
    else (set templates name template, Ok tt).
Proof.
  unfold V1.add_template, V1.registered_name.
  destruct (matter w template) as [content data]. simpl.
  destruct (get data "tag"); reflexivity.
Qed.

(** What [new TagTemplate] does with a source that names its tag. *)
Lemma TagTemplate_new_tagged path contents tag :
  get (snd (matter w contents)) "tag" = Some tag ->
  exists t, V2.TagTemplate_new w path contents = Ok t
            /\ V2.tagname t = tag.
Proof.
  unfold V2.TagTemplate_new. destruct (matter w contents) as [c data].
  simpl. intros H.
  assert (Hh : has "tag" data = true) by (apply has_true; eauto).
  rewrite Hh, H. simpl. eexists. split; reflexivity.
Qed.

(** What [new TagTemplate] does with a source that does not:
    [template_filepath.split("/")[-1]] is [undefined]. *)
Lemma TagTemplate_new_untagged path contents :
  get (snd (matter w contents)) "tag" = None ->
  V2.TagTemplate_new w path contents = Throw TypeError.
Proof.
  unfold V2.TagTemplate_new. destruct (matter w contents) as [c data].
  simpl. intros H.
  assert (Hh : has "tag" data = false) by (now apply has_false).
  rewrite Hh. reflexivity.
Qed.

End Registry.




(** C8.  In [src/index.ts] a template file whose front matter has no
    [tag] is not registered: the constructor reads
    [template_filepath.split("/")[-1]], which is [undefined], and the call
    of [split] on it throws; loading stops with the registry as it was. *)
Theorem C8_untagged_file_throws (w : World) (dir filename contents : string)
  (templates : obj V2.TagTemplate) :
  endsWith ".html" filename || endsWith ".njk" filename = true ->
  get (snd (matter w contents)) "tag" = None ->
  V2.process_template_directory w dir [File filename contents] templates
  = (templates, Throw TypeError).
Proof.
  intros Hext Htag. unfold V2.process_template_directory. simpl.
  rewrite <- negb_orb, Hext. simpl.
  now rewrite TagTemplate_new_untagged.
Qed.

Lemma C8_untagged_file_throws_witness :
  V2.process_template_directory Sample.world "templates"
    [File "button.njk" "BUTTON"] []
  = ([], Throw TypeError).
Proof.
  apply (C8_untagged_file_throws Sample.world "templates" "button.njk"
           "BUTTON" []); reflexivity.
Defined.

(** The draft with [add_template] does register [button.njk] as
    [button]; it keeps what precedes the first dot. *)
Lemma V1_file_stem_examples :
  V1.process_template_directory Sample.world "templates"
    [File "button.njk" "BUTTON"] []
  = ([("button", "BUTTON")], Ok tt)
  /\ V1.file_stem "card.min.njk" = "card".
Proof. split; reflexivity. Qed.

(** ** The [forward] helper of [src/index.ts] *)

Section Forward.
Variable attributes : attrs.
Hypothesis unique_keys : NoDup (keys attributes).

Lemma in_keys_has (k : string) :
  In k (keys attributes) <-> has k attributes = true.
Proof.
  rewrite has_true. split.
  - intros Hin. destruct (get attributes k) eqn:E; eauto.
    apply get_none_keys in E. contradiction.
  - intros [v Hv]. apply get_some_in in Hv.
    apply (in_map fst) in Hv. exact Hv.
Qed.

Lemma pushed_filter (ks : list string) :
  flat_map (fun key =>
              if has key attributes
              then [(key ++ "=" ++ cell (get attributes key))%string]
              else []) ks
  = map (serialized attributes)
      (filter (fun key => has key attributes) ks).
Proof.
  induction ks as [|k ks IH]; [reflexivity|].
  cbn [flat_map filter].
  destruct (has k attributes); cbn [map app]; now rewrite IH.
Qed.

Lemma filter_own_keys :
  filter (fun key => has key attributes) (keys attributes)
  = keys attributes.
Proof.
  apply forallb_filter_id. apply forallb_forall.
  intros k Hk. now apply in_keys_has.
Qed.

Lemma serialized_entries (o : attrs) :
  incl o attributes ->
  map (serialized attributes) (keys o)
  = map (fun kv => (fst kv ++ "=" ++ snd kv)%string) o.
Proof.
  induction o as [|[k v] o IH]; intros Hincl; simpl; [reflexivity|].
  rewrite IH by (intros x Hx; apply Hincl; now right).
  unfold serialized at 1.
  rewrite (@get_in _ attributes k v unique_keys
             (Hincl (k, v) (or_introl eq_refl))).
  reflexivity.
Qed.

Lemma forward_no_argument :
  V2.forward attributes []
  = join " " (map (fun kv => (fst kv ++ "=" ++ snd kv)%string) attributes).
Proof.
  unfold V2.forward. cbn [List.length Nat.ltb Nat.leb].
  rewrite (fold_add_fresh (keys attributes) []) by exact unique_keys.
  cbn [app]. rewrite pushed_filter, filter_own_keys.
  now rewrite serialized_entries by apply incl_refl.
Qed.

Lemma forward_key_plain (s : sset) (key : string) :
  plain_key key = true -> V2.forward_key attributes s key = sset_add s key.
Proof.
  unfold plain_key, V2.forward_key. intros H.
  apply andb_true_iff in H. destruct H as [H1 H2].
  apply negb_true_iff in H1, H2. now rewrite H1, H2.
Qed.

Lemma fold_forward_plain (ks : list string) (s : sset) :
  forallb plain_key ks = true ->
  fold_left (V2.forward_key attributes) ks s = fold_left sset_add ks s.
Proof.
  revert s. induction ks as [|k ks IH]; intros s H; simpl; [reflexivity|].
  simpl in H. apply andb_true_iff in H. destruct H as [Hk Hks].
  rewrite forward_key_plain by assumption. now apply IH.
Qed.

Lemma forward_named (ks : list string) :
  ks <> [] -> forallb plain_key ks = true ->
  exists out,
    NoDup out
    /\ (forall k, In k out <-> In k ks /\ has k attributes = true)
    /\ V2.forward attributes ks = join " " (map (serialized attributes) out).
Proof.
  intros Hne Hplain.
  exists (filter (fun key => has key attributes) (fold_left sset_add ks [])).
  split; [|split].
  - apply NoDup_filter, fold_add_nodup. constructor.
  - intros k. rewrite filter_In, fold_add_in. simpl. tauto.
  - unfold V2.forward. destruct ks as [|k0 ks]; [congruence|].
    cbn [List.length Nat.ltb Nat.leb].
    rewrite fold_forward_plain by assumption.
    now rewrite pushed_filter.
Qed.

Lemma forward_key_star (s : sset) (k : string) :
  In k (V2.forward_key attributes s "*") <-> In k s \/ In k (keys attributes).
Proof. unfold V2.forward_key. simpl. apply fold_add_in. Qed.

Lemma forward_key_exclusion (s : sset) (k : string) :
  V2.forward_key attributes s ("!" ++ k) = sset_delete s k.
Proof. unfold V2.forward_key. simpl. destruct k; reflexivity. Qed.

Lemma forward_exclusion_first (k : string) (rest : list string) :
  rest <> [] ->
  V2.forward attributes (("!" ++ k)%string :: rest)
  = V2.forward attributes rest.
Proof.
  intros Hne. unfold V2.forward. destruct rest as [|r rest]; [congruence|].
  cbn [List.length Nat.ltb Nat.leb fold_left].
  now rewrite forward_key_exclusion.
Qed.

Lemma forward_key_has (s : sset) (key k : string) :
  sset_has (V2.forward_key attributes s key) k
  = if String.eqb key "*" then sset_has s k || has k attributes
    else if startsWith "!" key
         then sset_has s k && negb (String.eqb (slice1 key) k)
         else sset_has s k || String.eqb key k.
Proof.
  unfold V2.forward_key. apply Bool.eq_iff_eq_true.
  destruct (String.eqb key "*"); [|destruct (startsWith "!" key)].
  - rewrite sset_has_in, fold_add_in, orb_true_iff, sset_has_in.
    now rewrite in_keys_has.
  - rewrite sset_has_in, sset_delete_in, andb_true_iff, sset_has_in.
    rewrite negb_true_iff, String.eqb_neq. intuition congruence.
  - rewrite sset_has_in, sset_add_in, orb_true_iff, sset_has_in.
    rewrite String.eqb_eq. intuition congruence.
Qed.

Lemma fold_forward_kept (ks : list string) (s : sset) (k : string) :
  sset_has (fold_left (V2.forward_key attributes) ks s) k
  = kept attributes k ks (sset_has s k).
Proof.
  revert s. induction ks as [|key ks IH]; intros s; [reflexivity|].
  cbn [fold_left kept]. now rewrite IH, forward_key_has.
Qed.

Lemma forward_key_nodup (s : sset) (key : string) :
  NoDup s -> NoDup (V2.forward_key attributes s key).
Proof.
  intros H. unfold V2.forward_key.
  destruct (String.eqb key "*"); [now apply fold_add_nodup|].
  destruct (startsWith "!" key);
    [now apply sset_delete_nodup|now apply sset_add_nodup].
Qed.

Lemma fold_forward_nodup (ks : list string) (s : sset) :
  NoDup s -> NoDup (fold_left (V2.forward_key attributes) ks s).
Proof.
  revert s. induction ks as [|key ks IH]; intros s H; [exact H|].
  cbn [fold_left]. apply IH. now apply forward_key_nodup.
Qed.

Lemma forward_kept (ks : list string) :
  ks <> [] ->
  exists out,
    NoDup out
    /\ (forall k,
           In k out
           <-> kept attributes k ks false = true /\ has k attributes = true)
    /\ V2.forward attributes ks = join " " (map (serialized attributes) out).
Proof.
  intros Hne.
  exists (filter (fun key => has key attributes)
            (fold_left (V2.forward_key attributes) ks [])).
  split; [|split].
  - apply NoDup_filter, fold_forward_nodup. constructor.
  - intros k. rewrite filter_In, <- sset_has_in, fold_forward_kept.
    reflexivity.
  - unfold V2.forward. destruct ks as [|k0 ks]; [congruence|].
    cbn [List.length Nat.ltb Nat.leb]. now rewrite pushed_filter.
Qed.

Lemma fold_delete_filter (xs : list string) (s : sset) :
  fold_left sset_delete xs s = filter (fun k => negb (sset_has xs k)) s.
Proof.
  revert s. induction xs as [|x xs IH]; intros s; cbn [fold_left].
  - symmetry. apply forallb_filter_id. now apply forallb_forall.
  - rewrite IH. unfold sset_delete.
    induction s as [|a s IHs]; [reflexivity|].
    cbn [filter sset_has existsb].
    rewrite (String.eqb_sym a x).
    destruct (String.eqb x a); cbn [negb orb filter]; [exact IHs|].
    fold (sset_has xs a). destruct (sset_has xs a); cbn [negb];
      now rewrite IHs.
Qed.

Lemma fold_forward_exclusions (xs : list string) (s : sset) :
  fold_left (V2.forward_key attributes)
    (map (fun x => ("!" ++ x)%string) xs) s
  = fold_left sset_delete xs s.
Proof.
  revert s. induction xs as [|x xs IH]; intros s; [reflexivity|].
  cbn [map fold_left]. now rewrite forward_key_exclusion, IH.
Qed.

Lemma forward_star_exclusions (xs : list string) :
  V2.forward attributes ("*" :: map (fun x => ("!" ++ x)%string) xs)
  = join " "
      (map (serialized attributes)
         (filter (fun k => negb (sset_has xs k)) (keys attributes))).
Proof.
  unfold V2.forward. cbn [List.length Nat.ltb Nat.leb fold_left].
  change (V2.forward_key attributes [] "*")
    with (fold_left sset_add (keys attributes) []).
  rewrite (fold_add_fresh (keys attributes) []) by exact unique_keys.
  cbn [app]. rewrite fold_forward_exclusions, fold_delete_filter.
  rewrite pushed_filter. do 2 f_equal.
  apply forallb_filter_id. apply forallb_forall.
  intros k Hk. apply filter_In in Hk. now apply in_keys_has.
Qed.

Lemma forward_exclusions_first (xs rest : list string) :
  rest <> [] ->
  V2.forward attributes (map (fun x => ("!" ++ x)%string) xs ++ rest)
  = V2.forward attributes rest.
Proof.
  intros Hne. unfold V2.forward.
  destruct rest as [|r rest]; [congruence|].
  rewrite length_app, fold_left_app, fold_forward_exclusions.
  replace (fold_left sset_delete xs []) with (@nil string).
  - cbn [List.length]. rewrite Nat.add_succ_r. reflexivity.
  - rewrite fold_delete_filter. reflexivity.
Qed.

End Forward.

(** C10.  For a usage mapping [A] (an object: its keys are distinct),
    [forward()] returns every entry of [A] as [k=value], unquoted and
    joined by spaces; [forward(k1, ..., kn)] with plain names returns
    exactly the named keys that [A] has, each once.  For any arguments,
    what [forward] returns is the [k=value] of a list without repetition
    of exactly the keys of [A] that are kept when the arguments are read
    from left to right, a name adding itself, ["*"] adding every key of
    [A] and ["!k"] removing [k] from the keys accumulated so far and
    nothing else.  So ["!k"] changes nothing when [k] has not been
    accumulated yet, exclusions given first are as if they had not been
    given, and [forward("*", "!x1", ..., "!xn")] returns the entries of
    [A] other than [x1], ..., [xn], in the order of [A]. *)
Theorem C10_forward_helper (A : attrs) :
  NoDup (keys A) ->
  V2.forward A []
  = join " " (map (fun kv => (fst kv ++ "=" ++ snd kv)%string) A)
  /\ (forall ks,
         ks <> [] -> forallb plain_key ks = true ->
         exists out,
           NoDup out
           /\ (forall k, In k out <-> In k ks /\ has k A = true)
           /\ V2.forward A ks = join " " (map (serialized A) out))
  /\ (forall s k, In k (V2.forward_key A s "*") <-> In k s \/ In k (keys A))
  /\ (forall s k x,
         In x (V2.forward_key A s ("!" ++ k)) <-> In x s /\ x <> k)
  /\ (forall s k, ~ In k s -> V2.forward_key A s ("!" ++ k) = s)
  /\ (forall k rest,
         rest <> [] ->
         V2.forward A (("!" ++ k)%string :: rest) = V2.forward A rest)
  /\ (forall ks,
         ks <> [] ->
         exists out,
           NoDup out
           /\ (forall k,
                  In k out <-> kept A k ks false = true /\ has k A = true)
           /\ V2.forward A ks = join " " (map (serialized A) out))
  /\ (forall xs,
         V2.forward A ("*" :: map (fun x => ("!" ++ x)%string) xs)
         = join " "
             (map (serialized A)
                (filter (fun k => negb (sset_has xs k)) (keys A))))
  /\ (forall xs rest,
         rest <> [] ->
         V2.forward A (map (fun x => ("!" ++ x)%string) xs ++ rest)
         = V2.forward A rest).
Proof.
  intros Hnd.
  split; [now apply forward_no_argument|].
  split; [intros ks; now apply forward_named|].
  split; [intros s k; apply forward_key_star|].
  split; [intros s k x; rewrite forward_key_exclusion; apply sset_delete_in|].
  split.
  { intros s k Hk. rewrite forward_key_exclusion.
    now apply sset_delete_absent. }
  split; [intros k rest; now apply forward_exclusion_first|].
  split; [intros ks; now apply forward_kept|].
  split; [intros xs; now apply forward_star_exclusions|].
  intros xs rest. now apply forward_exclusions_first.
Qed.

Lemma C10_forward_helper_witness :
  let A := [("label", "a"); ("name", "b"); ("title", "c")] in
  V2.forward A [] = "label=a name=b title=c"
  /\ V2.forward A ["!label"; "*"] = V2.forward A ["*"]
  /\ V2.forward A ["*"; "!label"] = "name=b title=c"
  /\ V2.forward A ["*"; "!label"; "!title"] = "name=b"
  /\ (exists out,
         NoDup out
         /\ (forall k, In k out <-> k = "title" \/ k = "label")
         /\ V2.forward A ["*"; "!label"; "!name"; "label"; "width"]
            = join " " (map (serialized A) out)).
Proof.
  cbv zeta.
  assert (Hnd : NoDup (keys [("label", "a"); ("name", "b"); ("title", "c")])).
  { simpl. repeat constructor; simpl; intuition discriminate. }
  destruct (@C10_forward_helper _ Hnd)
    as [H0 [_ [_ [_ [_ [H5 [H6 [H7 _]]]]]]]].
  split; [|split; [|split; [|split]]].
  - rewrite H0. reflexivity.
  - apply (H5 "label" ["*"]). discriminate.
  - etransitivity; [exact (H7 ["label"])|reflexivity].
  - etransitivity; [exact (H7 ["label"; "title"])|reflexivity].
  - destruct (H6 ["*"; "!label"; "!name"; "label"; "width"])
      as [out [Hout [Hin Heq]]]; [discriminate|].
    exists out. split; [exact Hout|]. split; [|exact Heq].
    intros k. rewrite Hin.
    destruct (String.eqb_spec k "label") as [->|N1];
      [vm_compute; intuition|].
    destruct (String.eqb_spec k "name") as [->|N2].
    { vm_compute. split; [intros [H _]|intros [H|H]]; discriminate. }
    destruct (String.eqb_spec k "title") as [->|N3];
      [vm_compute; intuition|].
    apply String.eqb_neq in N1, N2, N3.
    unfold has. cbn [get]. rewrite N1, N2, N3.
    apply String.eqb_neq in N1, N3.
    split; [intros [_ H]; discriminate|intros [H|H]; congruence].
Defined.

Example forward_examples :
  let A := [("label", "a"); ("name", "b")] in
  V2.forward A ["label"; "name"] = "label=a name=b"
  /\ V2.forward A ["*"; "!label"] = "name=b"
  /\ V2.forward A ["!label"; "*"] = "label=a name=b"
  /\ V2.forward A ["name"; "title"] = "name=b"
  /\ V2.forward A ["!label"] = "".
Proof. repeat split; reflexivity. Qed.

(** ** The document tree *)

Section Tree.

Lemma node_induction (P : node -> Prop) :
  (forall s, P (Text s)) ->
  (forall nm a kids, Forall P kids -> P (Elem nm a kids)) ->
  forall n, P n.
Proof.
  intros HT HE. fix IH 1. intros [s|nm a kids].
  - apply HT.
  - apply HE. induction kids as [|k kids IHk]; constructor.
    + apply IH.
    + exact IHk.
Qed.

Context {A B : Type}.

Lemma concatM_throw (f : A -> result (list B)) (l : list A) (a : A) e :
  In a l -> f a = Throw e -> exists e', concatM f l = Throw e'.
Proof.
  induction l as [|x l IH]; simpl; [tauto|].
  intros [->|Hin] Hf.
  - rewrite Hf. simpl. eauto.
  - destruct (f x); simpl; [|eauto].
    destruct (IH Hin Hf) as [e' He']. rewrite He'. simpl. eauto.
Qed.

Lemma iterM_throw (f : A -> result unit) (l : list A) (a : A) e :
  In a l -> f a = Throw e -> exists e', iterM f l = Throw e'.
Proof.
  induction l as [|x l IH]; simpl; [tauto|].
  intros [->|Hin] Hf.
  - rewrite Hf. simpl. eauto.
  - destruct (f x); simpl; eauto.
Qed.

Lemma concatM_i_cons (f : nat -> A -> result (list B)) i a l :
  concatM_i f i (a :: l)
  = x <- f i a ;; y <- concatM_i f (S i) l ;; Ok (x ++ y).
Proof. reflexivity. Qed.

Lemma iterM_i_cons (f : nat -> A -> result unit) i a l :
  iterM_i f i (a :: l) = _ <- f i a ;; iterM_i f (S i) l.
Proof. reflexivity. Qed.

Lemma flat_map_i_cons (g : nat -> A -> list B) i a l :
  flat_map_i g i (a :: l) = g i a ++ flat_map_i g (S i) l.
Proof. reflexivity. Qed.

Lemma concatM_i_throw (f : nat -> A -> result (list B)) l : forall i j a e,
  nth_error l j = Some a -> f (i + j) a = Throw e ->
  exists e', concatM_i f i l = Throw e'.
Proof.
  induction l as [|x l IH]; intros i j a e Hn Hf;
    [destruct j; discriminate|].
  rewrite concatM_i_cons. destruct j as [|j]; simpl in Hn.
  - injection Hn as ->. rewrite Nat.add_0_r in Hf. rewrite Hf. simpl. eauto.
  - destruct (f i x); simpl; [|eauto].
    destruct (IH (S i) j a e Hn) as [e' He'].
    + now rewrite Nat.add_succ_comm.
    + rewrite He'. simpl. eauto.
Qed.

Lemma iterM_i_throw (f : nat -> A -> result unit) l : forall i j a e,
  nth_error l j = Some a -> f (i + j) a = Throw e ->
  exists e', iterM_i f i l = Throw e'.
Proof.
  induction l as [|x l IH]; intros i j a e Hn Hf;
    [destruct j; discriminate|].
  rewrite iterM_i_cons. destruct j as [|j]; simpl in Hn.
  - injection Hn as ->. rewrite Nat.add_0_r in Hf. rewrite Hf. simpl. eauto.
  - destruct (f i x); simpl; [|eauto].
    apply (IH (S i) j a e Hn). now rewrite Nat.add_succ_comm.
Qed.

Lemma flat_map_i_in (g : nat -> A -> list B) l : forall i x,
  In x (flat_map_i g i l) ->
  exists j a, nth_error l j = Some a /\ In x (g (i + j) a).
Proof.
  induction l as [|y l IH]; intros i x Hin; [destruct Hin|].
  rewrite flat_map_i_cons in Hin. apply in_app_or in Hin.
  destruct Hin as [Hin|Hin].
  - exists 0, y. rewrite Nat.add_0_r. auto.
  - destruct (IH (S i) x Hin) as [j [a [Hn Ha]]].
    exists (S j), a. rewrite <- Nat.add_succ_comm. auto.
Qed.

Lemma flat_map_i_nil (g : nat -> A -> list B) l : forall i,
  (forall j a, nth_error l j = Some a -> g (i + j) a = []) ->
  flat_map_i g i l = [].
Proof.
  induction l as [|y l IH]; intros i H; [reflexivity|].
  rewrite flat_map_i_cons.
  pose proof (H 0 y eq_refl) as H0. rewrite Nat.add_0_r in H0. rewrite H0.
  apply IH. intros j a Hn. rewrite Nat.add_succ_comm. now apply (H (S j)).
Qed.

Lemma flat_map_i_nil_inv (g : nat -> A -> list B) l : forall i,
  flat_map_i g i l = [] ->
  forall j a, nth_error l j = Some a -> g (i + j) a = [].
Proof.
  induction l as [|y l IH]; intros i H j a Hn; [destruct j; discriminate|].
  rewrite flat_map_i_cons in H. apply app_eq_nil in H. destruct H as [H1 H2].
  destruct j as [|j]; simpl in Hn.
  - injection Hn as <-. now rewrite Nat.add_0_r.
  - rewrite <- Nat.add_succ_comm. now apply (IH (S i) H2).
Qed.

Lemma foldM_cons {S : Type} (f : S -> A -> result S) (a : A) l s :
  foldM f (a :: l) s = s' <- f s a ;; foldM f l s'.
Proof. reflexivity. Qed.

Lemma foldM_app {S : Type} (f : S -> A -> result S) (l1 l2 : list A) s :
  foldM f (l1 ++ l2) s = s' <- foldM f l1 s ;; foldM f l2 s'.
Proof.
  revert s. induction l1 as [|a l1 IH]; intros s; simpl; [reflexivity|].
  destruct (f s a); simpl; auto.
Qed.

End Tree.

(** A match whose callback throws makes the whole [each] throw, also
    when the match sits inside another match. *)
Section Each_throws.
Variable m : place -> node -> bool.
Variable callback : option attrs -> option html -> result html.

Lemma visit_detached_throws (n el : node) e : forall p,
  In el (found_node m p n) ->
  callback (attr el) (inner el) = Throw e ->
  exists e', visit_detached m callback p n = Throw e'.
Proof.
  induction n as [s|nm a kids IH] using node_induction; intros p;
    [intros []|].
  cbn [found_node visit_detached]. intros Hin Hcb.
  apply in_app_or in Hin. destruct Hin as [Hin|Hin].
  - destruct (m p (Elem nm a kids)); [|destruct Hin].
    destruct Hin as [<-|[]]. rewrite Hcb. simpl. eauto.
  - destruct (if m p (Elem nm a kids)
              then _ <- callback (attr (Elem nm a kids))
                          (inner (Elem nm a kids)) ;; Ok tt
              else Ok tt) as [u|e0]; simpl; [|eauto].
    apply flat_map_i_in in Hin. destruct Hin as [j [k [Hk Hel]]].
    rewrite Forall_forall in IH.
    destruct (IH k (nth_error_In _ _ Hk) (0 + j :: p) Hel Hcb) as [e' He'].
    exact (@iterM_i_throw node
             (fun i k => visit_detached m callback (i :: p) k)
             kids 0 j k e' Hk He').
Qed.

Lemma each_node_throws (n el : node) e : forall p,
  In el (found_node m p n) ->
  callback (attr el) (inner el) = Throw e ->
  exists e', each_node m callback p n = Throw e'.
Proof.
  induction n as [s|nm a kids IH] using node_induction; intros p;
    [intros []|].
  cbn [found_node each_node]. intros Hin Hcb.
  apply in_app_or in Hin.
  destruct (m p (Elem nm a kids)) eqn:E.
  - destruct Hin as [[<-|[]]|Hin].
    + rewrite Hcb. simpl. eauto.
    + destruct (callback (attr (Elem nm a kids)) (inner (Elem nm a kids)));
        simpl; [|eauto].
      apply flat_map_i_in in Hin. destruct Hin as [j [k [Hk Hel]]].
      destruct (@visit_detached_throws k el e (0 + j :: p) Hel Hcb)
        as [e' He'].
      destruct (@iterM_i_throw node
                  (fun i k => visit_detached m callback (i :: p) k)
                  kids 0 j k e' Hk He') as [e'' He''].
      rewrite He''. simpl. eauto.
  - destruct Hin as [[]|Hin].
    apply flat_map_i_in in Hin. destruct Hin as [j [k [Hk Hel]]].
    rewrite Forall_forall in IH.
    destruct (IH k (nth_error_In _ _ Hk) (0 + j :: p) Hel Hcb) as [e' He'].
    destruct (@concatM_i_throw node node
                (fun i k => each_node m callback (i :: p) k)
                kids 0 j k e' Hk He') as [e'' He''].
    rewrite He''. simpl. eauto.
Qed.

Lemma each_found_throws (doc : html) (el : node) e :
  In el (found m doc) ->
  callback (attr el) (inner el) = Throw e ->
  exists e', each_found m callback doc = Throw e'.
Proof.
  intros Hin Hcb. apply flat_map_i_in in Hin.
  destruct Hin as [j [n [Hn Hel]]].
  destruct (@each_node_throws n el e [0 + j] Hel Hcb) as [e' He'].
  exact (@concatM_i_throw node node (fun i n => each_node m callback [i] n)
           doc 0 j n e' Hn He').
Qed.

End Each_throws.

Lemma each_throws (q : selection)
  (callback : option attrs -> option html -> result html)
  (doc : html) (el : node) e :
  In el (targets q doc) ->
  callback (attr el) (inner el) = Throw e ->
  exists e', each q callback doc = Throw e'.
Proof.
  destruct q as [m|l]; cbn [targets each]; intros Hin Hcb.
  - now apply (@each_found_throws m callback doc el e).
  - destruct (@iterM_throw node
                (fun n => _ <- callback (attr n) (inner n) ;; Ok tt) l el
                e Hin) as [e' He'].
    + now rewrite Hcb.
    + rewrite He'. simpl. eauto.
Qed.

(** ** The loop *)

Section Loop.
Variable transform : html -> sset -> result (html * string * bool * sset).

Lemma run_more (fuel k : nat) doc seen css r :
  run transform fuel doc seen css = Some r ->
  run transform (fuel + k) doc seen css = Some r.
Proof.
  revert doc seen css. induction fuel as [|fuel IH]; intros doc seen css;
    simpl; [discriminate|].
  destruct (transform doc seen) as [[[[d c] t] s]|e]; [|auto].
  destruct t; simpl; auto.
Qed.

Lemma run_deterministic (f1 f2 : nat) doc seen css r1 r2 :
  run transform f1 doc seen css = Some r1 ->
  run transform f2 doc seen css = Some r2 -> r1 = r2.
Proof.
  intros H1 H2.
  apply (run_more _ f2) in H1. apply (run_more _ f1) in H2.
  rewrite Nat.add_comm in H2. congruence.
Qed.

Lemma run_passes_state (n : nat) s s' :
  passes transform n s s' ->
  forall fuel,
    let '(doc, seen, css) := s in
    let '(doc', seen', css') := s' in
    run transform (n + fuel) doc seen css
    = run transform fuel doc' seen' css'.
Proof.
  induction 1 as [[[d sn] c]|n d sn c d1 c1 sn1 [[d2 sn2] c2] Ht Hp IH];
    intros fuel.
  - reflexivity.
  - simpl. rewrite Ht. simpl. apply IH.
Qed.

Lemma run_passes (n fuel : nat) doc seen css doc' seen' css' :
  passes transform n (doc, seen, css) (doc', seen', css') ->
  run transform (n + fuel) doc seen css = run transform fuel doc' seen' css'.
Proof. intros H. apply (run_passes_state H fuel). Qed.

(** A pass that throws ends the loop with its exception, whatever the
    fuel: nothing is returned. *)
Lemma run_throws (n : nat) doc seen css doc' seen' css' e :
  passes transform n (doc, seen, css) (doc', seen', css') ->
  transform doc' seen' = Throw e ->
  run transform (S n) doc seen css = Some (Throw e)
  /\ forall fuel r, run transform fuel doc seen css = Some r -> r = Throw e.
Proof.
  intros Hp Ht.
  assert (H : run transform (n + 1) doc seen css = Some (Throw e)).
  { rewrite (run_passes 1 Hp). simpl. now rewrite Ht. }
  split.
  - now rewrite <- Nat.add_1_r.
  - intros fuel r Hr. symmetry. eapply run_deterministic; eauto.
Qed.

End Loop.

(** ** The attribute forwarder *)

Section Forwarder.
Variable w : World.
Variable templates : obj string.

Lemma same_tag_refl (a : string) : same_tag a a = true.
Proof. apply String.eqb_refl. Qed.

Lemma same_tag_sym (a b : string) : same_tag a b = same_tag b a.
Proof. apply String.eqb_sym. Qed.

Lemma same_tag_trans (a b c : string) :
  same_tag a b = true -> same_tag b c = true -> same_tag a c = true.
Proof.
  unfold same_tag. rewrite !String.eqb_eq. congruence.
Qed.

Lemma found_node_elem (m : place -> node -> bool) (n el : node) :
  forall p, In el (found_node m p n) -> is_elem el = true.
Proof.
  induction n as [s|nm a kids IH] using node_induction; intros p;
    [intros []|].
  cbn [found_node]. intros Hin. apply in_app_or in Hin.
  destruct Hin as [Hin|Hin].
  - destruct (m p (Elem nm a kids)); [|destruct Hin].
    now destruct Hin as [<-|[]].
  - apply flat_map_i_in in Hin. destruct Hin as [j [k [Hk Hel]]].
    rewrite Forall_forall in IH.
    exact (IH k (nth_error_In _ _ Hk) _ Hel).
Qed.

Lemma found_elem (m : place -> node -> bool) (doc : html) (el : node) :
  In el (found m doc) -> is_elem el = true.
Proof.
  intros Hin. apply flat_map_i_in in Hin. destruct Hin as [j [n [_ Hel]]].
  eapply found_node_elem; eauto.
Qed.

Lemma replace_top_first (h : html) (top : node) (r : list node) :
  element_children h = top :: r -> replace_top top h = h.
Proof.
  induction h as [|n h IH]; simpl; [discriminate|].
  destruct (is_elem n) eqn:E.
  - intros [= -> _]. reflexivity.
  - intros H. now rewrite IH.
Qed.

Lemma element_children_replace_top (h : html) (top0 top : node) r :
  element_children h = top0 :: r -> is_elem top = true ->
  element_children (replace_top top h) = top :: r.
Proof.
  induction h as [|n h IH]; simpl; [discriminate|].
  destruct (is_elem n) eqn:E; simpl.
  - intros [= _ <-] Ht. now rewrite Ht.
  - intros H Ht. rewrite E. auto.
Qed.

Lemma forward_multiple_roots (h : html) (attributes : attrs) :
  1 < List.length (element_children h) ->
  V1.forward_html_attributes w templates h attributes
  = Throw MultipleRootsError.
Proof.
  intros H. unfold V1.forward_html_attributes.
  apply Nat.ltb_lt in H. now rewrite H.
Qed.

Lemma forward_no_attribute (h : html) :
  List.length (element_children h) <= 1 ->
  V1.forward_html_attributes w templates h [] = Ok h.
Proof.
  intros H. unfold V1.forward_html_attributes.
  apply Nat.ltb_ge in H. rewrite H. simpl.
  unfold index. simpl.
  destruct (element_children h) as [|top r] eqn:E; simpl; [reflexivity|].
  now rewrite (replace_top_first h E).
Qed.

Lemma not_indexOf_allowed (name attr : string) :
  not_indexOf
    (allowed_attributes w
       (match get (htmlElementAttributes w) (toLowerCase name) with
        | Some l => l
        | None => []
        end)) attr
  = negb (allowed_for w name attr).
Proof. reflexivity. Qed.

(** The loop over the usage attributes keeps the root's name and
    children, writes no attribute outside the allowed set unless the
    root is a registered tag, and writes no attribute the usage does
    not have. *)
Lemma forward_loop (attributes : attrs) (name : string) (ra : attrs)
  (kids : list node) :
  exists ra',
    foldM (V1.forward_entry w templates) attributes
      (Some (Elem name ra kids))
    = Ok (Some (Elem name ra' kids))
    /\ (forall k, in_ (toLowerCase name) templates = false ->
                  allowed_for w name k = false -> get ra' k = get ra k)
    /\ (forall k, ~ In k (keys attributes) -> get ra' k = get ra k).
Proof.
  revert ra. induction attributes as [|[attr value] attributes IH];
    intros ra; simpl.
  - exists ra. auto.
  - rewrite not_indexOf_allowed.
    destruct (negb (in_ (toLowerCase name) templates)
              && negb (allowed_for w name attr))
      eqn:E; simpl.
    + destruct (IH ra) as [ra' [H1 [H2 H3]]].
      exists ra'. split; [assumption|]. split; [assumption|].
      intros k Hk. apply H3. tauto.
    + destruct (IH (set ra attr (merge_value attr value ra)))
        as [ra' [H1 [H2 H3]]].
      exists ra'. split; [assumption|]. split.
      * intros k Hreg Hk. rewrite H2 by assumption.
        apply get_set_other. intros ->. rewrite Hreg, Hk in E. discriminate.
      * intros k Hk. rewrite H3 by tauto.
        apply get_set_other. intros ->. tauto.
Qed.

Lemma forward_single_root (h : html) (attributes : attrs) name ra kids :
  element_children h = [Elem name ra kids] ->
  exists ra',
    V1.forward_html_attributes w templates h attributes
    = Ok (replace_top (Elem name ra' kids) h)
    /\ root_attribs (replace_top (Elem name ra' kids) h) = Some ra'
    /\ (forall k, in_ (toLowerCase name) templates = false ->
                  allowed_for w name k = false -> get ra' k = get ra k)
    /\ (forall k, ~ In k (keys attributes) -> get ra' k = get ra k).
Proof.
  intros Hroot. unfold V1.forward_html_attributes. rewrite Hroot. simpl.
  unfold index. simpl.
  destruct (forward_loop attributes name ra kids) as [ra' [H1 [H2 H3]]].
  exists ra'. rewrite H1. simpl. split; [reflexivity|]. split; [|auto].
  unfold root_attribs.
  now rewrite (@element_children_replace_top h _ (Elem name ra' kids) _
                 Hroot eq_refl).
Qed.

Lemma variables_usage (attributes : attrs) inner_html attr value :
  NoDup (keys attributes) -> In (attr, value) attributes ->
  attr <> "content" ->
  get (V1.variables (Some attributes) inner_html) attr = Some (VStr value).
Proof.
  intros Hnd Hin Hne. unfold V1.variables.
  rewrite get_set_other by assumption.
  apply get_in.
  - unfold keys, spread. rewrite map_map. simpl. exact Hnd.
  - unfold spread. apply in_map_iff. exists (attr, value). auto.
Qed.

(** The first draft does the same on a root the table knows, and throws
    on a root it does not know. *)
Lemma V0_forward_loop (attributes : attrs) (name : string) (ra : attrs)
  (kids : list node) (exclusive : list string) :
  inherited (toLowerCase name) = false ->
  get (htmlElementAttributes w) (toLowerCase name) = Some exclusive ->
  foldM (V0.forward_entry w) attributes (Some (Elem name ra kids))
  = foldM (V1.forward_entry w []) attributes (Some (Elem name ra kids)).
Proof.
  intros Hown Hknown. revert ra.
  induction attributes as [|[attr value] attributes IH]; intros ra;
    [reflexivity|].
  rewrite !foldM_cons. cbn [V0.forward_entry V1.forward_entry].
  rewrite Hknown. unfold in_. rewrite Hown. cbn [has get negb andb orb].
  destruct (not_indexOf (allowed_attributes w exclusive) attr);
    cbn [bind]; apply IH.
Qed.

Lemma V0_forward_known_root (h : html) (attributes : attrs) name ra kids
  (exclusive : list string) :
  element_children h = [Elem name ra kids] ->
  inherited (toLowerCase name) = false ->
  get (htmlElementAttributes w) (toLowerCase name) = Some exclusive ->
  V0.forward_html_attributes w h attributes
  = V1.forward_html_attributes w [] h attributes.
Proof.
  intros Hroot Hown Hknown.
  unfold V0.forward_html_attributes, V1.forward_html_attributes.
  rewrite Hroot. cbn [List.length Nat.ltb Nat.leb index Z.ltb Z.compare
                        Z.to_nat nth_error].
  now rewrite (V0_forward_loop attributes name ra kids Hown Hknown).
Qed.

Lemma V0_forward_unknown_root (h : html) attr value (attributes : attrs)
  name ra kids :
  element_children h = [Elem name ra kids] ->
  get (htmlElementAttributes w) (toLowerCase name) = None ->
  V0.forward_html_attributes w h ((attr, value) :: attributes)
  = Throw TypeError.
Proof.
  intros Hroot Hunknown. unfold V0.forward_html_attributes.
  rewrite Hroot. cbn [List.length Nat.ltb Nat.leb index Z.ltb Z.compare
                        Z.to_nat nth_error].
  rewrite foldM_cons. cbn [V0.forward_entry]. now rewrite Hunknown.
Qed.

End Forwarder.

(** C6.  A usage attribute outside the allowed set of the
    expansion's root, the name of the root, in lower case as the parser
    writes it, being neither a key of the registry nor a name every
    object inherits, is not forwarded: the root of the final fragment has
    under that name exactly what the rendered body gave it, so the
    attribute is absent unless the rendered root already carried it.
    Unless it is called [content], it is among the variables handed to
    the renderer, with its usage value. *)
Theorem C6_not_forwarded (w : World) (templates : obj string)
  (content : string) (attributes : attrs) (inner_html : option html)
  (name : string) (ra : attrs) (kids : list node) (attr value : string) :
  let expansion :=
    renderString w content (V1.variables (Some attributes) inner_html) in
  element_children expansion = [Elem name ra kids] ->
  in_ (toLowerCase name) templates = false ->
  allowed_for w name attr = false ->
  NoDup (keys attributes) ->
  In (attr, value) attributes ->
  (exists out ra',
      V1.on_match w templates content (Some attributes) inner_html = Ok out
      /\ root_attribs out = Some ra'
      /\ get ra' attr = get ra attr)
  /\ (attr <> "content" ->
      get (V1.variables (Some attributes) inner_html) attr
      = Some (VStr value)).
Proof.
  intros expansion Hroot Hreg Hall Hnd Hin. split.
  - destruct (forward_single_root w templates expansion attributes Hroot)
      as [ra' [H1 [H2 [H3 _]]]].
    exists (replace_top (Elem name ra' kids) expansion), ra'.
    split; [exact H1|]. split; [exact H2|]. now apply H3.
  - intros Hne. now apply variables_usage.
Qed.

Lemma C6_not_forwarded_witness :
  let usage := [("label", "Go"); ("class", "primary")] in
  (exists out ra',
      V1.on_match Sample.world [] "BUTTON" (Some usage) (Some []) = Ok out
      /\ root_attribs out = Some ra'
      /\ get ra' "label" = get [("class", "btn"); ("id", "base")] "label")
  /\ ("label" <> "content" ->
      get (V1.variables (Some usage) (Some [])) "label" = Some (VStr "Go")).
Proof.
  cbv zeta.
  apply (@C6_not_forwarded Sample.world [] "BUTTON"
           [("label", "Go"); ("class", "primary")] (Some [])
           "button" [("class", "btn"); ("id", "base")] [Text "Go"]
           "label" "Go").
  - reflexivity.
  - reflexivity.
  - reflexivity.
  - simpl. repeat constructor; simpl; intuition discriminate.
  - simpl. auto.
Defined.

(** C6 as stated fails twice.  A root that the rendered body itself gave
    the attribute keeps it: [role] is not in the allowed set of [div],
    yet it is in the final fragment.  And a usage attribute called
    [content] does not reach the renderer: the inner HTML is bound to
    that name. *)
Lemma C6_attribute_present :
  allowed_for Sample.world "div" "role" = false
  /\ in_ "div" (@nil (string * string)) = false
  /\ V1.on_match Sample.world [] "ALERT" (Some [("role", "status")]) (Some [])
     = Ok [Elem "div" [("role", "status")] []]
  /\ allowed_for Sample.world "div" "content" = false
  /\ get (V1.variables (Some [("content", "x")]) (Some [Text "kids"]))
       "content"
     = Some (VHtml (Some [Text "kids"])).
Proof. repeat split; reflexivity. Qed.

(** The forwarder reads the name of the root as the parser writes it:
    a root [<Card>] is no usage of the key [Card] for it, a root [<DIV>]
    has the attributes of [div], and a root [<constructor>] is taken for
    a registered tag. *)
Example forwarder_root_names :
  V1.forward_html_attributes Sample.world [("Card", "card-source")]
    [Elem "Card" [] []] [("href", "/a")]
  = Ok [Elem "Card" [] []]
  /\ V1.forward_html_attributes Sample.world [("card", "card-source")]
       [Elem "Card" [] []] [("href", "/a")]
     = Ok [Elem "Card" [("href", "/a")] []]
  /\ V1.forward_html_attributes Sample.world [] [Elem "DIV" [] []]
       [("align", "left")]
     = Ok [Elem "DIV" [("align", "left")] []]
  /\ V1.forward_html_attributes Sample.world [] [Elem "constructor" [] []]
       [("href", "/a")]
     = Ok [Elem "constructor" [("href", "/a")] []]
  /\ V1.forward_html_attributes Sample.world [] [Elem "my-card" [] []]
       [("href", "/a")]
     = Ok [Elem "my-card" [] []].
Proof. repeat split; reflexivity. Qed.

(** ** Root-count validation *)

Section Validation.
Variable w : World.
Variable templates : obj string.

Lemma on_match_multiple_roots content (a : attrs) inner_html :
  1 < List.length
        (element_children
           (renderString w content (V1.variables (Some a) inner_html))) ->
  V1.on_match w templates content (Some a) inner_html
  = Throw MultipleRootsError.
Proof. intros H. unfold V1.on_match. now apply forward_multiple_roots. Qed.

Lemma transform_tag_throws doc css did seen tag template q el e :
  query w tag doc = Ok q ->
  In el (targets q doc) ->
  V1.on_match w templates (fst (matter w template)) (attr el) (inner el)
  = Throw e ->
  exists e',
    V1.transform_tag w templates (doc, css, did, seen) (tag, template)
    = Throw e'.
Proof.
  intros Hq Hin Hcb. unfold V1.transform_tag.
  destruct (matter w template) as [content data]. simpl in Hcb.
  rewrite Hq. cbn [bind].
  destruct (each_throws q (V1.on_match w templates content) doc el
              Hin Hcb) as [e' He'].
  rewrite He'. simpl. eauto.
Qed.

End Validation.

(** C2.  In the draft that forwards attributes, an occurrence
    whose rendered body has more than one top-level element makes its
    callback throw the multiple-roots error before [replaceWith]; the
    pass that meets it throws, and so does the loop, at whatever pass
    this happens: no document is returned. *)
Theorem C2_multiple_roots_abort (w : World) (templates : obj string)
  (pre post : obj string) (tag template : string)
  (n : nat) (doc doc1 doc2 : html) (seen seen1 seen2 : sset)
  (css css1 css2 : string) (did : bool) (q : selection)
  (nm : string) (a : attrs) (kids : html) :
  let el := Elem nm a kids in
  templates = pre ++ (tag, template) :: post ->
  passes (V1.transform w templates) n (doc, seen, css) (doc1, seen1, css1) ->
  foldM (V1.transform_tag w templates) pre (doc1, EmptyString, false, seen1)
  = Ok (doc2, css2, did, seen2) ->
  query w tag doc2 = Ok q ->
  In el (targets q doc2) ->
  1 < List.length
        (element_children
           (renderString w (fst (matter w template))
              (V1.variables (attr el) (inner el)))) ->
  V1.on_match w templates (fst (matter w template)) (attr el) (inner el)
  = Throw MultipleRootsError
  /\ exists e,
      V1.transform w templates doc1 seen1 = Throw e
      /\ run (V1.transform w templates) (S n) doc seen css = Some (Throw e)
      /\ forall fuel r,
          run (V1.transform w templates) fuel doc seen css = Some r ->
          r = Throw e.
Proof.
  intros el Hts Hp Hpre Hq Hin Hroots. subst templates.
  set (templates := pre ++ (tag, template) :: post) in *.
  assert (Hcb : V1.on_match w templates (fst (matter w template))
                  (attr el) (inner el) = Throw MultipleRootsError).
  { subst el. simpl in *. now apply on_match_multiple_roots. }
  split; [exact Hcb|].
  destruct (transform_tag_throws w templates doc2 css2 did seen2 tag template
              el Hq Hin Hcb) as [e He].
  exists e.
  assert (Ht : V1.transform w templates doc1 seen1 = Throw e).
  { unfold V1.transform. unfold templates at 2. rewrite foldM_app, Hpre.
    cbn [bind]. rewrite foldM_cons, He. reflexivity. }
  split; [exact Ht|].
  apply (run_throws Hp Ht).
Qed.

Lemma C2_multiple_roots_abort_witness :
  let templates := [("Pair", "PAIR")] in
  let doc := Sample.page [] [Elem "Pair" [] []] in
  V1.on_match Sample.world templates "PAIR" (Some []) (Some [])
  = Throw MultipleRootsError
  /\ exists e,
      V1.transform Sample.world templates doc [] = Throw e
      /\ run (V1.transform Sample.world templates) 1 doc [] "" = Some (Throw e)
      /\ forall fuel r,
          run (V1.transform Sample.world templates) fuel doc [] "" = Some r ->
          r = Throw e.
Proof.
  cbv zeta.
  apply (@C2_multiple_roots_abort Sample.world [("Pair", "PAIR")] []
           [] "Pair" "PAIR" 0
           (Sample.page [] [Elem "Pair" [] []])
           (Sample.page [] [Elem "Pair" [] []])
           (Sample.page [] [Elem "Pair" [] []])
           [] [] [] "" "" "" false
           (Found (fun _ n => named "Pair" n)) "Pair" [] []).
  - reflexivity.
  - constructor.
  - reflexivity.
  - reflexivity.
  - simpl. auto.
  - simpl. lia.
Defined.

(** C2 as stated fails on [src/index.ts]: its [transform] never counts
    the roots, so the occurrence is replaced by both elements and the
    document is returned. *)
Lemma C2_index_ts_no_validation :
  let pair := {| V2.tag_name := "Pair"; V2.template_content := "PAIR";
                 V2.stylesheet_path := "" |} in
  let style := Elem "style" [] [Text "p{}"] in
  List.length (element_children (Sample.renderer "PAIR" [])) = 2
  /\ V2.recursive_template_transform Sample.world [("Pair", pair)] 2
       (Sample.page [style] [Elem "Pair" [] []])
     = Some (Ok (let out :=
                   Sample.page [Elem "style" [] [Text "p{}/*  */"]]
                     [Elem "div" [("class", "left")] [];
                      Elem "div" [("class", "right")] []] in
                 {| tree := out; value_of := Some out |})).
Proof. split; reflexivity. Qed.

(** ** Absent and empty attribute mappings *)

Section Attributes_handed.
Variable callback : option attrs -> option html -> result html.

Lemma present_element (n : node) :
  is_elem n = true ->
  present callback (attr n) (inner n) = callback (attr n) (inner n).
Proof. destruct n; [discriminate|reflexivity]. Qed.

Lemma concatM_i_ext {X Y : Type} (f g : nat -> X -> result (list Y))
  (l : list X) :
  Forall (fun k => forall i, f i k = g i k) l ->
  forall i, concatM_i f i l = concatM_i g i l.
Proof.
  induction 1 as [|k l Hk _ IH]; intros i; [reflexivity|].
  rewrite !concatM_i_cons, Hk, IH. reflexivity.
Qed.

Lemma iterM_i_ext {X : Type} (f g : nat -> X -> result unit) (l : list X) :
  Forall (fun k => forall i, f i k = g i k) l ->
  forall i, iterM_i f i l = iterM_i g i l.
Proof.
  induction 1 as [|k l Hk _ IH]; intros i; [reflexivity|].
  rewrite !iterM_i_cons, Hk, IH. reflexivity.
Qed.

Lemma iterM_ext {X : Type} (f g : X -> result unit) (l : list X) :
  (forall k, In k l -> f k = g k) -> iterM f l = iterM g l.
Proof.
  induction l as [|k l IH]; intros H; [reflexivity|].
  cbn [iterM]. rewrite (H k (or_introl eq_refl)).
  destruct (g k); [|reflexivity]. cbn [bind].
  apply IH. intros x Hx. apply H. now right.
Qed.

Variable m : place -> node -> bool.

Lemma visit_detached_present (n : node) :
  forall p,
    visit_detached m callback p n = visit_detached m (present callback) p n.
Proof.
  induction n as [s|nm a kids IH] using node_induction; intros p;
    [reflexivity|].
  cbn [visit_detached]. rewrite present_element by reflexivity.
  destruct (if m p (Elem nm a kids) then _ else _); [|reflexivity].
  cbn [bind]. apply iterM_i_ext.
  eapply Forall_impl; [|exact IH]. intros k Hk i. apply Hk.
Qed.

Lemma each_node_present (n : node) :
  forall p, each_node m callback p n = each_node m (present callback) p n.
Proof.
  induction n as [s|nm a kids IH] using node_induction; intros p;
    [reflexivity|].
  cbn [each_node]. rewrite present_element by reflexivity.
  destruct (m p (Elem nm a kids)).
  - destruct (callback _ _); [|reflexivity]. cbn [bind].
    rewrite (@iterM_i_ext _ (fun i k => visit_detached m callback (i :: p) k)
               (fun i k => visit_detached m (present callback) (i :: p) k)
               kids); [reflexivity|].
    apply Forall_forall. intros k _ i. apply visit_detached_present.
  - rewrite (@concatM_i_ext _ _ (fun i k => each_node m callback (i :: p) k)
               (fun i k => each_node m (present callback) (i :: p) k)
               kids); [reflexivity|].
    eapply Forall_impl; [|exact IH]. intros k Hk i. apply Hk.
Qed.

Lemma each_found_present (doc : html) :
  each_found m callback doc = each_found m (present callback) doc.
Proof.
  apply concatM_i_ext. apply Forall_forall.
  intros k _ i. apply each_node_present.
Qed.

End Attributes_handed.

Lemma each_present (q : selection)
  (callback : option attrs -> option html -> result html) (doc : html) :
  (forall el, In el (targets q doc) -> is_elem el = true) ->
  each q callback doc = each q (present callback) doc.
Proof.
  destruct q as [m|l]; intros Hel.
  - apply each_found_present.
  - cbn [each]. cbn [targets] in Hel.
    rewrite (@iterM_ext _
               (fun n => _ <- callback (attr n) (inner n) ;; Ok tt)
               (fun n => _ <- present callback (attr n) (inner n) ;; Ok tt)
               l); [reflexivity|].
    intros k Hk. now rewrite present_element by auto.
Qed.

Section Absent_attributes.
Variable w : World.

Lemma V1_on_match_empty (templates : obj string) content inner_html :
  V1.on_match w templates content (Some []) inner_html
  = let expansion :=
      renderString w content (V1.variables (Some []) inner_html) in
    if Nat.ltb 1 (List.length (element_children expansion))
    then Throw MultipleRootsError else Ok expansion.
Proof.
  cbv zeta. unfold V1.on_match.
  destruct (Nat.ltb 1 _) eqn:E.
  - apply Nat.ltb_lt in E. now apply forward_multiple_roots.
  - apply Nat.ltb_ge in E. now apply forward_no_attribute.
Qed.

(** The tree hands the loop body the attribute object of the element,
    empty or not: on an element without attributes the forwarder runs,
    and counts the roots. *)
Lemma V1_on_match_element (templates : obj string) content tag a kids :
  V1.on_match w templates content (attr (Elem tag a kids))
    (inner (Elem tag a kids))
  = V1.forward_html_attributes w templates
      (renderString w content (V1.variables (Some a) (Some kids))) a.
Proof. reflexivity. Qed.

End Absent_attributes.

(** C9.  A matched usage element is never processed as if its attributes
    were absent.  What a selector finds are elements, and the loop body is
    handed the attribute mapping of the element, the empty one when the
    element carries no attribute: running the loop with a body gives the
    same document, or the same exception, as running it with the body that
    reads an absent mapping as the empty one.  So on an element without
    attributes [src/index.ts] renders with the content alone and replaces,
    and the draft with [forward_html_attributes] renders, calls the
    forwarder with the empty mapping, which counts the top-level elements
    of the rendering and throws when there are several, and replaces: the
    steps taken for the empty mapping. *)
Theorem C9_absent_attributes (w : World) :
  (forall q callback doc,
      (forall el, In el (targets q doc) -> is_elem el = true) ->
      each q callback doc = each q (present callback) doc)
  /\ (forall tag doc q el,
         tag_selector tag = true -> query w tag doc = Ok q ->
         In el (targets q doc) -> is_elem el = true)
  /\ (forall (t : V2.TagTemplate) nm kids,
         V2.on_match w t (attr (Elem nm [] kids)) (inner (Elem nm [] kids))
         = Ok (V2.render w t (V2.variables [] (Some kids))))
  /\ (forall templates content nm kids,
         let el := Elem nm [] kids in
         let expansion :=
           renderString w content (V1.variables (Some []) (Some kids)) in
         V1.on_match w templates content (attr el) (inner el)
         = V1.forward_html_attributes w templates expansion []
         /\ (List.length (element_children expansion) <= 1 ->
             V1.on_match w templates content (attr el) (inner el)
             = Ok expansion)
         /\ (1 < List.length (element_children expansion) ->
             V1.on_match w templates content (attr el) (inner el)
             = Throw MultipleRootsError)).
Proof.
  split; [intros q callback doc; apply each_present|].
  split.
  { intros tag doc q el Htag Hq Hin. unfold query in Hq.
    rewrite Htag in Hq. injection Hq as <-.
    eapply found_elem. exact Hin. }
  split; [reflexivity|].
  intros templates content nm kids el expansion.
  split; [reflexivity|].
  split; intros H; subst el; cbn [attr inner];
    rewrite V1_on_match_empty; cbv zeta; fold expansion.
  - apply Nat.ltb_ge in H. now rewrite H.
  - apply Nat.ltb_lt in H. now rewrite H.
Qed.

Lemma C9_absent_attributes_witness :
  let doc := [Elem "Pair" [] []] in
  let q := Found (fun _ n => named "Pair" n) in
  each q (V1.on_match Sample.world [] "WRAP") doc
  = each q (present (V1.on_match Sample.world [] "WRAP")) doc
  /\ V1.on_match Sample.world [] "WRAP" (attr (Elem "Pair" [] []))
       (inner (Elem "Pair" [] []))
     = Ok [Elem "div" [] []]
  /\ V1.on_match Sample.world [] "PAIR" (attr (Elem "Pair" [] []))
       (inner (Elem "Pair" [] []))
     = Throw MultipleRootsError.
Proof.
  cbv zeta.
  destruct (C9_absent_attributes Sample.world) as [He [Hq [_ H]]].
  split; [|split].
  - apply He. intros el Hin.
    apply (Hq "Pair" [Elem "Pair" [] []]
             (Found (fun _ n => named "Pair" n)) el); auto.
  - destruct (H [] "WRAP" "Pair" []) as [_ [Hle _]].
    apply Hle. simpl. lia.
  - destruct (H [] "PAIR" "Pair" []) as [_ [_ Hgt]].
    apply Hgt. simpl. lia.
Defined.

(** A document with an attribute-less usage of a body that renders two
    top-level elements: the pass throws. *)
Example attribute_less_usage_is_validated :
  V1.transform Sample.world [("Pair", "PAIR")]
    (Sample.page [] [Elem "Pair" [] []]) []
  = Throw MultipleRootsError.
Proof. reflexivity. Qed.

(** ** Injecting the accumulated CSS *)

Section Inject.

Lemma inject_no_style (css : string) (doc : html) :
  select_children "head" "style" doc = [] ->
  inject_css css doc
  = {| tree := append "head" [Elem "style" [] (text css)] doc;
       value_of := None |}.
Proof. intros H. unfold inject_css. now rewrite H. Qed.

Lemma filter_named_first (nm : string) (pre post : html) (x : node) :
  forallb (fun n => negb (named nm n)) pre = true ->
  named nm x = true ->
  filter (named nm) (pre ++ x :: post) = x :: filter (named nm) post.
Proof.
  intros Hpre Hx. induction pre as [|p pre IH]; simpl in *.
  - now rewrite Hx.
  - apply andb_true_iff in Hpre. destruct Hpre as [Hp Hpre].
    apply negb_true_iff in Hp. rewrite Hp. auto.
Qed.

Lemma first_map_named (nm : string) (f : html -> html) (pre post : html)
  (a : attrs) (c : html) :
  forallb (fun n => negb (named nm n)) pre = true ->
  first_map (set_html_named nm f) (pre ++ Elem nm a c :: post)
  = Some (pre ++ Elem nm a (f c) :: post).
Proof.
  intros Hpre. induction pre as [|p pre IH]; simpl in *.
  - now rewrite same_tag_refl.
  - apply andb_true_iff in Hpre. destruct Hpre as [Hp Hpre].
    apply negb_true_iff in Hp. rewrite (IH Hpre).
    destruct p as [s|nm' a' c']; simpl in *; [reflexivity|].
    now rewrite Hp.
Qed.

(** On a parsed page whose head has a style child, the text of the
    first one becomes its old text followed by the accumulated CSS, and
    the page is returned. *)
Lemma inject_existing_style (css : string) (a ha sa : attrs)
  (pre post rest : html) (sc : html) :
  forallb (fun n => negb (named "style" n)) pre = true ->
  inject_css css
    [Elem "html" a (Elem "head" ha (pre ++ Elem "style" sa sc :: post)
                      :: rest)]
  = let out :=
      [Elem "html" a
         (Elem "head" ha (pre ++ Elem "style" sa (append_text sc css) :: post)
            :: rest)] in
    {| tree := out; value_of := Some out |}.
Proof.
  intros Hpre. unfold inject_css, select_children, select.
  cbn [flat_map select_node].
  change (same_tag "html" "head") with false.
  change (same_tag "head" "head") with true.
  cbn [app flat_map].
  rewrite (filter_named_first "style" pre post (Elem "style" sa sc) Hpre
             eq_refl).
  cbn [app inner first_map set_first_child_html].
  change (same_tag "html" "head") with false.
  change (same_tag "head" "head") with true.
  cbv iota.
  now rewrite (first_map_named "style" _ pre post sa sc Hpre).
Qed.

End Inject.

(** C1.  When the head of the expanded document has no style child, both
    [recursive_template_transform] and [recursive_transform] append the
    new style element to the head of the tree they hold and then leave
    through a bare [return]: the value returned is [undefined], not the
    serialized document. *)
Theorem C1_no_style_returns_undefined (w : World) :
  (forall (templates : obj V2.TagTemplate) fuel doc doc' css seen,
      run (V2.transform w templates) fuel doc [] "" = Some (Ok (doc', css, seen)) ->
      select_children "head" "style" doc' = [] ->
      V2.recursive_template_transform w templates fuel doc
      = Some (Ok {| tree := append "head" [Elem "style" [] (text css)] doc';
                    value_of := None |}))
  /\ (forall (templates : obj string) fuel doc doc' css seen,
         run (V1.transform w templates) fuel doc [] "" = Some (Ok (doc', css, seen)) ->
         select_children "head" "style" doc' = [] ->
         V1.recursive_transform w templates fuel doc
         = Some (Ok {| tree := append "head" [Elem "style" [] (text css)] doc';
                       value_of := None |})).
Proof.
  split; intros templates fuel doc doc' css seen Hrun Hstyle.
  - unfold V2.recursive_template_transform. rewrite Hrun.
    now rewrite inject_no_style.
  - unfold V1.recursive_transform. rewrite Hrun.
    now rewrite inject_no_style.
Qed.

Lemma C1_no_style_returns_undefined_witness :
  let card := {| V2.tag_name := "Card"; V2.template_content := "CARD";
                 V2.stylesheet_path := "card.css" |} in
  V2.recursive_template_transform Sample.world [("Card", card)] 2
    (Sample.page [] [Elem "Card" [("title", "Hi")] [Text "World"]])
  = Some (Ok {| tree :=
                  Sample.page [Elem "style" [] [Text "/* card.css */"]]
                    [Elem "div" [("class", "card")]
                       [Elem "h2" [] [Text "Hi"];
                        Elem "div" [("class", "card-body")] [Text "World"]]];
                value_of := None |}).
Proof.
  cbv zeta.
  destruct (C1_no_style_returns_undefined Sample.world) as [H _].
  apply (H [("Card", {| V2.tag_name := "Card"; V2.template_content := "CARD";
                        V2.stylesheet_path := "card.css" |})]
           2 (Sample.page [] [Elem "Card" [("title", "Hi")] [Text "World"]])
           (Sample.page []
              [Elem "div" [("class", "card")]
                 [Elem "h2" [] [Text "Hi"];
                  Elem "div" [("class", "card-body")] [Text "World"]]])
           "/* card.css */" ["Card"]); reflexivity.
Defined.

(** With a style child in the head the same call returns the page, the
    accumulated CSS after the old text of that child. *)
Example recursive_template_transform_existing_style :
  let card := {| V2.tag_name := "Card"; V2.template_content := "CARD";
                 V2.stylesheet_path := "card.css" |} in
  V2.recursive_template_transform Sample.world [("Card", card)] 2
    (Sample.page [Elem "style" [] [Text "a{}"]]
       [Elem "Card" [("title", "Hi")] [Text "World"]])
  = Some (Ok (let out :=
                Sample.page [Elem "style" [] [Text "a{}/* card.css */"]]
                  [Elem "div" [("class", "card")]
                     [Elem "h2" [] [Text "Hi"];
                      Elem "div" [("class", "card-body")] [Text "World"]]] in
              {| tree := out; value_of := Some out |})).
Proof. reflexivity. Qed.

(** ** Stylesheet deduplication *)

Lemma css_text_app (chunk : string -> string) (l1 l2 : list string) :
  css_text chunk (l1 ++ l2)
  = (css_text chunk l1 ++ css_text chunk l2)%string.
Proof.
  induction l1 as [|a l1 IH]; simpl; [reflexivity|].
  now rewrite IH, append_assoc.
Qed.

(** The bookkeeping of a pass, for any loop body that appends the text of
    a tag exactly when the tag matched, emits a stylesheet and is not in
    [processed_tags] yet. *)
Section Dedup.
Variable T : Type.
Variable templates : obj T.
Variable turn :
  html * string * bool * sset -> string * T
  -> result (html * string * bool * sset).
Variable emits : string * T -> bool.
Variable used : string -> html -> bool.
Variable chunk : string -> string.

Hypothesis turn_spec :
  forall doc css did seen tag t doc' css' did' seen',
    In (tag, t) templates ->
    turn (doc, css, did, seen) (tag, t) = Ok (doc', css', did', seen') ->
    if emits (tag, t) && used tag doc && negb (sset_has seen tag)
    then seen' = seen ++ [tag] /\ css' = (css ++ chunk tag)%string
    else seen' = seen /\ css' = css.

Local Abbreviation grows := (grows chunk).

Lemma grows_refl seen css : grows seen css seen css.
Proof.
  exists []. rewrite app_nil_r. simpl. rewrite append_nil_r. auto.
Qed.

Lemma grows_trans s1 c1 s2 c2 s3 c3 :
  grows s1 c1 s2 c2 -> grows s2 c2 s3 c3 -> grows s1 c1 s3 c3.
Proof.
  intros [n1 [E1 [C1 N1]]] [n2 [E2 [C2 N2]]]. exists (n1 ++ n2).
  subst. rewrite app_assoc, css_text_app, append_assoc. auto.
Qed.

Lemma turn_grows doc css did seen tag t doc' css' did' seen' :
  In (tag, t) templates ->
  turn (doc, css, did, seen) (tag, t) = Ok (doc', css', did', seen') ->
  grows seen css seen' css'.
Proof.
  intros Hin Ht. pose proof (turn_spec Hin Ht) as H.
  destruct (emits (tag, t) && used tag doc && negb (sset_has seen tag))
    eqn:E.
  - destruct H as [-> ->]. exists [tag]. simpl. rewrite append_nil_r.
    split; [reflexivity|]. split; [reflexivity|]. intros Hnd.
    apply andb_true_iff in E. destruct E as [_ E].
    apply negb_true_iff, sset_has_not_in in E.
    apply NoDup_app; [assumption|repeat constructor; simpl; tauto|].
    intros x Hx [<-|[]]. contradiction.
  - destruct H as [-> ->]. apply grows_refl.
Qed.

Lemma fold_grows (l : obj T) doc css did seen doc' css' did' seen' :
  incl l templates ->
  foldM turn l (doc, css, did, seen) = Ok (doc', css', did', seen') ->
  grows seen css seen' css'.
Proof.
  revert doc css did seen.
  induction l as [|[tag t] l IH]; intros doc css did seen Hincl; simpl.
  - intros [= <- <- <- <-]. apply grows_refl.
  - destruct (turn (doc, css, did, seen) (tag, t))
      as [[[[d1 c1] b1] s1]|e] eqn:Et; simpl; [|discriminate].
    intros Hf. eapply grows_trans.
    + eapply turn_grows; [|exact Et]. apply Hincl. now left.
    + eapply IH; [|exact Hf]. intros x Hx. apply Hincl. now right.
Qed.

Let transform (doc : html) (seen : sset) :=
  foldM turn templates (doc, EmptyString, false, seen).

Lemma transform_grows doc seen doc' css' did' seen' :
  transform doc seen = Ok (doc', css', did', seen') ->
  forall css, grows seen css seen' (css ++ css')%string.
Proof.
  intros Ht css. apply fold_grows in Ht; [|apply incl_refl].
  destruct Ht as [new [E [C N]]]. exists new. simpl in C. subst. auto.
Qed.

Lemma run_grows fuel doc seen css doc' css' seen' :
  run transform fuel doc seen css = Some (Ok (doc', css', seen')) ->
  grows seen css seen' css'.
Proof.
  revert doc seen css. induction fuel as [|fuel IH]; intros doc seen css;
    simpl; [discriminate|].
  destruct (transform doc seen) as [[[[d1 c1] b1] s1]|e] eqn:Et;
    [|discriminate].
  pose proof (transform_grows _ _ Et css) as Hg.
  destruct b1; simpl.
  - intros Hr. eapply grows_trans; [exact Hg|]. eapply IH; eauto.
  - intros [= <- <- <-]. exact Hg.
Qed.

(** A tag that matched at its turn and emits a stylesheet is in
    [processed_tags] when the pass ends. *)
Lemma used_tag_processed (pre post : obj T) tag t doc seen
  d2 c2 b2 s2 doc' css' did' seen' :
  templates = pre ++ (tag, t) :: post ->
  foldM turn pre (doc, EmptyString, false, seen) = Ok (d2, c2, b2, s2) ->
  emits (tag, t) = true ->
  used tag d2 = true ->
  transform doc seen = Ok (doc', css', did', seen') ->
  In tag seen'.
Proof.
  intros Hts Hpre Hem Hm Ht.
  assert (Hin : In (tag, t) templates).
  { rewrite Hts. apply in_or_app. right. now left. }
  assert (Hpost : incl post templates).
  { rewrite Hts. intros x Hx. apply in_or_app. right. now right. }
  unfold transform in Ht. rewrite Hts in Ht.
  rewrite foldM_app, Hpre in Ht. cbn [bind] in Ht.
  rewrite foldM_cons in Ht.
  destruct (turn (d2, c2, b2, s2) (tag, t))
    as [[[[d3 c3] b3] s3]|e] eqn:Et; [|discriminate].
  cbn [bind] in Ht.
  assert (H3 : In tag s3).
  { pose proof (turn_spec Hin Et) as H.
    rewrite Hem, Hm in H. simpl in H.
    destruct (sset_has s2 tag) eqn:E; simpl in H.
    - destruct H as [-> _]. now apply sset_has_in.
    - destruct H as [-> _]. apply in_or_app. right. now left. }
  apply fold_grows in Ht; [|exact Hpost].
  destruct Ht as [new [-> _]]. apply in_or_app. now left.
Qed.

Lemma passes_grows n s s' :
  passes transform n s s' ->
  let '(_, seen, css) := s in
  let '(_, seen', css') := s' in
  grows seen css seen' css'.
Proof.
  induction 1 as [[[d sn] c]|n d sn c d1 c1 sn1 [[d2 sn2] c2] Ht Hp IH].
  - apply grows_refl.
  - eapply grows_trans; [|exact IH]. now apply (transform_grows _ _ Ht).
Qed.

(** The invariant holds after every pass, whether or not the loop ever
    ends. *)
Lemma passes_once n doc doc' seen css :
  passes transform n (doc, [], EmptyString) (doc', seen, css) ->
  NoDup seen /\ css = css_text chunk seen.
Proof.
  intros Hp. apply passes_grows in Hp. destruct Hp as [new [E [C N]]].
  simpl in *. subst. split; [apply N; constructor|reflexivity].
Qed.

Lemma run_once fuel doc doc' css seen :
  run transform fuel doc [] EmptyString = Some (Ok (doc', css, seen)) ->
  NoDup seen /\ css = css_text chunk seen.
Proof.
  intros Hr. apply run_grows in Hr. destruct Hr as [new [E [C N]]].
  simpl in *. subst. split; [apply N; constructor|reflexivity].
Qed.

Lemma run_used fuel n doc doc' css seen d1 s1 c1
  (pre post : obj T) tag t d2 c2 b2 s2 :
  run transform fuel doc [] EmptyString = Some (Ok (doc', css, seen)) ->
  passes transform n (doc, [], EmptyString) (d1, s1, c1) ->
  templates = pre ++ (tag, t) :: post ->
  foldM turn pre (d1, EmptyString, false, s1) = Ok (d2, c2, b2, s2) ->
  emits (tag, t) = true ->
  used tag d2 = true ->
  In tag seen.
Proof.
  intros Hr Hp Hts Hpre Hem Hm.
  assert (Hr1 : run transform fuel d1 s1 c1 = Some (Ok (doc', css, seen))).
  { rewrite <- (run_passes fuel Hp). rewrite Nat.add_comm.
    now apply run_more. }
  destruct fuel as [|fuel]; [discriminate|]. simpl in Hr1.
  destruct (transform d1 s1) as [[[[d3 c3] b3] s3]|e] eqn:Et;
    [|discriminate].
  assert (H3 : In tag s3) by (eapply used_tag_processed; eauto).
  destruct b3; simpl in Hr1.
  - apply run_grows in Hr1. destruct Hr1 as [new [-> _]].
    apply in_or_app. now left.
  - now inversion Hr1; subst.
Qed.

Lemma once_split (seen : sset) (tag : string) :
  NoDup seen -> In tag seen ->
  exists before after,
    seen = before ++ tag :: after
    /\ ~ In tag before /\ ~ In tag after
    /\ css_text chunk seen
       = (css_text chunk before ++ chunk tag ++ css_text chunk after)%string.
Proof.
  intros Hnd Hin. destruct (in_split _ _ Hin) as [before [after ->]].
  exists before, after. apply NoDup_remove_2 in Hnd.
  split; [reflexivity|]. split; [|split].
  - intros H. apply Hnd. apply in_or_app. now left.
  - intros H. apply Hnd. apply in_or_app. now right.
  - now rewrite css_text_app.
Qed.

End Dedup.

Lemma met_targets (w : World) (tag : string) (doc : html) (q : selection) :
  query w tag doc = Ok q ->
  met w tag doc = true <-> 0 < List.length (targets q doc).
Proof.
  intros Hq. unfold met, matched. rewrite Hq.
  destruct (targets q doc); simpl; split; intros H;
    try discriminate; try lia; reflexivity.
Qed.

Section Dedup_instances.
Variable w : World.

Lemma V2_turn_spec (templates : obj V2.TagTemplate) :
  NoDup (keys templates) ->
  forall doc css did seen tag t doc' css' did' seen',
    In (tag, t) templates ->
    V2.transform_tag w (doc, css, did, seen) (tag, t)
    = Ok (doc', css', did', seen') ->
    if true && met w tag doc && negb (sset_has seen tag)
    then seen' = seen ++ [tag]
         /\ css' = (css ++ V2_stylesheet_text w templates tag)%string
    else seen' = seen /\ css' = css.
Proof.
  intros Hnd doc css did seen tag t doc' css' did' seen' Hin.
  unfold V2.transform_tag, V2_stylesheet_text, met.
  rewrite (@get_in _ templates tag t Hnd Hin).
  destruct (query w tag doc) as [q|e]; simpl; [|discriminate].
  destruct (each q (V2.on_match w t) doc) as [d|e]; simpl; [|discriminate].
  destruct (matched q doc); simpl.
  - unfold sset_add. destruct (sset_has seen tag); simpl;
      intros [= <- <- <- <-]; auto.
  - intros [= <- <- <- <-]; auto.
Qed.

Lemma V1_turn_spec (templates : obj string) :
  NoDup (keys templates) ->
  forall doc css did seen tag t doc' css' did' seen',
    In (tag, t) templates ->
    V1.transform_tag w templates (doc, css, did, seen) (tag, t)
    = Ok (doc', css', did', seen') ->
    if has "stylesheet" (snd (matter w (snd (tag, t))))
       && met w tag doc && negb (sset_has seen tag)
    then seen' = seen ++ [tag]
         /\ css' = (css ++ V1_stylesheet_text w templates tag)%string
    else seen' = seen /\ css' = css.
Proof.
  intros Hnd doc css did seen tag t doc' css' did' seen' Hin.
  unfold V1.transform_tag, V1_stylesheet_text, met.
  rewrite (@get_in _ templates tag t Hnd Hin). simpl.
  destruct (matter w t) as [content data]. simpl.
  destruct (query w tag doc) as [q|e]; simpl; [|discriminate].
  destruct (each q (V1.on_match w templates content) doc) as [d|e];
    simpl; [|discriminate].
  destruct (has "stylesheet" data); simpl.
  - destruct (matched q doc); simpl.
    + unfold sset_add. destruct (sset_has seen tag); simpl;
        intros [= <- <- <- <-]; auto.
    + intros [= <- <- <- <-]; auto.
  - intros [= <- <- <- <-]; auto.
Qed.

Lemma V2_passes_once (templates : obj V2.TagTemplate) n doc doc' seen css :
  NoDup (keys templates) ->
  passes (V2.transform w templates) n (doc, [], EmptyString) (doc', seen, css) ->
  NoDup seen /\ css = css_text (V2_stylesheet_text w templates) seen.
Proof.
  intros Hnd Hp.
  exact (@passes_once _ templates (V2.transform_tag w) (fun _ => true)
           (met w) (V2_stylesheet_text w templates)
           (V2_turn_spec templates Hnd) n doc doc' seen css Hp).
Qed.

Lemma V1_passes_once (templates : obj string) n doc doc' seen css :
  NoDup (keys templates) ->
  passes (V1.transform w templates) n (doc, [], EmptyString) (doc', seen, css) ->
  NoDup seen /\ css = css_text (V1_stylesheet_text w templates) seen.
Proof.
  intros Hnd Hp.
  exact (@passes_once _ templates (V1.transform_tag w templates)
           (fun e => has "stylesheet" (snd (matter w (snd e))))
           (met w) (V1_stylesheet_text w templates)
           (V1_turn_spec templates Hnd) n doc doc' seen css Hp).
Qed.

End Dedup_instances.




(** ** Termination of the loop *)

Unset Implicit Arguments.

(** A selection that finds nothing leaves the document as it is. *)
Section Quiet_each.
Variable m : place -> node -> bool.
Variable callback : option attrs -> option html -> result html.

Lemma concatM_i_singletons (f : nat -> node -> result html)
  (kids : list node) : forall i,
  (forall j k, nth_error kids j = Some k -> f (i + j) k = Ok [k]) ->
  concatM_i f i kids = Ok kids.
Proof.
  induction kids as [|k kids IH]; intros i H; [reflexivity|].
  rewrite concatM_i_cons.
  pose proof (H 0 k eq_refl) as H0. rewrite Nat.add_0_r in H0. rewrite H0.
  cbn [bind]. rewrite IH; [reflexivity|].
  intros j k' Hn. rewrite Nat.add_succ_comm. now apply (H (S j)).
Qed.

Lemma each_node_quiet (n : node) : forall p,
  found_node m p n = [] -> each_node m callback p n = Ok [n].
Proof.
  induction n as [s|nm a kids IH] using node_induction; intros p Hs;
    [reflexivity|].
  cbn [found_node] in Hs. apply app_eq_nil in Hs. destruct Hs as [Hn Hk].
  cbn [each_node]. destruct (m p (Elem nm a kids)); [discriminate|].
  rewrite concatM_i_singletons; [reflexivity|].
  intros j k Hj. rewrite Forall_forall in IH.
  apply (IH k (nth_error_In _ _ Hj)).
  exact (@flat_map_i_nil_inv _ _ _ kids 0 Hk j k Hj).
Qed.

Lemma each_found_quiet (doc : html) :
  found m doc = [] -> each_found m callback doc = Ok doc.
Proof.
  intros H. unfold each_found. apply concatM_i_singletons.
  intros j n Hj. apply each_node_quiet.
  exact (@flat_map_i_nil_inv _ _ _ doc 0 H j n Hj).
Qed.

End Quiet_each.

Lemma each_quiet (q : selection)
  (callback : option attrs -> option html -> result html) (doc : html) :
  matched q doc = false -> each q callback doc = Ok doc.
Proof.
  unfold matched. destruct q as [m|l]; cbn [targets each].
  - destruct (found m doc) eqn:E; [|discriminate].
    intros _. now apply each_found_quiet.
  - destruct l; [reflexivity|discriminate].
Qed.

(** The selection a registered tag name makes. *)
Lemma query_tag (w : World) (tag : string) (doc : html) :
  tag_selector tag = true ->
  query w tag doc = Ok (Found (fun _ n => named tag n)).
Proof. intros H. unfold query. now rewrite H. Qed.

Section Depth_facts.
Variable names : list string.
Variable cost : string -> nat.

Local Abbreviation deep := (depth names cost).
Local Abbreviation deep_node := (depth_node names cost).
Local Abbreviation usage := (registered names).
Local Abbreviation steady := (settled names cost).
Local Abbreviation steady_node := (settled_node names cost).

Lemma depth_cons (n : node) (x : html) :
  deep (n :: x) = Nat.max (deep_node n) (deep x).
Proof. reflexivity. Qed.

Lemma depth_app (x y : html) : deep (x ++ y) = Nat.max (deep x) (deep y).
Proof. unfold depth. now rewrite map_app, list_max_app. Qed.

Lemma depth_elem nm a kids :
  deep_node (Elem nm a kids) = (if usage nm then cost nm else 0) + deep kids.
Proof. reflexivity. Qed.

Lemma depth_in (n : node) (x : html) : In n x -> deep_node n <= deep x.
Proof.
  induction x as [|k x IH]; intros []; rewrite depth_cons.
  - subst. apply Nat.le_max_l.
  - specialize (IH H). lia.
Qed.

Lemma depth_bound (x : html) (b : nat) :
  (forall n, In n x -> deep_node n <= b) -> deep x <= b.
Proof.
  induction x as [|k x IH]; intros H; [apply Nat.le_0_l|].
  rewrite depth_cons. apply Nat.max_lub.
  - apply H. now left.
  - apply IH. intros n Hn. apply H. now right.
Qed.

Lemma usage_of_key (tag nm : string) :
  In tag names -> same_tag nm tag = true -> usage nm = true.
Proof.
  intros Hin Hs. unfold registered. apply existsb_exists. eauto.
Qed.

Lemma usage_has_key (nm : string) :
  usage nm = true -> exists tag, In tag names /\ same_tag nm tag = true.
Proof. unfold registered. intros H. now apply existsb_exists in H. Qed.

Lemma settled_app (done : list string) (b : nat) (x y : html) :
  steady done b (x ++ y) = steady done b x && steady done b y.
Proof. apply forallb_app. Qed.

(** A fragment strictly within the depth is settled, whatever the turns
    that are over. *)
Lemma settled_node_shallow (done : list string) (b : nat) (n : node) :
  deep_node n + 1 <= b -> steady_node done b n = true.
Proof.
  induction n as [s|nm a kids IH] using node_induction; intros H;
    [reflexivity|].
  rewrite depth_elem in H. cbn [settled_node].
  destruct (usage nm).
  - apply Nat.leb_le. fold (deep kids).
    destruct (existsb _ done); lia.
  - apply forallb_forall. intros k Hk. rewrite Forall_forall in IH.
    apply (IH k Hk). pose proof (depth_in k kids Hk). lia.
Qed.

Lemma settled_shallow (done : list string) (b : nat) (x : html) :
  deep x + 1 <= b -> steady done b x = true.
Proof.
  intros H. apply forallb_forall. intros n Hn.
  apply settled_node_shallow. pose proof (depth_in n x Hn). lia.
Qed.

(** Before the first turn every document is settled within its depth. *)
Lemma settled_node_start (b : nat) (n : node) :
  deep_node n <= b -> steady_node [] b n = true.
Proof.
  induction n as [s|nm a kids IH] using node_induction; intros H;
    [reflexivity|].
  rewrite depth_elem in H. cbn [settled_node existsb].
  destruct (usage nm).
  - apply Nat.leb_le. fold (deep kids). lia.
  - apply forallb_forall. intros k Hk. rewrite Forall_forall in IH.
    apply (IH k Hk). pose proof (depth_in k kids Hk). lia.
Qed.

Lemma settled_start (x : html) : steady [] (deep x) x = true.
Proof.
  apply forallb_forall. intros n Hn. apply settled_node_start.
  now apply depth_in.
Qed.

(** Once every name had its turn, a settled document is strictly within
    the depth. *)
Lemma settled_node_end (done : list string) (b : nat) (n : node) :
  (forall nm,
      usage nm = true -> existsb (fun k => same_tag nm k) done = true) ->
  steady_node done b n = true -> deep_node n <= b - 1.
Proof.
  intros Hdone.
  induction n as [s|nm a kids IH] using node_induction; intros H;
    [apply Nat.le_0_l|].
  rewrite depth_elem. cbn [settled_node] in H.
  destruct (usage nm) eqn:E.
  - rewrite (Hdone nm E) in H. apply Nat.leb_le in H.
    fold (deep kids) in H. lia.
  - rewrite Nat.add_0_l. apply depth_bound. intros k Hk.
    rewrite Forall_forall in IH. apply (IH k Hk).
    rewrite forallb_forall in H. now apply H.
Qed.

Lemma settled_end (done : list string) (b : nat) (x : html) :
  (forall nm,
      usage nm = true -> existsb (fun k => same_tag nm k) done = true) ->
  steady done b x = true -> deep x <= b - 1.
Proof.
  intros Hdone H. apply depth_bound. intros n Hn.
  apply (settled_node_end done b n Hdone).
  unfold settled in H. rewrite forallb_forall in H. now apply H.
Qed.

(** A document of depth zero holds no usage. *)
Lemma found_node_depth (tag : string) (n : node) :
  In tag names ->
  (forall nm, usage nm = true -> 1 <= cost nm) ->
  forall p, deep_node n = 0 -> found_node (fun _ k => named tag k) p n = [].
Proof.
  intros Hin Hpos.
  induction n as [s|nm a kids IH] using node_induction; intros p H;
    [reflexivity|].
  rewrite depth_elem in H. cbn [found_node named].
  destruct (same_tag nm tag) eqn:E.
  - rewrite (usage_of_key tag nm Hin E) in H.
    pose proof (Hpos nm (usage_of_key tag nm Hin E)). lia.
  - cbn [app]. apply flat_map_i_nil. intros j k Hj.
    rewrite Forall_forall in IH. apply (IH k (nth_error_In _ _ Hj)).
    pose proof (depth_in k kids (nth_error_In _ _ Hj)). lia.
Qed.

Lemma found_depth (tag : string) (x : html) :
  In tag names ->
  (forall nm, usage nm = true -> 1 <= cost nm) ->
  deep x = 0 -> found (fun _ k => named tag k) x = [].
Proof.
  intros Hin Hpos H. apply flat_map_i_nil. intros j n Hj.
  apply found_node_depth; auto.
  pose proof (depth_in n x (nth_error_In _ _ Hj)). lia.
Qed.

End Depth_facts.

(** What the turn of a tag does to the depth: for a loop body whose
    expansions are less deep than the usages they replace. *)
Section Turn_depth.
Variable names : list string.
Variable cost : string -> nat.
Variable tag : string.
Variable callback : option attrs -> option html -> result html.

Local Abbreviation deep := (depth names cost).
Local Abbreviation deep_node := (depth_node names cost).
Local Abbreviation usage := (registered names).
Local Abbreviation steady := (settled names cost).
Local Abbreviation steady_node := (settled_node names cost).
Local Abbreviation m := (fun (_ : place) (k : node) => named tag k).

Hypothesis tag_in : In tag names.
Hypothesis shrinks :
  forall nm a kids expansion,
    same_tag nm tag = true ->
    callback (Some a) (Some kids) = Ok expansion ->
    deep expansion < cost nm + deep kids.

Lemma each_kids_depth (kids : list node) :
  Forall (fun k => forall p out,
            each_node m callback p k = Ok out -> deep out <= deep_node k)
    kids ->
  forall p i out,
    concatM_i (fun i k => each_node m callback (i :: p) k) i kids = Ok out ->
    deep out <= deep kids.
Proof.
  induction 1 as [|k kids Hk _ IH]; intros p i out.
  - intros [= <-]. apply Nat.le_refl.
  - rewrite concatM_i_cons.
    destruct (each_node m callback (i :: p) k) as [x|e] eqn:Ex;
      [|discriminate].
    cbn [bind].
    destruct (concatM_i _ (S i) kids) as [y|e] eqn:Ey; [|discriminate].
    cbn [bind]. intros [= <-].
    rewrite depth_app, depth_cons.
    pose proof (Hk _ _ Ex). pose proof (IH _ _ _ Ey). lia.
Qed.

Lemma each_node_depth (n : node) : forall p out,
  each_node m callback p n = Ok out -> deep out <= deep_node n.
Proof using tag_in shrinks.
  induction n as [s|nm a kids IH] using node_induction; intros p out.
  - intros [= <-]. apply Nat.le_refl.
  - cbn [each_node named attr inner]. rewrite depth_elem.
    destruct (same_tag nm tag) eqn:E.
    + destruct (callback (Some a) (Some kids)) as [x|e] eqn:Ex;
        [|discriminate].
      cbn [bind]. destruct (iterM_i _ 0 kids); [|discriminate].
      cbn [bind]. intros [= <-].
      rewrite (usage_of_key names tag nm tag_in E).
      pose proof (shrinks nm a kids x E Ex). lia.
    + destruct (concatM_i _ 0 kids) as [kids'|e] eqn:Ek; [|discriminate].
      cbn [bind]. intros [= <-].
      pose proof (each_kids_depth kids IH p 0 kids' Ek).
      rewrite depth_cons, depth_elem. change (deep []) with 0.
      rewrite Nat.max_0_r. lia.
Qed.

Lemma each_found_depth (doc out : html) :
  each_found m callback doc = Ok out -> deep out <= deep doc.
Proof using tag_in shrinks.
  apply (each_kids_depth doc).
  apply Forall_forall. intros n _. apply each_node_depth.
Qed.

Lemma each_kids_settled (done : list string) (b : nat) (kids : list node) :
  Forall (fun k => forall p out,
            steady_node done b k = true ->
            each_node m callback p k = Ok out ->
            steady (tag :: done) b out = true) kids ->
  forall p i out,
    forallb (steady_node done b) kids = true ->
    concatM_i (fun i k => each_node m callback (i :: p) k) i kids = Ok out ->
    steady (tag :: done) b out = true.
Proof.
  induction 1 as [|k kids Hk _ IH]; intros p i out Hs.
  - intros [= <-]. reflexivity.
  - cbn [forallb] in Hs. apply andb_true_iff in Hs. destruct Hs as [Hs1 Hs2].
    rewrite concatM_i_cons.
    destruct (each_node m callback (i :: p) k) as [x|e] eqn:Ex;
      [|discriminate].
    cbn [bind].
    destruct (concatM_i _ (S i) kids) as [y|e] eqn:Ey; [|discriminate].
    cbn [bind]. intros [= <-].
    rewrite settled_app, (Hk _ _ Hs1 Ex), (IH _ _ _ Hs2 Ey). reflexivity.
Qed.

Lemma each_node_settled (done : list string) (b : nat) (n : node) :
  forall p out,
    steady_node done b n = true ->
    each_node m callback p n = Ok out ->
    steady (tag :: done) b out = true.
Proof using tag_in shrinks.
  induction n as [s|nm a kids IH] using node_induction; intros p out Hs.
  - intros [= <-]. reflexivity.
  - cbn [each_node named attr inner]. cbn [settled_node] in Hs.
    destruct (same_tag nm tag) eqn:E.
    + rewrite (usage_of_key names tag nm tag_in E) in Hs.
      apply Nat.leb_le in Hs. fold (deep kids) in Hs.
      destruct (callback (Some a) (Some kids)) as [x|e] eqn:Ex;
        [|discriminate].
      cbn [bind]. destruct (iterM_i _ 0 kids); [|discriminate].
      cbn [bind]. intros [= <-].
      apply settled_shallow.
      pose proof (shrinks nm a kids x E Ex). lia.
    + destruct (concatM_i _ 0 kids) as [kids'|e] eqn:Ek; [|discriminate].
      cbn [bind]. intros [= <-].
      unfold settled. cbn [forallb settled_node existsb].
      rewrite E, andb_true_r. cbn [orb].
      destruct (usage nm).
      * apply Nat.leb_le in Hs. apply Nat.leb_le.
        fold (deep kids) in Hs. fold (deep kids').
        pose proof (each_kids_depth kids
                      (proj2 (Forall_forall _ _)
                         (fun k _ => each_node_depth k)) p 0 kids' Ek).
        lia.
      * exact (each_kids_settled done b kids IH p 0 kids' Hs Ek).
Qed.

Lemma each_found_settled (done : list string) (b : nat) (doc out : html) :
  steady done b doc = true ->
  each_found m callback doc = Ok out ->
  steady (tag :: done) b out = true.
Proof using tag_in shrinks.
  intros Hs. apply (each_kids_settled done b doc); [|exact Hs].
  apply Forall_forall. intros n _. apply each_node_settled.
Qed.

End Turn_depth.

(** A pass takes one off the depth: for any loop body that replaces the
    usages of each registered tag in turn and raises the flag when there
    was one. *)
Section Pass_depth.
Variable T : Type.
Variable templates : obj T.
Variable turn :
  html * string * bool * sset -> string * T
  -> result (html * string * bool * sset).
Variable callback_of : string * T -> option attrs -> option html -> result html.
Variable cost : string -> nat.

Local Abbreviation names := (keys templates).
Local Abbreviation deep := (depth names cost).
Local Abbreviation usage := (registered names).
Local Abbreviation steady := (settled names cost).

Hypothesis turn_doc :
  forall doc css did seen tag t,
    In (tag, t) templates ->
    let q := Found (fun _ n => named tag n) in
    match each q (callback_of (tag, t)) doc with
    | Throw e => turn (doc, css, did, seen) (tag, t) = Throw e
    | Ok doc' =>
        exists css' seen',
          turn (doc, css, did, seen) (tag, t)
          = Ok (doc', css', did || matched q doc, seen')
    end.

Hypothesis shrinks_all :
  forall tag t nm a kids expansion,
    In (tag, t) templates ->
    same_tag nm tag = true ->
    callback_of (tag, t) (Some a) (Some kids) = Ok expansion ->
    deep expansion < cost nm + deep kids.

Hypothesis cost_pos : forall nm, usage nm = true -> 1 <= cost nm.

Lemma in_names tag t : In (tag, t) templates -> In tag names.
Proof. intros H. apply (in_map fst) in H. exact H. Qed.

Lemma fold_settled (l : obj T) : forall done b doc css did seen
  doc' css' did' seen',
  incl l templates ->
  steady done b doc = true ->
  foldM turn l (doc, css, did, seen) = Ok (doc', css', did', seen') ->
  steady (rev (keys l) ++ done) b doc' = true.
Proof using turn_doc shrinks_all.
  induction l as [|[tag t] l IH];
    intros done b doc css did seen doc' css' did' seen' Hincl Hs.
  - intros [= <- <- <- <-]. exact Hs.
  - rewrite foldM_cons.
    assert (Hin : In (tag, t) templates) by (apply Hincl; now left).
    pose proof (turn_doc doc css did seen tag t Hin) as Hdoc.
    cbv zeta in Hdoc. cbn [each] in Hdoc.
    destruct (each_found (fun _ n => named tag n) (callback_of (tag, t)) doc)
      as [d1|e] eqn:Ee.
    + destruct Hdoc as [c1 [s1 Hdoc]]. rewrite Hdoc. cbn [bind].
      intros Hf. cbn [keys map rev fst].
      rewrite <- app_assoc. cbn [app].
      eapply (IH (tag :: done));
        [intros x Hx; apply Hincl; now right| |exact Hf].
      apply (each_found_settled names cost tag (callback_of (tag, t))
               (in_names tag t Hin)
               (fun nm a kids x => shrinks_all tag t nm a kids x Hin)
               done b doc d1 Hs Ee).
    + rewrite Hdoc. discriminate.
Qed.

Lemma fold_flat (l : obj T) : forall doc css did seen doc' css' did' seen',
  incl l templates ->
  deep doc = 0 ->
  foldM turn l (doc, css, did, seen) = Ok (doc', css', did', seen') ->
  did' = did.
Proof using turn_doc cost_pos.
  induction l as [|[tag t] l IH];
    intros doc css did seen doc' css' did' seen' Hincl Hd.
  - now intros [= _ _ <- _].
  - rewrite foldM_cons.
    assert (Hin : In (tag, t) templates) by (apply Hincl; now left).
    pose proof (turn_doc doc css did seen tag t Hin) as Hdoc.
    cbv zeta in Hdoc.
    assert (Hq : found (fun _ n => named tag n) doc = []).
    { apply (found_depth names cost tag doc (in_names tag t Hin) cost_pos Hd). }
    assert (Hm : matched (Found (fun _ n => named tag n)) doc = false).
    { unfold matched. cbn [targets]. now rewrite Hq. }
    rewrite (each_quiet _ (callback_of (tag, t)) doc Hm) in Hdoc.
    destruct Hdoc as [c1 [s1 Hdoc]]. rewrite Hdoc, Hm, orb_false_r.
    cbn [bind]. apply IH; [intros x Hx; apply Hincl; now right|exact Hd].
Qed.

Let transform (doc : html) (seen : sset) :=
  foldM turn templates (doc, EmptyString, false, seen).

Lemma names_done (nm : string) :
  usage nm = true ->
  existsb (fun k => same_tag nm k) (rev names ++ []) = true.
Proof.
  unfold registered. intros H. apply existsb_exists in H.
  destruct H as [k [Hk Hs]]. apply existsb_exists. exists k.
  split; [|exact Hs]. rewrite app_nil_r. now apply -> in_rev.
Qed.

Lemma pass_depth doc seen doc' css' did' seen' :
  transform doc seen = Ok (doc', css', did', seen') ->
  deep doc' <= deep doc - 1 /\ (deep doc = 0 -> did' = false).
Proof using turn_doc shrinks_all cost_pos.
  intros Ht. split.
  - apply (settled_end names cost (rev names ++ []) (deep doc) doc' names_done).
    apply (fold_settled templates [] (deep doc) doc EmptyString false seen
             doc' css' did' seen' (incl_refl _)
             (settled_start names cost doc) Ht).
  - intros Hd.
    apply (fold_flat templates doc EmptyString false seen doc' css' did' seen'
             (incl_refl _) Hd Ht).
Qed.

(** The loop ends within [depth + 1] calls of [transform]. *)
Lemma run_terminates_within (d : nat) : forall doc seen css,
  deep doc <= d -> exists r, run transform (d + 1) doc seen css = Some r.
Proof using turn_doc shrinks_all cost_pos.
  induction d as [|d IH]; intros doc seen css Hd.
  - cbn [Nat.add run].
    destruct (transform doc seen) as [[[[d1 c1] b1] s1]|e] eqn:Et; [|eauto].
    destruct (pass_depth _ _ _ _ _ _ Et) as [_ Hflag].
    rewrite Hflag by lia. cbn [negb]. eauto.
  - cbn [Nat.add run].
    destruct (transform doc seen) as [[[[d1 c1] b1] s1]|e] eqn:Et; [|eauto].
    destruct (pass_depth _ _ _ _ _ _ Et) as [Hdepth _].
    destruct b1; cbn [negb]; [|eauto].
    apply IH. lia.
Qed.

Lemma run_terminates doc seen css :
  exists r, run transform (deep doc + 1) doc seen css = Some r.
Proof using turn_doc shrinks_all cost_pos.
  apply run_terminates_within. apply Nat.le_refl.
Qed.

End Pass_depth.

Section Termination_instances.
Variable w : World.
Variable cost : string -> nat.

Lemma V2_turn_doc (templates : obj V2.TagTemplate) :
  forallb tag_selector (keys templates) = true ->
  forall doc css did seen tag t,
    In (tag, t) templates ->
    let q := Found (fun _ n => named tag n) in
    match each q (V2.on_match w (snd (tag, t))) doc with
    | Throw e => V2.transform_tag w (doc, css, did, seen) (tag, t) = Throw e
    | Ok doc' =>
        exists css' seen',
          V2.transform_tag w (doc, css, did, seen) (tag, t)
          = Ok (doc', css', did || matched q doc, seen')
    end.
Proof.
  intros Hsel doc css did seen tag t Hin q.
  assert (Ht : tag_selector tag = true).
  { rewrite forallb_forall in Hsel. apply Hsel.
    apply (in_map fst) in Hin. exact Hin. }
  unfold V2.transform_tag. rewrite (query_tag w tag doc Ht). cbn [bind snd].
  fold q. destruct (each q (V2.on_match w t) doc); cbn [bind]; [|reflexivity].
  destruct (matched q doc); cbn [negb]; [|eauto].
  destruct (sset_has seen tag); eauto.
Qed.

Lemma V1_turn_doc (templates : obj string) :
  forallb tag_selector (keys templates) = true ->
  forall doc css did seen tag t,
    In (tag, t) templates ->
    let q := Found (fun _ n => named tag n) in
    match each q (V1.on_match w templates (fst (matter w (snd (tag, t)))))
            doc with
    | Throw e =>
        V1.transform_tag w templates (doc, css, did, seen) (tag, t) = Throw e
    | Ok doc' =>
        exists css' seen',
          V1.transform_tag w templates (doc, css, did, seen) (tag, t)
          = Ok (doc', css', did || matched q doc, seen')
    end.
Proof.
  intros Hsel doc css did seen tag t Hin q.
  assert (Ht : tag_selector tag = true).
  { rewrite forallb_forall in Hsel. apply Hsel.
    apply (in_map fst) in Hin. exact Hin. }
  unfold V1.transform_tag. cbn [snd].
  destruct (matter w t) as [content data]. cbn [fst].
  rewrite (query_tag w tag doc Ht). cbn [bind]. fold q.
  destruct (each q (V1.on_match w templates content) doc); cbn [bind];
    [|reflexivity].
  destruct (negb (has "stylesheet" data)); [eauto|].
  destruct (matched q doc); cbn [negb]; [|eauto].
  destruct (sset_has seen tag); eauto.
Qed.

(** The forwarder writes attributes only: it leaves the depth alone. *)
Lemma replace_top_depth (names : list string) (h : html) name ra ra' kids :
  forall r,
    element_children h = Elem name ra kids :: r ->
    depth names cost (replace_top (Elem name ra' kids) h)
    = depth names cost h.
Proof.
  induction h as [|n h IH]; intros r; [discriminate|].
  cbn [element_children filter replace_top].
  destruct (is_elem n) eqn:E.
  - intros [= -> _]. reflexivity.
  - intros H. rewrite !depth_cons. f_equal. exact (IH r H).
Qed.

Lemma forward_depth (names : list string) (templates : obj string)
  (h : html) (a : attrs) (out : html) :
  V1.forward_html_attributes w templates h a = Ok out ->
  depth names cost out = depth names cost h.
Proof.
  unfold V1.forward_html_attributes.
  destruct (Nat.ltb 1 (List.length (element_children h))) eqn:E;
    [discriminate|].
  apply Nat.ltb_ge in E.
  destruct (element_children h) as [|top r] eqn:Hroot.
  - cbn [index Z.ltb Z.compare Z.to_nat nth_error].
    destruct a as [|[attr value] a]; [|discriminate].
    cbn [foldM bind]. now intros [= <-].
  - destruct r; [|simpl in E; lia].
    assert (Ht : is_elem top = true).
    { assert (Hin : In top (element_children h))
        by (rewrite Hroot; now left).
      apply filter_In in Hin. tauto. }
    destruct top as [s|name ra kids]; [discriminate|].
    cbn [index Z.ltb Z.compare Z.to_nat nth_error].
    destruct (forward_loop w templates a name ra kids) as [ra' [F _]].
    rewrite F. cbn [bind]. intros [= <-].
    exact (replace_top_depth names h name ra ra' kids [] Hroot).
Qed.

Lemma V2_cost_pos (templates : obj V2.TagTemplate) :
  V2_acyclic w templates cost ->
  forall nm, registered (keys templates) nm = true -> 1 <= cost nm.
Proof.
  intros Hac nm Hnm.
  destruct (usage_has_key (keys templates) nm Hnm) as [tag [Hin Hs]].
  apply in_map_iff in Hin. destruct Hin as [[tag' t] [E Hin]].
  cbn [fst] in E. subst tag'.
  pose proof (Hac tag t nm [] [] Hin Hs) as H.
  change (depth (keys templates) cost []) with 0 in H. lia.
Qed.

Lemma V1_cost_pos (templates : obj string) :
  V1_acyclic w templates cost ->
  forall nm, registered (keys templates) nm = true -> 1 <= cost nm.
Proof.
  intros Hac nm Hnm.
  destruct (usage_has_key (keys templates) nm Hnm) as [tag [Hin Hs]].
  apply in_map_iff in Hin. destruct Hin as [[tag' t] [E Hin]].
  cbn [fst] in E. subst tag'.
  pose proof (Hac tag t nm [] [] Hin Hs) as H.
  change (depth (keys templates) cost []) with 0 in H. lia.
Qed.

End Termination_instances.


Lemma V2_variables_content (a : attrs) (inner_html : option html) :
  get (V2.variables a inner_html) "content" = Some (VHtml inner_html).
Proof.
  unfold V2.variables.
  rewrite get_set_other by discriminate. apply get_set_same.
Qed.

Lemma sample_nesting_acyclic :
  V2_acyclic Sample.world sample_nesting sample_cost.
Proof.
  unfold V2_acyclic. intros tag t nm a kids Hin Hs.
  assert (Hc : Sample.var_html (V2.variables a (Some kids)) "content" = kids).
  { unfold Sample.var_html. now rewrite V2_variables_content. }
  destruct Hin as [[= <- <-]|[[= <- <-]|[]]].
  - assert (Hcost : 1 <= sample_cost nm).
    { unfold sample_cost. rewrite Hs. destruct (same_tag nm "outer"); lia. }
    unfold V2.render. cbn [V2.template_content].
    change (renderString Sample.world "WRAP" (V2.variables a (Some kids)))
      with [Elem "div" []
              (Sample.var_html (V2.variables a (Some kids)) "content")].
    rewrite Hc. rewrite depth_cons, depth_elem.
    change (registered (keys sample_nesting) "div") with false.
    change (depth (keys sample_nesting) sample_cost []) with 0.
    cbv iota. lia.
  - assert (Hcost : sample_cost nm = 2).
    { unfold sample_cost. now rewrite Hs. }
    unfold V2.render. cbn [V2.template_content].
    change (renderString Sample.world "OUTER" (V2.variables a (Some kids)))
      with [Elem "section" []
              [Elem "inner" []
                 (Sample.var_html (V2.variables a (Some kids)) "content")]].
    rewrite Hc. rewrite depth_cons, depth_elem, depth_cons, depth_elem.
    change (registered (keys sample_nesting) "section") with false.
    change (registered (keys sample_nesting) "inner") with true.
    change (sample_cost "inner") with 1.
    change (depth (keys sample_nesting) sample_cost []) with 0.
    cbv iota. lia.
Qed.


(** [outer] is expanded in the first pass, the [inner] it brings in the
    second, and the third finds nothing to rewrite; an [inner] in the
    content of the [outer] is expanded in the first pass too. *)
Example three_passes_for_depth_two :
  let doc := Sample.page [] [Elem "outer" [] [Text "x"]] in
  let nest := Sample.page [] [Elem "outer" [] [Elem "inner" [] [Text "x"]]] in
  depth (keys sample_nesting) sample_cost doc = 2
  /\ V2.recursive_template_transform Sample.world sample_nesting 2 doc = None
  /\ V2.recursive_template_transform Sample.world sample_nesting 3 doc
     = Some (Ok {| tree :=
                     Sample.page [Elem "style" [] [Text "/*  *//*  */"]]
                       [Elem "section" [] [Elem "div" [] [Text "x"]]];
                   value_of := None |})
  /\ depth (keys sample_nesting) sample_cost nest = 3
  /\ exists r,
      V2.recursive_template_transform Sample.world sample_nesting 3 nest
      = Some (Ok r).
Proof.
  cbv zeta. split; [reflexivity|]. split; [reflexivity|].
  split; [reflexivity|]. split; [reflexivity|]. eexists. reflexivity.
Qed.

(** The bound is met: a tag used inside its own content costs a pass for
    each level of nesting, and one more to see that nothing is left. *)
Example self_nesting_meets_the_bound :
  let doc := Sample.page [Elem "style" [] []]
               [Elem "w" [] [Elem "W" [] [Elem "w" [] []]]] in
  depth (keys sample_wrap) (fun _ => 1) doc = 3
  /\ V2.recursive_template_transform Sample.world sample_wrap 3 doc = None
  /\ exists r,
      V2.recursive_template_transform Sample.world sample_wrap 4 doc
      = Some (Ok r).
Proof.
  cbv zeta. split; [reflexivity|]. split; [reflexivity|].
  eexists. reflexivity.
Qed.

(** A template that brings its own tag has no costs: the loop of
    [src/index.ts] is still running after any number of passes on a
    usage of it. *)
Example self_expansion_is_a_cycle :
  let again := [("again", {| V2.tag_name := "again";
                             V2.template_content := "AGAIN";
                             V2.stylesheet_path := "" |})] in
  (forall cost, ~ V2_acyclic Sample.world again cost)
  /\ V2.recursive_template_transform Sample.world again 50
       (Sample.page [] [Elem "again" [] []]) = None.
Proof.
  cbv zeta. split.
  - intros cost Hac.
    pose proof (Hac "again" _ "again" [] [] (or_introl eq_refl) eq_refl) as H.
    unfold V2.render in H. cbn [V2.template_content] in H.
    change (renderString Sample.world "AGAIN" (V2.variables [] (Some [])))
      with [Elem "again" [] []] in H.
    rewrite depth_cons, depth_elem in H.
    unfold registered in H. cbn [keys map fst existsb] in H.
    rewrite same_tag_refl in H. cbn [orb] in H.
    change (depth ["again"] cost []) with 0 in H. lia.
  - reflexivity.
Qed.

(** ** Strings of the code, evaluated *)

Example split_spaces : split " " "btn  primary" = ["btn"; ""; "primary"].
Proof. reflexivity. Qed.

Example split_empty : split "." "" = [""].
Proof. reflexivity. Qed.

Example endsWith_njk :
  endsWith ".njk" "button.njk" = true /\ endsWith ".njk" "njk" = false.
Proof. split; reflexivity. Qed.

Example negative_index : index (split "/" "templates/button.njk") (-1) = None.
Proof. reflexivity. Qed.

(* ================================================================== *)
(** * Part III: further properties of the code                         *)
(* ================================================================== *)

(** ** Token lists, file stems and suffixes *)

Lemma split_whole (c : ascii) (s : string) :
  has_char c s = false -> split c s = [s].
Proof.
  induction s as [|a r IH]; simpl; [reflexivity|].
  intros H. apply orb_false_iff in H. destruct H as [Ha Hr].
  rewrite Ha, (IH Hr). reflexivity.
Qed.

Lemma hd_split_no_separator (c : ascii) (s : string) :
  has_char c (hd EmptyString (split c s)) = false.
Proof.
  induction s as [|a r IH]; simpl; [reflexivity|].
  destruct (Ascii.eqb a c) eqn:E; [reflexivity|].
  pose proof (split_not_nil c r) as Hn.
  destruct (split c r) as [|w ws]; [congruence|].
  simpl in *. now rewrite E, IH.
Qed.

Lemma hd_split_prefix (c : ascii) (a b : string) :
  has_char c a = false ->
  hd EmptyString (split c (a ++ String c b)) = a.
Proof.
  induction a as [|x a IH]; simpl.
  - intros _. now rewrite Ascii.eqb_refl.
  - intros H. apply orb_false_iff in H. destruct H as [Hx Ha].
    rewrite Hx. specialize (IH Ha).
    pose proof (split_not_nil c (a ++ String c b)) as Hn.
    destruct (split c (a ++ String c b)) as [|w ws]; [congruence|].
    simpl in *. now rewrite IH.
Qed.



(** X2.  The inferred tag name [filename.split(".")[0]] never holds a dot;
    it is the whole file name when the name has no dot, and what precedes
    the first dot otherwise, so [card.min.njk] and [card.njk] infer the
    same name. *)
Theorem X2_file_stem :
  (forall filename, has_char "." (V1.file_stem filename) = false)
  /\ (forall filename,
         has_char "." filename = false -> V1.file_stem filename = filename)
  /\ (forall stem rest,
         has_char "." stem = false ->
         V1.file_stem (stem ++ "." ++ rest) = stem).
Proof.
  unfold V1.file_stem. split; [|split].
  - intros filename. apply hd_split_no_separator.
  - intros filename H. now rewrite (split_whole _ _ H).
  - intros stem rest H. now apply hd_split_prefix.
Qed.

Lemma X2_file_stem_witness :
  V1.file_stem "Makefile" = "Makefile"
  /\ V1.file_stem ("card" ++ "." ++ "min.njk") = "card".
Proof.
  destruct X2_file_stem as [_ [H1 H2]]. split.
  - apply H1. reflexivity.
  - apply H2. reflexivity.
Defined.

Lemma length_append (a b : string) :
  String.length (a ++ b) = String.length a + String.length b.
Proof. induction a; simpl; congruence. Qed.

Lemma substring_whole (s : string) : substring 0 (String.length s) s = s.
Proof. induction s; simpl; congruence. Qed.

Lemma substring_skip (p s : string) (m : nat) :
  substring (String.length p) m (p ++ s) = substring 0 m s.
Proof. induction p; simpl; auto. Qed.

(** [(p + suffix).endsWith(suffix)] *)
Lemma endsWith_append (suffix p : string) :
  endsWith suffix (p ++ suffix) = true.
Proof.
  unfold endsWith. rewrite length_append.
  replace (String.length p + String.length suffix - String.length suffix)
    with (String.length p) by lia.
  rewrite substring_skip, substring_whole, String.eqb_refl.
  rewrite andb_true_r. apply Nat.leb_le. lia.
Qed.

(** X3.  The transform [eleventyPlugin] registers hands back untouched,
    and without running the loop, any content whose output path does not
    end in [.html]; for a path [p.html] it returns what
    [recursive_template_transform] returns, so a page whose expanded
    document has no style element in its head comes back as
    [undefined].  The same holds in the draft with
    [recursive_transform]. *)
Theorem X3_plugin_transform (w : World) :
  (forall (templates : obj V2.TagTemplate) fuel content outputPath,
      endsWith ".html" outputPath = false ->
      V2.eleventyPlugin_transform w templates fuel content outputPath
      = Some (Ok (Some content)))
  /\ (forall (templates : obj V2.TagTemplate) fuel content p doc' css seen,
         run (V2.transform w templates) fuel content [] ""
         = Some (Ok (doc', css, seen)) ->
         select_children "head" "style" doc' = [] ->
         V2.eleventyPlugin_transform w templates fuel content (p ++ ".html")
         = Some (Ok None))
  /\ (forall (templates : obj string) fuel content outputPath,
         endsWith ".html" outputPath = false ->
         V1.eleventyPlugin_transform w templates fuel content outputPath
         = Some (Ok (Some content)))
  /\ (forall (templates : obj string) fuel content p doc' css seen,
         run (V1.transform w templates) fuel content [] ""
         = Some (Ok (doc', css, seen)) ->
         select_children "head" "style" doc' = [] ->
         V1.eleventyPlugin_transform w templates fuel content (p ++ ".html")
         = Some (Ok None)).
Proof.
  split; [|split; [|split]].
  - intros templates fuel content outputPath H.
    unfold V2.eleventyPlugin_transform. now rewrite H.
  - intros templates fuel content p doc' css seen Hrun Hstyle.
    unfold V2.eleventyPlugin_transform, V2.recursive_template_transform.
    rewrite endsWith_append, Hrun. simpl.
    now rewrite inject_no_style by assumption.
  - intros templates fuel content outputPath H.
    unfold V1.eleventyPlugin_transform. now rewrite H.
  - intros templates fuel content p doc' css seen Hrun Hstyle.
    unfold V1.eleventyPlugin_transform, V1.recursive_transform.
    rewrite endsWith_append, Hrun. simpl.
    now rewrite inject_no_style by assumption.
Qed.

Lemma X3_plugin_transform_witness :
  V2.eleventyPlugin_transform Sample.world sample_wrap 0
    [Elem "w" [] []] "feed.xml"
  = Some (Ok (Some [Elem "w" [] []]))
  /\ V2.eleventyPlugin_transform Sample.world sample_wrap 2
       (Sample.page [] [Elem "w" [] []]) ("index" ++ ".html")
     = Some (Ok None).
Proof.
  destruct (X3_plugin_transform Sample.world) as [H1 [H2 _]]. split.
  - apply H1. reflexivity.
  - apply (H2 sample_wrap 2 (Sample.page [] [Elem "w" [] []]) "index"
             (Sample.page [] [Elem "div" [] []]) "/*  */" ["w"]);
      reflexivity.
Defined.

(** ** What the forwarder writes and what it keeps *)

Section Forwarder_writes.
Variable w : World.
Variable templates : obj string.

Lemma has_set {V : Type} (o : obj V) (k k' : string) (v : V) :
  has k o = true -> has k (set o k' v) = true.
Proof.
  intros H. destruct (String.eqb_spec k k') as [->|Hne].
  - apply has_true. exists v. apply get_set_same.
  - unfold has in *. now rewrite (get_set_other o v Hne).
Qed.

Lemma forward_entry_writes name ra kids attr value :
  has (toLowerCase name) templates = true \/ allowed_for w name attr = true ->
  V1.forward_entry w templates (Some (Elem name ra kids)) (attr, value)
  = Ok (Some (Elem name (set ra attr (merge_value attr value ra)) kids)).
Proof.
  intros H. cbn [V1.forward_entry]. rewrite not_indexOf_allowed.
  destruct H as [H|H].
  - now rewrite (@in_own _ templates (toLowerCase name) H).
  - rewrite H. simpl. now rewrite andb_false_r.
Qed.

(** The loop never removes an attribute of the root. *)
Lemma forward_loop_keeps (attributes : attrs) name ra ra' kids :
  foldM (V1.forward_entry w templates) attributes (Some (Elem name ra kids))
  = Ok (Some (Elem name ra' kids)) ->
  forall k, has k ra = true -> has k ra' = true.
Proof.
  revert ra. induction attributes as [|[attr value] attributes IH];
    intros ra; simpl.
  - intros [= <-]. auto.
  - rewrite not_indexOf_allowed.
    destruct (negb (in_ (toLowerCase name) templates)
              && negb (allowed_for w name attr));
      simpl; intros Hf k Hk.
    + exact (IH ra Hf k Hk).
    + apply (IH _ Hf k). now apply has_set.
Qed.

(** The value the loop leaves under a name the usage carries, when the
    name is allowed or the root is a registered tag: [ra1] is the root's
    attributes when the turn of that name comes. *)
Lemma forward_loop_writes (pre post : attrs) name ra kids attr value :
  ~ In attr (keys pre) -> ~ In attr (keys post) ->
  has (toLowerCase name) templates = true \/ allowed_for w name attr = true ->
  exists ra1 ra',
    foldM (V1.forward_entry w templates) pre (Some (Elem name ra kids))
    = Ok (Some (Elem name ra1 kids))
    /\ (forall k, ~ In k (keys pre) -> get ra1 k = get ra k)
    /\ foldM (V1.forward_entry w templates) (pre ++ (attr, value) :: post)
         (Some (Elem name ra kids))
       = Ok (Some (Elem name ra' kids))
    /\ get ra' attr = Some (merge_value attr value ra1).
Proof.
  intros Hpre Hpost Hok.
  destruct (forward_loop w templates pre name ra kids) as [ra1 [F1 [_ K1]]].
  destruct (forward_loop w templates post name
              (set ra1 attr (merge_value attr value ra1)) kids)
    as [ra' [F2 [_ K2]]].
  exists ra1, ra'. split; [exact F1|]. split; [exact K1|]. split.
  - rewrite foldM_app, F1. cbn [bind]. rewrite foldM_cons.
    rewrite (forward_entry_writes name ra1 kids attr value Hok).
    cbn [bind]. exact F2.
  - rewrite (K2 attr Hpost). apply get_set_same.
Qed.

Lemma usage_split (attributes : attrs) attr value :
  NoDup (keys attributes) -> In (attr, value) attributes ->
  exists pre post,
    attributes = pre ++ (attr, value) :: post
    /\ ~ In attr (keys pre) /\ ~ In attr (keys post).
Proof.
  intros Hnd Hin. destruct (in_split _ _ Hin) as [pre [post ->]].
  exists pre, post. split; [reflexivity|].
  unfold keys in *. rewrite map_app in Hnd. simpl in Hnd.
  apply NoDup_remove_2 in Hnd. split; intros H; apply Hnd;
    apply in_or_app; auto.
Qed.

Lemma forward_result (h : html) (attributes : attrs) name ra ra' kids :
  element_children h = [Elem name ra kids] ->
  foldM (V1.forward_entry w templates) attributes (Some (Elem name ra kids))
  = Ok (Some (Elem name ra' kids)) ->
  V1.forward_html_attributes w templates h attributes
  = Ok (replace_top (Elem name ra' kids) h)
  /\ element_children (replace_top (Elem name ra' kids) h)
     = [Elem name ra' kids]
  /\ root_attribs (replace_top (Elem name ra' kids) h) = Some ra'.
Proof.
  intros Hroot Hf. unfold V1.forward_html_attributes. rewrite Hroot.
  cbn [List.length Nat.ltb Nat.leb index Z.ltb Z.compare Z.to_nat
         nth_error]. rewrite Hf. cbn [bind].
  pose proof (element_children_replace_top h (Elem name ra' kids) Hroot
                eq_refl) as He.
  split; [reflexivity|]. split; [exact He|].
  unfold root_attribs. now rewrite He.
Qed.

End Forwarder_writes.

(** X4.  A usage attribute other than [class] and [id] that is in the
    allowed set of the root, or any such attribute when the root is
    itself a registered tag (its name, in lower case as the parser writes
    it, is a key of the registry), overwrites what the rendered root had:
    the root of the final fragment carries the usage value. *)
Theorem X4_forward_overwrites (w : World) (templates : obj string)
  (h : html) (attributes : attrs) (name : string) (ra : attrs)
  (kids : list node) (attr value : string) :
  element_children h = [Elem name ra kids] ->
  NoDup (keys attributes) ->
  In (attr, value) attributes ->
  has (toLowerCase name) templates = true \/ allowed_for w name attr = true ->
  attr <> "class" -> attr <> "id" ->
  exists out ra',
    V1.forward_html_attributes w templates h attributes = Ok out
    /\ root_attribs out = Some ra'
    /\ get ra' attr = Some value.
Proof.
  intros Hroot Hnd Hin Hok Hc Hi.
  destruct (usage_split attributes attr value Hnd Hin)
    as [pre [post [-> [Hpre Hpost]]]].
  destruct (forward_loop_writes w templates pre post name ra kids attr value
              Hpre Hpost Hok) as [ra1 [ra' [_ [_ [F G]]]]].
  destruct (forward_result w templates h _ name ra ra' kids Hroot F)
    as [R1 [_ R3]].
  exists (replace_top (Elem name ra' kids) h), ra'.
  split; [exact R1|]. split; [exact R3|].
  now rewrite G, (merge_value_other value ra1 Hc Hi).
Qed.

Lemma X4_forward_overwrites_witness :
  exists out ra',
    V1.forward_html_attributes Sample.world []
      [Text "  "; Elem "a" [("href", "#")] [Text "About"]]
      [("href", "/about"); ("target", "_blank")] = Ok out
    /\ root_attribs out = Some ra'
    /\ get ra' "href" = Some "/about".
Proof.
  apply (X4_forward_overwrites Sample.world []
           [Text "  "; Elem "a" [("href", "#")] [Text "About"]]
           [("href", "/about"); ("target", "_blank")]
           "a" [("href", "#")] [Text "About"] "href" "/about").
  - reflexivity.
  - simpl. repeat constructor; simpl; intuition discriminate.
  - simpl. auto.
  - right. reflexivity.
  - discriminate.
  - discriminate.
Defined.

(** X5.  A usage [class] that is forwarded is merged with the class the
    rendered root had, whatever else the usage carries: the final class
    is the usage value, a space, and the root's class, character for
    character; on a root without class it is the usage value alone. *)
Theorem X5_forward_class (w : World) (templates : obj string)
  (h : html) (attributes : attrs) (name : string) (ra : attrs)
  (kids : list node) (value : string) :
  element_children h = [Elem name ra kids] ->
  NoDup (keys attributes) ->
  In ("class", value) attributes ->
  has (toLowerCase name) templates = true
  \/ allowed_for w name "class" = true ->
  exists out ra',
    V1.forward_html_attributes w templates h attributes = Ok out
    /\ root_attribs out = Some ra'
    /\ get ra' "class"
       = Some (match get ra "class" with
               | Some c => (value ++ " " ++ c)%string
               | None => value
               end).
Proof.
  intros Hroot Hnd Hin Hok.
  destruct (usage_split attributes "class" value Hnd Hin)
    as [pre [post [-> [Hpre Hpost]]]].
  destruct (forward_loop_writes w templates pre post name ra kids "class"
              value Hpre Hpost Hok) as [ra1 [ra' [_ [K [F G]]]]].
  destruct (forward_result w templates h _ name ra ra' kids Hroot F)
    as [R1 [_ R3]].
  exists (replace_top (Elem name ra' kids) h), ra'.
  split; [exact R1|]. split; [exact R3|].
  rewrite G. f_equal. rewrite <- (K "class" Hpre).
  destruct (get ra1 "class") as [c|] eqn:E.
  - now apply merge_value_class.
  - apply merge_value_fresh. now apply has_false.
Qed.

Lemma X5_forward_class_witness :
  exists out ra',
    V1.forward_html_attributes Sample.world []
      [Elem "div" [("class", "card")] []]
      [("title", "Hi"); ("class", "big  big")] = Ok out
    /\ root_attribs out = Some ra'
    /\ get ra' "class" = Some "big  big card".
Proof.
  apply (X5_forward_class Sample.world []
           [Elem "div" [("class", "card")] []]
           [("title", "Hi"); ("class", "big  big")]
           "div" [("class", "card")] [] "big  big").
  - reflexivity.
  - simpl. repeat constructor; simpl; intuition discriminate.
  - simpl. auto.
  - right. reflexivity.
Defined.

(** X6.  A usage [id] that is forwarded onto a root that has an id, the
    usage carrying no [class], leaves as id the usage value, a space, and
    the class of the rendered root (nothing after the space when the root
    has no class): the id of the rendered root is not in it. *)
Theorem X6_forward_id (w : World) (templates : obj string)
  (h : html) (attributes : attrs) (name : string) (ra : attrs)
  (kids : list node) (value : string) :
  element_children h = [Elem name ra kids] ->
  NoDup (keys attributes) ->
  In ("id", value) attributes ->
  ~ In "class" (keys attributes) ->
  has "id" ra = true ->
  has (toLowerCase name) templates = true \/ allowed_for w name "id" = true ->
  exists out ra',
    V1.forward_html_attributes w templates h attributes = Ok out
    /\ root_attribs out = Some ra'
    /\ get ra' "id" = Some (value ++ " " ++ cell (get ra "class"))%string.
Proof.
  intros Hroot Hnd Hin Hnc Hid Hok.
  destruct (usage_split attributes "id" value Hnd Hin)
    as [pre [post [-> [Hpre Hpost]]]].
  destruct (forward_loop_writes w templates pre post name ra kids "id"
              value Hpre Hpost Hok) as [ra1 [ra' [_ [K [F G]]]]].
  destruct (forward_result w templates h _ name ra ra' kids Hroot F)
    as [R1 [_ R3]].
  exists (replace_top (Elem name ra' kids) h), ra'.
  split; [exact R1|]. split; [exact R3|].
  assert (Hc : ~ In "class" (keys pre)).
  { intros H. apply Hnc. unfold keys in *. rewrite map_app.
    apply in_or_app. now left. }
  rewrite G, <- (K "class" Hc). f_equal. apply merge_value_id.
  unfold has in *. now rewrite (K "id" Hpre).
Qed.

Lemma X6_forward_id_witness :
  exists out ra',
    V1.forward_html_attributes Sample.world []
      [Elem "button" [("class", "btn"); ("id", "base")] []]
      [("id", "submit-btn")] = Ok out
    /\ root_attribs out = Some ra'
    /\ get ra' "id" = Some "submit-btn btn".
Proof.
  apply (X6_forward_id Sample.world []
           [Elem "button" [("class", "btn"); ("id", "base")] []]
           [("id", "submit-btn")]
           "button" [("class", "btn"); ("id", "base")] [] "submit-btn").
  - reflexivity.
  - simpl. repeat constructor; simpl; intuition discriminate.
  - simpl. auto.
  - simpl. intuition discriminate.
  - reflexivity.
  - right. reflexivity.
Defined.

(** X7.  On a fragment with one top-level element the forwarder returns
    the fragment with that element's attributes rewritten and nothing
    else: the nodes around the root, its name and its children stay, the
    result still has one top-level element, every attribute the root had
    is still there, and an attribute the usage does not carry keeps its
    value. *)
Theorem X7_forward_keeps (w : World) (templates : obj string)
  (h : html) (attributes : attrs) (name : string) (ra : attrs)
  (kids : list node) :
  element_children h = [Elem name ra kids] ->
  exists ra',
    V1.forward_html_attributes w templates h attributes
    = Ok (replace_top (Elem name ra' kids) h)
    /\ element_children (replace_top (Elem name ra' kids) h)
       = [Elem name ra' kids]
    /\ (forall k, has k ra = true -> has k ra' = true)
    /\ (forall k, ~ In k (keys attributes) -> get ra' k = get ra k).
Proof.
  intros Hroot.
  destruct (forward_loop w templates attributes name ra kids)
    as [ra' [F [_ K]]].
  destruct (forward_result w templates h attributes name ra ra' kids Hroot F)
    as [R1 [R2 _]].
  exists ra'. split; [exact R1|]. split; [exact R2|]. split; [|exact K].
  exact (forward_loop_keeps w templates attributes name ra ra' kids F).
Qed.

Lemma X7_forward_keeps_witness :
  exists ra',
    V1.forward_html_attributes Sample.world []
      [Text "  "; Elem "a" [("href", "#"); ("rel", "me")] [Text "About"]]
      [("href", "/about"); ("label", "x")]
    = Ok (replace_top (Elem "a" ra' [Text "About"])
            [Text "  "; Elem "a" [("href", "#"); ("rel", "me")]
                          [Text "About"]])
    /\ get ra' "rel" = Some "me".
Proof.
  destruct (X7_forward_keeps Sample.world []
              [Text "  "; Elem "a" [("href", "#"); ("rel", "me")]
                            [Text "About"]]
              [("href", "/about"); ("label", "x")]
              "a" [("href", "#"); ("rel", "me")] [Text "About"] eq_refl)
    as [ra' [H1 [_ [_ H4]]]].
  exists ra'. split; [exact H1|].
  rewrite (H4 "rel"); [reflexivity|].
  simpl. intuition discriminate.
Defined.

(** X8.  On a rendering without any top-level element (text only, or
    nothing) the forwarder returns the rendering as it is when the usage
    has no attribute, and throws a [TypeError] as soon as the usage has
    one: the loop reads the name of a root that is not there. *)
Theorem X8_forward_no_root (w : World) (templates : obj string) (h : html) :
  element_children h = [] ->
  V1.forward_html_attributes w templates h [] = Ok h
  /\ (forall attr value rest,
         V1.forward_html_attributes w templates h ((attr, value) :: rest)
         = Throw TypeError)
  /\ V0.forward_html_attributes w h [] = Ok h
  /\ (forall attr value rest,
         V0.forward_html_attributes w h ((attr, value) :: rest)
         = Throw TypeError).
Proof.
  intros Hroot.
  unfold V1.forward_html_attributes, V0.forward_html_attributes.
  rewrite Hroot. repeat split; reflexivity.
Qed.

Lemma X8_forward_no_root_witness :
  V1.forward_html_attributes Sample.world [] [Text "plain"] [] = Ok [Text "plain"]
  /\ V1.forward_html_attributes Sample.world [] [Text "plain"]
       [("title", "t")] = Throw TypeError.
Proof.
  destruct (X8_forward_no_root Sample.world [] [Text "plain"] eq_refl)
    as [H1 [H2 _]].
  split; [exact H1|apply H2].
Defined.

(** X9.  The first draft and the later one forward alike onto a root the
    attribute table knows, when no tag is registered under the root's
    name and the name is none that every object inherits; on a root the
    table does not know the first draft throws a [TypeError] as soon as
    the usage has an attribute, where the later draft forwards the global
    attributes.  On a root called [constructor] the later draft forwards
    every attribute.  The name of the root is read in lower case, as the
    parser writes it. *)
Theorem X9_first_draft_forwarder (w : World) (h : html) (name : string)
  (ra : attrs) (kids : list node) :
  element_children h = [Elem name ra kids] ->
  (forall exclusive attributes,
      inherited (toLowerCase name) = false ->
      get (htmlElementAttributes w) (toLowerCase name) = Some exclusive ->
      V0.forward_html_attributes w h attributes
      = V1.forward_html_attributes w [] h attributes)
  /\ (get (htmlElementAttributes w) (toLowerCase name) = None ->
      forall attr value rest,
        V0.forward_html_attributes w h ((attr, value) :: rest)
        = Throw TypeError
        /\ exists out,
            V1.forward_html_attributes w [] h ((attr, value) :: rest)
            = Ok out)
  /\ (inherited (toLowerCase name) = true ->
      forall attr value,
        V1.forward_html_attributes w [] h [(attr, value)]
        = Ok (replace_top
                (Elem name (set ra attr (merge_value attr value ra)) kids)
                h)).
Proof.
  intros Hroot. split; [|split].
  - intros exclusive attributes Hown Hknown.
    exact (V0_forward_known_root w h attributes Hroot Hown Hknown).
  - intros Hunknown attr value rest. split.
    + exact (V0_forward_unknown_root w h attr value rest Hroot Hunknown).
    + destruct (forward_single_root w [] h ((attr, value) :: rest) Hroot)
        as [ra' [H1 _]]. eauto.
  - intros Hinh attr value. unfold V1.forward_html_attributes.
    rewrite Hroot.
    cbn [List.length Nat.ltb Nat.leb index Z.ltb Z.compare Z.to_nat
           nth_error].
    rewrite foldM_cons. cbn [V1.forward_entry]. unfold in_.
    rewrite Hinh, orb_true_r. cbn [negb andb bind foldM]. reflexivity.
Qed.

Lemma X9_first_draft_forwarder_witness :
  V0.forward_html_attributes Sample.world
    [Elem "my-card" [] []] [("title", "t")] = Throw TypeError
  /\ exists out,
      V1.forward_html_attributes Sample.world []
        [Elem "my-card" [] []] [("title", "t")] = Ok out.
Proof.
  destruct (X9_first_draft_forwarder Sample.world [Elem "my-card" [] []]
              "my-card" [] [] eq_refl) as [_ [H _]].
  apply (H eq_refl "title" "t" []).
Defined.

(** ** Passes that find nothing *)

(** A pass, seen as a fold of turns over the registry: [matches e doc] is
    the flag the turn of [e] raises, and a turn that raises none leaves
    the state alone. *)
Section Quiet_pass.
Context {E : Type}.
Variable turn : html * string * bool * sset -> E
                -> result (html * string * bool * sset).
Variable matches : E -> html -> bool.

Hypothesis turn_quiet : forall e doc css flag seen,
  matches e doc = false ->
  turn (doc, css, flag, seen) e = Ok (doc, css, flag, seen).
Hypothesis turn_flag : forall e doc css flag seen doc' css' flag' seen',
  turn (doc, css, flag, seen) e = Ok (doc', css', flag', seen') ->
  flag' = flag || matches e doc.

Lemma pass_quiet (l : list E) doc css flag seen :
  (forall e, In e l -> matches e doc = false) ->
  foldM turn l (doc, css, flag, seen) = Ok (doc, css, flag, seen).
Proof using turn_quiet.
  induction l as [|e l IH]; intros H; [reflexivity|].
  rewrite foldM_cons, turn_quiet by (apply H; now left).
  cbn [bind]. apply IH. intros e' He'. apply H. now right.
Qed.

Lemma pass_flag_stays (l : list E) doc css seen doc' css' flag' seen' :
  foldM turn l (doc, css, true, seen) = Ok (doc', css', flag', seen') ->
  flag' = true.
Proof using turn_flag.
  revert doc css seen. induction l as [|e l IH]; intros doc css seen.
  - now intros [= _ _ <- _].
  - rewrite foldM_cons.
    destruct (turn (doc, css, true, seen) e) as [[[[d c] f] s]|err] eqn:Ht;
      [|discriminate].
    cbn [bind]. apply turn_flag in Ht. cbn [orb] in Ht. subst f. apply IH.
Qed.

Lemma pass_unflagged (l : list E) doc css seen doc' css' seen' :
  foldM turn l (doc, css, false, seen) = Ok (doc', css', false, seen') ->
  doc' = doc /\ css' = css /\ seen' = seen
  /\ forall e, In e l -> matches e doc = false.
Proof using turn_quiet turn_flag.
  revert doc css seen. induction l as [|e l IH]; intros doc css seen.
  - intros [= <- <- <-]. repeat split; auto. intros e [].
  - rewrite foldM_cons.
    destruct (turn (doc, css, false, seen) e) as [[[[d c] f] s]|err] eqn:Ht;
      [|discriminate].
    cbn [bind]. intros Hf. pose proof (turn_flag _ _ _ _ _ _ _ _ _ Ht) as Hfl.
    cbn [orb] in Hfl. destruct (matches e doc) eqn:Hm.
    + subst f. apply pass_flag_stays in Hf. discriminate.
    + subst f. rewrite (turn_quiet _ _ _ _ _ Hm) in Ht.
      injection Ht as <- <- <-.
      destruct (IH _ _ _ Hf) as [-> [-> [-> Hall]]].
      repeat split; auto. intros e' [<-|He']; auto.
Qed.

End Quiet_pass.

Lemma V2_turn_quiet (w : World) (e : string * V2.TagTemplate) doc css flag
  seen :
  negb (quiet w (fst e) doc) = false ->
  V2.transform_tag w (doc, css, flag, seen) e = Ok (doc, css, flag, seen).
Proof.
  destruct e as [tag t]. cbn [fst]. unfold quiet, V2.transform_tag.
  destruct (query w tag doc) as [q|err]; [|discriminate].
  rewrite negb_involutive. intros Hm. cbn [bind].
  rewrite (each_quiet q _ doc Hm), Hm. cbn [bind negb].
  now rewrite orb_false_r.
Qed.

Lemma V2_turn_flag (w : World) (e : string * V2.TagTemplate) doc css flag
  seen doc' css' flag' seen' :
  V2.transform_tag w (doc, css, flag, seen) e = Ok (doc', css', flag', seen') ->
  flag' = flag || negb (quiet w (fst e) doc).
Proof.
  destruct e as [tag t]. cbn [fst]. unfold quiet, V2.transform_tag.
  destruct (query w tag doc) as [q|err]; [|discriminate].
  rewrite negb_involutive. cbn [bind].
  destruct (each q (V2.on_match w t) doc); [|discriminate]. cbn [bind].
  destruct (negb (matched q doc)); [now intros [= _ _ <- _]|].
  destruct (sset_has seen tag); now intros [= _ _ <- _].
Qed.

Lemma V1_turn_quiet (w : World) (templates : obj string)
  (e : string * string) doc css flag seen :
  negb (quiet w (fst e) doc) = false ->
  V1.transform_tag w templates (doc, css, flag, seen) e
  = Ok (doc, css, flag, seen).
Proof.
  destruct e as [tag t]. cbn [fst]. unfold quiet, V1.transform_tag.
  destruct (matter w t) as [content data].
  destruct (query w tag doc) as [q|err]; [|discriminate].
  rewrite negb_involutive. intros Hm. cbn [bind].
  rewrite (each_quiet q _ doc Hm), Hm. cbn [bind negb].
  rewrite orb_false_r. now destruct (negb (has "stylesheet" data)).
Qed.

Lemma V1_turn_flag (w : World) (templates : obj string)
  (e : string * string) doc css flag seen doc' css' flag' seen' :
  V1.transform_tag w templates (doc, css, flag, seen) e
  = Ok (doc', css', flag', seen') ->
  flag' = flag || negb (quiet w (fst e) doc).
Proof.
  destruct e as [tag t]. cbn [fst]. unfold quiet, V1.transform_tag.
  destruct (matter w t) as [content data].
  destruct (query w tag doc) as [q|err]; [|discriminate].
  rewrite negb_involutive. cbn [bind].
  destruct (each q (V1.on_match w templates content) doc); [|discriminate].
  cbn [bind].
  destruct (negb (has "stylesheet" data)); [now intros [= _ _ <- _]|].
  destruct (negb (matched q doc)); [now intros [= _ _ <- _]|].
  destruct (sset_has seen tag); now intros [= _ _ <- _].
Qed.

Lemma in_keys_entry {V : Type} (o : obj V) (e : string * V) :
  In e o -> In (fst e) (keys o).
Proof. intros H. unfold keys. now apply in_map. Qed.

Lemma in_entry_keys {V : Type} (o : obj V) (k : string) :
  In k (keys o) -> exists e, In e o /\ fst e = k.
Proof.
  unfold keys. intros H. apply in_map_iff in H.
  destruct H as [e [He Hin]]. eauto.
Qed.

(** X10.  A pass reports no rewrite exactly when the selector of every
    registered name is accepted and finds nothing in the document it was
    given: for a tag name, when no element bears the name, whatever the
    case of its letters.  Such a pass hands the document back as it was,
    adds no CSS and leaves the set of processed tags alone, in
    [src/index.ts] and in the draft that forwards attributes. *)
Theorem X10_quiet_pass (w : World) (doc : html) (seen : sset) :
  (forall templates : obj V2.TagTemplate,
      ((forall k, In k (keys templates) -> quiet w k doc = true) ->
       V2.transform w templates doc seen = Ok (doc, EmptyString, false, seen))
      /\ (forall doc' css seen',
             V2.transform w templates doc seen = Ok (doc', css, false, seen') ->
             doc' = doc /\ css = EmptyString /\ seen' = seen
             /\ forall k, In k (keys templates) -> quiet w k doc = true))
  /\ (forall templates : obj string,
         ((forall k, In k (keys templates) -> quiet w k doc = true) ->
          V1.transform w templates doc seen
          = Ok (doc, EmptyString, false, seen))
         /\ (forall doc' css seen',
                V1.transform w templates doc seen
                = Ok (doc', css, false, seen') ->
                doc' = doc /\ css = EmptyString /\ seen' = seen
                /\ forall k, In k (keys templates) -> quiet w k doc = true))
  /\ (forall tag,
         tag_selector tag = true ->
         quiet w tag doc = true
         <-> found (fun _ n => named tag n) doc = []).
Proof.
  split; [|split].
  - intros templates; split.
    + intros H. unfold V2.transform.
      apply (pass_quiet (V2.transform_tag w)
               (fun e d => negb (quiet w (fst e) d)) (V2_turn_quiet w)).
      intros e He. rewrite (H (fst e)); [reflexivity|].
      now apply in_keys_entry.
    + intros doc' css seen' Ht. unfold V2.transform in Ht.
      destruct (pass_unflagged (V2.transform_tag w)
                  (fun e d => negb (quiet w (fst e) d))
                  (V2_turn_quiet w) (V2_turn_flag w) _ _ _ _ _ _ _ Ht)
        as [H1 [H2 [H3 H4]]].
      repeat split; auto. intros k Hk.
      destruct (in_entry_keys templates k Hk) as [e [He <-]].
      apply negb_false_iff. now apply H4.
  - intros templates; split.
    + intros H. unfold V1.transform.
      apply (pass_quiet (V1.transform_tag w templates)
               (fun e d => negb (quiet w (fst e) d))
               (V1_turn_quiet w templates)).
      intros e He. rewrite (H (fst e)); [reflexivity|].
      now apply in_keys_entry.
    + intros doc' css seen' Ht. unfold V1.transform in Ht.
      destruct (pass_unflagged (V1.transform_tag w templates)
                  (fun e d => negb (quiet w (fst e) d))
                  (V1_turn_quiet w templates) (V1_turn_flag w templates)
                  _ _ _ _ _ _ _ Ht)
        as [H1 [H2 [H3 H4]]].
      repeat split; auto. intros k Hk.
      destruct (in_entry_keys templates k Hk) as [e [He <-]].
      apply negb_false_iff. now apply H4.
  - intros tag Ht. unfold quiet. rewrite (query_tag w tag doc Ht).
    unfold matched. cbn [targets].
    destruct (found (fun _ n => named tag n) doc); simpl;
      split; intros H; try reflexivity; discriminate.
Qed.

Lemma X10_quiet_pass_witness :
  V2.transform Sample.world sample_drop
    (Sample.page [] [Elem "p" [] [Text "x"]]) ["Card"]
  = Ok (Sample.page [] [Elem "p" [] [Text "x"]], EmptyString, false, ["Card"])
  /\ quiet Sample.world "Card" (Sample.page [] [Elem "card" [] []]) = false.
Proof.
  split; [|reflexivity].
  apply (proj1 (proj1 (X10_quiet_pass Sample.world
                         (Sample.page [] [Elem "p" [] [Text "x"]]) ["Card"])
                  sample_drop)).
  intros k Hk. simpl in Hk.
  destruct Hk as [<-|[<-|[]]]; reflexivity.
Defined.

(** ** Loading the templates *)

Section Registry_order.
Context {V : Type}.

Lemma keys_set_fresh (o : obj V) (k : string) (v : V) :
  has k o = false -> keys (set o k v) = keys o ++ [k].
Proof.
  unfold has. induction o as [|[k0 v0] o IH]; simpl; [reflexivity|].
  destruct (String.eqb k k0); [discriminate|].
  intros H. simpl. now rewrite IH.
Qed.

Lemma keys_set_present (o : obj V) (k : string) (v : V) :
  has k o = true -> keys (set o k v) = keys o.
Proof.
  unfold has. induction o as [|[k0 v0] o IH]; simpl; [discriminate|].
  destruct (String.eqb k k0) eqn:E; [reflexivity|].
  intros H. simpl. now rewrite IH.
Qed.

Lemma keys_set_nodup (o : obj V) (k : string) (v : V) :
  NoDup (keys o) -> NoDup (keys (set o k v)).
Proof.
  intros Hnd. destruct (has k o) eqn:E.
  - now rewrite keys_set_present.
  - rewrite keys_set_fresh by assumption.
    apply NoDup_app; [assumption|repeat constructor; simpl; tauto|].
    intros x Hin [<-|[]]. apply has_false, get_none_keys in E. contradiction.
Qed.

Lemma extends_refl (t : obj V) : extends t t.
Proof. split; auto. Qed.

Lemma extends_trans (t1 t2 t3 : obj V) :
  extends t1 t2 -> extends t2 t3 -> extends t1 t3.
Proof. intros [A1 B1] [A2 B2]. split; auto. Qed.

Lemma extends_set_fresh (t : obj V) (k : string) (v : V) :
  has k t = false -> extends t (set t k v).
Proof.
  intros Hf. split.
  - intros k' v' Hg. rewrite get_set_other; [exact Hg|].
    intros ->. apply has_false in Hf. congruence.
  - apply keys_set_nodup.
Qed.

Lemma keeps_names_refl (t : obj V) : keeps_names t t.
Proof. split; auto. Qed.

Lemma keeps_names_trans (t1 t2 t3 : obj V) :
  keeps_names t1 t2 -> keeps_names t2 t3 -> keeps_names t1 t3.
Proof. intros [A1 B1] [A2 B2]. split; auto. Qed.

Lemma keeps_names_set (t : obj V) (k : string) (v : V) :
  keeps_names t (set t k v).
Proof.
  split.
  - intros k' Hk'. now apply has_set.
  - apply keys_set_nodup.
Qed.

(** A loop that updates the registry in place keeps what each of its
    turns keeps, whether it ends or throws on the way. *)
Lemma foldS_keeps {A : Type} (R : obj V -> obj V -> Prop)
  (f : obj V -> A -> obj V * result unit) (l : list A) :
  (forall t, R t t) ->
  (forall t1 t2 t3, R t1 t2 -> R t2 t3 -> R t1 t3) ->
  Forall (fun a => forall t, R t (fst (f t a))) l ->
  forall t, R t (fst (foldS f l t)).
Proof.
  intros Hrefl Htrans. induction 1 as [|a l Ha _ IH]; intros t.
  - apply Hrefl.
  - cbn [foldS]. specialize (Ha t).
    change ((fix go (l0 : list A) (s : obj V) : obj V * result unit :=
               match l0 with
               | [] => (s, Ok tt)
               | a0 :: r =>
                   match f s a0 with
                   | (s', Ok _) => go r s'
                   | (s', Throw e) => (s', Throw e)
                   end
               end) l) with (foldS f l).
    destruct (f t a) as [t' [u|e]]; cbn [fst] in *.
    + eapply Htrans; [exact Ha|apply IH].
    + exact Ha.
Qed.

End Registry_order.

Lemma entry_induction (P : entry -> Prop) :
  (forall filename contents, P (File filename contents)) ->
  (forall filename entries, Forall P entries -> P (Dir filename entries)) ->
  forall e, P e.
Proof.
  intros HF HD. fix IH 1. intros [filename contents|filename entries].
  - apply HF.
  - apply HD. induction entries as [|e entries IHe]; constructor.
    + apply IH.
    + exact IHe.
Qed.

Lemma V1_process_entry_extends (w : World) (e : entry) :
  forall dir templates,
    extends templates (fst (V1.process_entry w dir templates e)).
Proof.
  induction e as [filename contents|filename entries IH] using entry_induction;
    intros dir templates; cbn [V1.process_entry];
    destruct (negb (endsWith ".html" filename)
              && negb (endsWith ".njk" filename));
    try apply extends_refl.
  - rewrite add_template_spec. cbv zeta.
    destruct (in_ (V1.registered_name w contents (V1.file_stem filename))
                templates) eqn:E; cbn [fst].
    + apply extends_refl.
    + apply extends_set_fresh. now apply in_false in E.
  - apply (foldS_keeps extends); [apply extends_refl|apply extends_trans|].
    eapply Forall_impl; [|exact IH]. intros e He t. apply He.
Qed.

Lemma V2_process_entry_keeps (w : World) (e : entry) :
  forall dir templates,
    keeps_names templates (fst (V2.process_entry w dir templates e)).
Proof.
  induction e as [filename contents|filename entries IH] using entry_induction;
    intros dir templates; cbn [V2.process_entry];
    destruct (negb (endsWith ".html" filename)
              && negb (endsWith ".njk" filename));
    try apply keeps_names_refl.
  - destruct (V2.TagTemplate_new w (path_join dir filename) contents);
      cbn [fst]; [apply keeps_names_set|apply keeps_names_refl].
  - apply (foldS_keeps keeps_names);
      [apply keeps_names_refl|apply keeps_names_trans|].
    eapply Forall_impl; [|exact IH]. intros e He t. apply He.
Qed.

(** X12.  Loading a directory tree in the draft with [add_template]
    never replaces or removes a definition: whatever the tree holds, and
    whether the load ends or stops on an exception, every definition the
    registry had is still there under its name, unchanged, and the names
    stay distinct. *)
Theorem X12_load_extends (w : World) (dir : string) (files : list entry)
  (templates : obj string) :
  extends templates
    (fst (V1.process_template_directory w dir files templates)).
Proof.
  unfold V1.process_template_directory.
  apply (foldS_keeps extends); [apply extends_refl|apply extends_trans|].
  apply Forall_forall. intros e _ t. apply V1_process_entry_extends.
Qed.

(** X13.  Loading a directory tree in [src/index.ts] never removes a
    name: whatever the tree holds, and whether the load ends or stops on
    an exception, every name the registry had is still registered and the
    names stay distinct (the definition under a name may have been
    replaced). *)
Theorem X13_load_keeps_names (w : World) (dir : string) (files : list entry)
  (templates : obj V2.TagTemplate) :
  keeps_names templates
    (fst (V2.process_template_directory w dir files templates)).
Proof.
  unfold V2.process_template_directory.
  apply (foldS_keeps keeps_names);
    [apply keeps_names_refl|apply keeps_names_trans|].
  apply Forall_forall. intros e _ t. apply V2_process_entry_keeps.
Qed.

Lemma foldS_skip {A S : Type} (f : S -> A -> S * result unit) (l : list A)
  (s : S) :
  Forall (fun a => f s a = (s, Ok tt)) l -> foldS f l s = (s, Ok tt).
Proof.
  induction 1 as [|a l Ha _ IH]; [reflexivity|].
  cbn [foldS]. rewrite Ha. exact IH.
Qed.

(** X14.  The suffix test comes before the directory test: an entry
    whose name ends neither in [.html] nor in [.njk] is passed over, a
    directory as much as a file, so a directory without such a suffix is
    never read and a tree made of such entries registers nothing; a
    directory with the suffix is read, under the joined path. *)
Theorem X14_suffix_gate (w : World) (dir : string) (files : list entry) :
  (Forall (fun e => template_suffix (entry_name e) = false) files ->
   (forall templates,
       V1.process_template_directory w dir files templates
       = (templates, Ok tt))
   /\ (forall templates,
          V2.process_template_directory w dir files templates
          = (templates, Ok tt)))
  /\ (forall name,
         template_suffix name = true ->
         (forall templates,
             V1.process_template_directory w dir [Dir name files] templates
             = V1.process_template_directory w (path_join dir name) files
                 templates)
         /\ (forall templates,
                V2.process_template_directory w dir [Dir name files] templates
                = V2.process_template_directory w (path_join dir name) files
                    templates)).
Proof.
  split.
  - intros Hall. split; intros templates;
      [unfold V1.process_template_directory
      |unfold V2.process_template_directory];
      apply foldS_skip; eapply Forall_impl; [|exact Hall| |exact Hall];
      intros e He; unfold template_suffix in He;
      apply orb_false_iff in He; destruct He as [H1 H2];
      destruct e as [filename contents|filename entries];
      cbn [entry_name] in H1, H2;
      cbn [V1.process_entry V2.process_entry];
      now rewrite H1, H2.
  - intros name Hs. unfold template_suffix in Hs.
    assert (Hg : negb (endsWith ".html" name) && negb (endsWith ".njk" name)
                 = false).
    { rewrite <- negb_orb, Hs. reflexivity. }
    split; intros templates;
      [unfold V1.process_template_directory
      |unfold V2.process_template_directory].
    + cbn [foldS V1.process_entry]. rewrite Hg.
      now destruct (foldS _ files templates) as [t [[]|e]].
    + cbn [foldS V2.process_entry]. rewrite Hg.
      now destruct (foldS _ files templates) as [t [[]|e]].
Qed.

Lemma X14_suffix_gate_witness :
  V1.process_template_directory Sample.world "templates"
    [Dir "components" [File "card.njk" "card-source"]; File "README.md" "x"]
    [] = ([], Ok tt)
  /\ V2.process_template_directory Sample.world "templates"
       [Dir "components" [File "card.njk" "card-source"]; File "README.md" "x"]
       [] = ([], Ok tt).
Proof.
  destruct (proj1 (X14_suffix_gate Sample.world "templates"
                     [Dir "components" [File "card.njk" "card-source"];
                      File "README.md" "x"])) as [H1 H2].
  - repeat constructor.
  - split; [apply H1|apply H2].
Defined.

Lemma V0_load_other (files : list entry) (templates : obj string)
  (k : string) :
  forallb (fun e => negb (stem_is k e)) files = true ->
  get (V0.process_template_directory files templates) k = get templates k.
Proof.
  unfold V0.process_template_directory. revert templates.
  induction files as [|e files IH]; intros templates H; [reflexivity|].
  cbn [forallb] in H. apply andb_true_iff in H. destruct H as [He H].
  cbn [fold_left]. rewrite (IH _ H).
  destruct e as [filename contents|filename entries]; [|reflexivity].
  cbn [stem_is] in He. apply negb_true_iff, String.eqb_neq in He.
  apply get_set_other. congruence.
Qed.

Lemma V0_load_app (l1 l2 : list entry) (templates : obj string) :
  V0.process_template_directory (l1 ++ l2) templates
  = V0.process_template_directory l2
      (V0.process_template_directory l1 templates).
Proof. unfold V0.process_template_directory. apply fold_left_app. Qed.



(** ** What a template is given *)

Lemma filter_all {A : Type} (f : A -> bool) (l : list A) :
  (forall x, In x l -> f x = true) -> filter f l = l.
Proof.
  induction l as [|a l IH]; intros H; simpl; [reflexivity|].
  rewrite (H a (or_introl eq_refl)). f_equal. apply IH.
  intros x Hx. apply H. now right.
Qed.

Lemma filter_twice {A : Type} (f g : A -> bool) (l : list A) :
  filter f (filter g l) = filter (fun x => g x && f x) l.
Proof.
  induction l as [|a l IH]; simpl; [reflexivity|].
  destruct (g a); simpl; [destruct (f a)|]; now rewrite IH.
Qed.

Lemma filter_keys {V : Type} (p : string -> bool) (o : obj V) :
  filter p (keys o) = keys (filter (fun kv => p (fst kv)) o).
Proof.
  unfold keys. induction o as [|[k v] o IH]; simpl; [reflexivity|].
  destruct (p k); simpl; now rewrite IH.
Qed.

Lemma exclusions_filter (attributes : attrs) (excluded : list string)
  (s : sset) :
  fold_left (V2.forward_key attributes)
    (map (fun k => ("!" ++ k)%string) excluded) s
  = filter (fun x => negb (among excluded x)) s.
Proof.
  revert s. induction excluded as [|k excluded IH]; intros s.
  - cbn [map fold_left]. symmetry. now apply filter_all.
  - cbn [map fold_left]. rewrite (forward_key_exclusion attributes s k), IH.
    unfold sset_delete. rewrite filter_twice. apply filter_ext.
    intros x. unfold among. cbn [existsb].
    rewrite negb_orb, (String.eqb_sym k x). reflexivity.
Qed.

(** X16.  [forward("*", "!k1", ..., "!kn")] gives the entries of the
    usage mapping whose names are none of [k1..kn], in the order of the
    usage, each as [name=value], joined by spaces: every attribute but
    the excluded ones. *)
Theorem X16_forward_all_but (A : attrs) (excluded : list string) :
  NoDup (keys A) ->
  V2.forward A ("*" :: map (fun k => ("!" ++ k)%string) excluded)
  = join " "
      (map entry_text
         (filter (fun kv => negb (among excluded (fst kv))) A)).
Proof.
  intros Hnd. unfold V2.forward.
  cbn [List.length Nat.ltb Nat.leb fold_left].
  change (V2.forward_key A [] "*") with (fold_left sset_add (keys A) []).
  rewrite (fold_add_fresh (keys A) []) by exact Hnd. cbn [app].
  rewrite exclusions_filter, (pushed_filter A).
  rewrite filter_all.
  - rewrite filter_keys.
    rewrite (@serialized_entries A Hnd
               (filter (fun kv => negb (among excluded (fst kv))) A)).
    + reflexivity.
    + intros x Hx. apply filter_In in Hx. tauto.
  - intros k Hk. apply filter_In in Hk. now apply in_keys_has.
Qed.

Lemma X16_forward_all_but_witness :
  V2.forward [("title", "Hi"); ("href", "/a"); ("target", "_blank")]
    ["*"; "!title"]
  = "href=/a target=_blank".
Proof.
  apply (X16_forward_all_but
           [("title", "Hi"); ("href", "/a"); ("target", "_blank")]
           ["title"]).
  simpl. repeat constructor; simpl; intuition discriminate.
Defined.

Lemma get_spread (a : attrs) (k : string) :
  get (spread (Some a)) k = option_map VStr (get a k).
Proof.
  unfold spread. induction a as [|[k0 v0] a IH]; simpl; [reflexivity|].
  now destruct (String.eqb k k0).
Qed.

(** X17.  The variables a template of [src/index.ts] is rendered with:
    [content] is the inner HTML of the usage and [forward] the helper
    built for its attributes, whatever the usage carries under these two
    names; every other name is bound exactly when the usage has the
    attribute, and then to its value. *)
Theorem X17_template_variables (a : attrs) (inner_html : option html) :
  get (V2.variables a inner_html) "content" = Some (VHtml inner_html)
  /\ get (V2.variables a inner_html) "forward" = Some (VFun (V2.forward a))
  /\ (forall k, k <> "content" -> k <> "forward" ->
        get (V2.variables a inner_html) k = option_map VStr (get a k)).
Proof.
  unfold V2.variables. split; [|split].
  - rewrite get_set_other by discriminate. apply get_set_same.
  - apply get_set_same.
  - intros k Hc Hf. rewrite !get_set_other by assumption. apply get_spread.
Qed.

Lemma X17_template_variables_witness :
  get (V2.variables [("content", "x"); ("title", "T")] (Some [])) "title"
  = Some (VStr "T")
  /\ get (V2.variables [("content", "x"); ("title", "T")] (Some [])) "content"
     = Some (VHtml (Some [])).
Proof.
  destruct (X17_template_variables [("content", "x"); ("title", "T")]
              (Some [])) as [H1 [_ H3]].
  split; [|exact H1].
  rewrite (H3 "title"); [reflexivity|discriminate|discriminate].
Defined.

(** ** Passes of [src/index.ts] have no exception of their own *)

Section Total_each.
Variable m : place -> node -> bool.
Variable callback : option attrs -> option html -> result html.
Hypothesis callback_returns : forall a i, exists h, callback a i = Ok h.

Lemma iterM_i_returns (f : nat -> node -> result unit) (kids : list node) :
  Forall (fun k => forall j, f j k = Ok tt) kids ->
  forall i, iterM_i f i kids = Ok tt.
Proof.
  induction 1 as [|k kids Hk _ IH]; intros i; [reflexivity|].
  rewrite iterM_i_cons, Hk. cbn [bind]. apply IH.
Qed.

Lemma visit_detached_returns (n : node) : forall p,
  visit_detached m callback p n = Ok tt.
Proof using callback_returns.
  induction n as [s|nm a kids IH] using node_induction; intros p;
    [reflexivity|].
  cbn [visit_detached].
  assert (H1 : (if m p (Elem nm a kids)
                then _ <- callback (attr (Elem nm a kids))
                            (inner (Elem nm a kids)) ;; Ok tt
                else Ok tt) = Ok tt).
  { destruct (m p (Elem nm a kids)); [|reflexivity].
    destruct (callback_returns (attr (Elem nm a kids))
                (inner (Elem nm a kids))) as [h ->]. reflexivity. }
  rewrite H1. cbn [bind]. apply iterM_i_returns.
  eapply Forall_impl; [|exact IH]. intros k Hk j. apply Hk.
Qed.

Lemma concatM_i_returns (f : nat -> node -> result html)
  (kids : list node) :
  Forall (fun k => forall j, exists out, f j k = Ok out) kids ->
  forall i, exists out, concatM_i f i kids = Ok out.
Proof.
  induction 1 as [|k kids Hk _ IH]; intros i; [now exists []|].
  rewrite concatM_i_cons. destruct (Hk i) as [o ->].
  destruct (IH (S i)) as [os ->]. cbn [bind]. now eexists.
Qed.

Lemma each_node_returns (n : node) : forall p,
  exists out, each_node m callback p n = Ok out.
Proof using callback_returns.
  induction n as [s|nm a kids IH] using node_induction; intros p;
    [now eexists|].
  cbn [each_node]. destruct (m p (Elem nm a kids)).
  - destruct (callback_returns (attr (Elem nm a kids))
                (inner (Elem nm a kids))) as [h ->].
    cbn [bind]. rewrite iterM_i_returns; [cbn [bind]; now eexists|].
    apply Forall_forall. intros k _ j. apply visit_detached_returns.
  - destruct (concatM_i_returns
                (fun i k => each_node m callback (i :: p) k) kids) with (i := 0)
      as [o Ho].
    + eapply Forall_impl; [|exact IH]. intros k Hk j. apply Hk.
    + rewrite Ho. cbn [bind]. now eexists.
Qed.

Lemma each_found_returns (doc : html) :
  exists out, each_found m callback doc = Ok out.
Proof using callback_returns.
  unfold each_found. apply concatM_i_returns. apply Forall_forall.
  intros n _ j. apply each_node_returns.
Qed.

End Total_each.

Lemma each_returns (q : selection)
  (callback : option attrs -> option html -> result html) (doc : html) :
  (forall a i, exists h, callback a i = Ok h) ->
  exists out, each q callback doc = Ok out.
Proof.
  intros Hcb. destruct q as [m|l]; cbn [each].
  - now apply each_found_returns.
  - assert (H : iterM (fun n => _ <- callback (attr n) (inner n) ;; Ok tt) l
                = Ok tt).
    { induction l as [|n l IH]; [reflexivity|].
      cbn [iterM]. destruct (Hcb (attr n) (inner n)) as [h ->].
      cbn [bind]. exact IH. }
    rewrite H. cbn [bind]. now eexists.
Qed.

Lemma V2_turn_returns (w : World) (st : html * string * bool * sset)
  (e : string * V2.TagTemplate) :
  (forall doc, exists q, query w (fst e) doc = Ok q) ->
  exists st', V2.transform_tag w st e = Ok st'.
Proof.
  destruct st as [[[doc css] flag] seen]. destruct e as [tag t].
  cbn [fst]. intros Hq. unfold V2.transform_tag.
  destruct (Hq doc) as [q ->]. cbn [bind].
  destruct (each_returns q (V2.on_match w t) doc
              (fun a i => ex_intro _ _ eq_refl)) as [out ->].
  cbn [bind]. destruct (negb (matched q doc)); [now eexists|].
  destruct (sset_has seen tag); now eexists.
Qed.

Lemma foldM_returns {A S : Type} (f : S -> A -> result S) (l : list A) :
  (forall s a, In a l -> exists s', f s a = Ok s') ->
  forall s, exists s', foldM f l s = Ok s'.
Proof.
  induction l as [|a l IH]; intros Hf s; [now eexists|].
  rewrite foldM_cons. destruct (Hf s a (or_introl eq_refl)) as [s1 ->].
  cbn [bind]. apply IH. intros s' a' Ha'. apply Hf. now right.
Qed.

Lemma run_no_throw
  (transform : html -> sset -> result (html * string * bool * sset)) :
  (forall doc seen, exists st, transform doc seen = Ok st) ->
  forall fuel doc seen css r,
    run transform fuel doc seen css = Some r -> exists out, r = Ok out.
Proof.
  intros Ht. induction fuel as [|fuel IH]; intros doc seen css r;
    [discriminate|].
  cbn [run]. destruct (Ht doc seen) as [[[[d c] f] s] ->].
  destruct (negb f).
  - intros [= <-]. now eexists.
  - apply IH.
Qed.

(** X18.  In [src/index.ts] a pass has no exception of its own: when the
    selector engine accepts every registered name, as it does every tag
    name, and the renderer and the stylesheet preprocessor return,
    [transform] returns for every document and set of processed tags,
    and whenever the loop ends it ends with a result, never with an
    exception (the draft that forwards attributes can end with one). *)
Theorem X18_no_exception (w : World) (templates : obj V2.TagTemplate) :
  (forall k doc, In k (keys templates) -> exists q, query w k doc = Ok q) ->
  (forall doc seen, exists st, V2.transform w templates doc seen = Ok st)
  /\ (forall fuel doc r,
         V2.recursive_template_transform w templates fuel doc = Some r ->
         exists out, r = Ok out)
  /\ (forall fuel doc path r,
         V2.eleventyPlugin_transform w templates fuel doc path = Some r ->
         exists out, r = Ok out)
  /\ (forall k doc, tag_selector k = true -> exists q, query w k doc = Ok q).
Proof.
  intros Hq.
  assert (Ht : forall doc seen,
             exists st, V2.transform w templates doc seen = Ok st).
  { intros doc seen. unfold V2.transform.
    apply foldM_returns. intros st e He. apply V2_turn_returns.
    intros d. apply Hq. now apply in_keys_entry. }
  assert (Hr : forall fuel doc r,
             V2.recursive_template_transform w templates fuel doc = Some r ->
             exists out, r = Ok out).
  { intros fuel doc r. unfold V2.recursive_template_transform.
    destruct (run (V2.transform w templates) fuel doc [] EmptyString)
      as [[[[d c] s]|e]|] eqn:E; try discriminate.
    - intros [= <-]. now eexists.
    - destruct (run_no_throw (V2.transform w templates) Ht _ _ _ _ _ E)
        as [out Ho]. discriminate. }
  split; [exact Ht|]. split; [exact Hr|]. split.
  - intros fuel doc path r. unfold V2.eleventyPlugin_transform.
    destruct (negb (endsWith ".html" path)).
    + intros [= <-]. now eexists.
    + destruct (V2.recursive_template_transform w templates fuel doc)
        as [[x|e]|] eqn:E; try discriminate.
      * intros [= <-]. now eexists.
      * destruct (Hr _ _ _ E) as [out Ho]. discriminate.
  - intros k doc Hk. rewrite (query_tag w k doc Hk). now eexists.
Qed.

Lemma X18_no_exception_witness :
  exists out,
    V2.recursive_template_transform Sample.world sample_nesting 3
      (Sample.page [] [Elem "outer" [] [Text "x"]])
    = Some (Ok out).
Proof.
  destruct (X18_no_exception Sample.world sample_nesting) as [_ [H _]].
  - intros k doc [<-|[<-|[]]]; eexists; reflexivity.
  - destruct (H 3 (Sample.page [] [Elem "outer" [] [Text "x"]]) _ eq_refl)
      as [out Ho].
    exists out. rewrite <- Ho. reflexivity.
Defined.

(** ** The single pass of the first draft *)

Lemma V0_turn_quiet (w : World) (doc : html) (e : string * string) :
  quiet w (V0.selector w e) doc = true ->
  V0.transform_tag w doc e = Ok doc.
Proof.
  unfold quiet, V0.transform_tag.
  destruct (matter w (snd e)) as [content data].
  destruct (query w (V0.selector w e) doc) as [q|err]; [|discriminate].
  intros Hm. apply negb_true_iff in Hm. cbn [bind].
  rewrite (each_quiet q _ doc Hm), Hm. cbn [bind].
  now rewrite andb_false_r.
Qed.

(** X19.  The first draft looks for each definition under the [tag] of
    its front matter when it has one, under its registry name otherwise;
    on a document where the selector of each of these names is accepted
    and finds nothing (for a tag name: no element bears it, whatever the
    case), [transform_content] returns the document as it was, no style
    element added, and so does the transform the plugin registers, as it
    does for every output path that does not end in [.html]. *)
Theorem X19_first_draft_quiet (w : World) (templates : obj string)
  (doc : html) :
  (forall e, In e templates -> quiet w (V0.selector w e) doc = true) ->
  V0.transform_content w templates doc = Ok doc
  /\ (forall path, V0.eleventyPlugin_transform w templates doc path = Ok doc).
Proof.
  intros H.
  assert (Ht : V0.transform_content w templates doc = Ok doc).
  { unfold V0.transform_content. induction templates as [|e l IH];
      [reflexivity|].
    rewrite foldM_cons, V0_turn_quiet by (apply H; now left).
    cbn [bind]. apply IH. intros e' He'. apply H. now right. }
  split; [exact Ht|]. intros path. unfold V0.eleventyPlugin_transform.
  now destruct (negb (endsWith ".html" path)).
Qed.

Lemma X19_first_draft_quiet_witness :
  V0.transform_content Sample.world
    [("card", "card-source"); ("button", "BUTTON")]
    (Sample.page [] [Elem "cards" [] []; Elem "p" [] []])
  = Ok (Sample.page [] [Elem "cards" [] []; Elem "p" [] []]).
Proof.
  apply (X19_first_draft_quiet Sample.world
           [("card", "card-source"); ("button", "BUTTON")]
           (Sample.page [] [Elem "cards" [] []; Elem "p" [] []])).
  intros e [<-|[<-|[]]]; reflexivity.
Defined.

(** The selector of the first draft finds a [card] for the tag [Card] of
    a front matter: the element is expanded and the style appended. *)
Example first_draft_matches_any_case :
  V0.transform_content Sample.world [("card", "card-source")]
    (Sample.page [] [Elem "card" [("title", "Hi")] []])
  = Ok (Sample.page [Elem "style" [] [Text "/* card.css */"]]
          [Elem "div" [("class", "card"); ("title", "Hi")]
             [Elem "h2" [] [Text "Hi"];
              Elem "div" [("class", "card-body")] []]]).
Proof. reflexivity. Qed.

(** ** What a load leaves in the registry *)

Section Load_result.
Context {V : Type}.

Lemma get_app (a b : obj V) (k : string) :
  get (a ++ b) k = match get a k with
                   | Some v => Some v
                   | None => get b k
                   end.
Proof.
  induction a as [|[k0 v0] a IH]; simpl; [reflexivity|].
  now destruct (String.eqb k k0).
Qed.

Lemma has_app (a b : obj V) (k : string) :
  has k (a ++ b) = has k a || has k b.
Proof. unfold has. rewrite get_app. now destruct (get a k). Qed.

Lemma has_keys (a : obj V) (k : string) : has k a = true <-> In k (keys a).
Proof.
  destruct (has k a) eqn:E.
  - split; [intros _|reflexivity].
    destruct (in_dec string_dec k (keys a)) as [H|H]; [exact H|].
    apply get_none_keys, has_false in H. congruence.
  - split; [discriminate|]. intros H.
    apply has_false, get_none_keys in E. contradiction.
Qed.

Lemma set_fresh_app (t : obj V) (k : string) (v : V) :
  has k t = false -> set t k v = t ++ [(k, v)].
Proof.
  unfold has. induction t as [|[k0 v0] t IH]; simpl; [reflexivity|].
  destruct (String.eqb k k0); [discriminate|].
  intros H. now rewrite IH.
Qed.

Lemma fresh_names_nil (t : obj V) : fresh_names t [].
Proof. split; [constructor|intros k []]. Qed.

Lemma fresh_names_app (t d : obj V) (l1 l2 : list string) :
  keys d = l1 ->
  fresh_names t (l1 ++ l2)
  <-> fresh_names t l1 /\ fresh_names (t ++ d) l2.
Proof.
  intros Hd. unfold fresh_names. split.
  - intros [Hnd Hf]. split; [split|split].
    + now apply NoDup_app_remove_r in Hnd.
    + intros k Hk. apply Hf, in_or_app. now left.
    + now apply NoDup_app_remove_l in Hnd.
    + intros k Hk.
      assert (Hkt : in_ k t = false) by (apply Hf, in_or_app; now right).
      apply in_false in Hkt. destruct Hkt as [Hown Hinh].
      unfold in_. rewrite has_app, Hown, Hinh, orb_false_r.
      cbn [orb]. destruct (has k d) eqn:E; [|reflexivity].
      apply has_keys in E. rewrite Hd in E. exfalso.
      clear Hown Hinh. revert k E Hk. clear -Hnd.
      induction l1 as [|a l1 IH]; intros k E Hk.
      * destruct E.
      * cbn [app] in Hnd. inversion Hnd as [|x l Hx Hl]; subst.
        destruct E as [->|E]; [|now apply (IH Hl k)].
        apply Hx, in_or_app. now right.
  - intros [[Hn1 Hf1] [Hn2 Hf2]]. split.
    + apply NoDup_app; [assumption|assumption|].
      intros k Hk1 Hk2. specialize (Hf2 k Hk2).
      apply in_false in Hf2. destruct Hf2 as [Hf2 _].
      rewrite has_app in Hf2. apply orb_false_iff in Hf2.
      destruct Hf2 as [_ Hf2]. rewrite <- Hd in Hk1.
      apply has_keys in Hk1. congruence.
    + intros k Hk. apply in_app_or in Hk. destruct Hk as [Hk|Hk]; auto.
      specialize (Hf2 k Hk). apply in_false in Hf2.
      destruct Hf2 as [Hf2 Hinh]. rewrite has_app in Hf2.
      apply orb_false_iff in Hf2. apply in_false. tauto.
Qed.

End Load_result.

Lemma suffix_gate (filename : string) :
  negb (endsWith ".html" filename) && negb (endsWith ".njk" filename)
  = negb (template_suffix filename).
Proof. unfold template_suffix. now rewrite negb_orb. Qed.

Section V1_load.
Variable w : World.

Local Abbreviation defs := (V1_definitions w).

Lemma V1_definitions_app (l1 l2 : list (string * string)) :
  defs (l1 ++ l2) = defs l1 ++ defs l2.
Proof. unfold V1_definitions. apply map_app. Qed.

Local Abbreviation V1_turn_result := (V1_turn_result w).

Lemma V1_turns_result (es : list entry) :
  Forall V1_turn_result es ->
  forall dir t t',
    foldS (V1.process_entry w dir) es t = (t', Ok tt)
    <-> t' = t ++ defs (reached es)
        /\ fresh_names t (keys (defs (reached es))).
Proof.
  induction 1 as [|e es He _ IH]; intros dir t t'.
  - cbn [foldS reached flat_map V1_definitions map keys].
    rewrite app_nil_r. split.
    + intros [= <-]. split; [reflexivity|apply fresh_names_nil].
    + now intros [-> _].
  - change (reached (e :: es)) with (reached_entry e ++ reached es).
    rewrite V1_definitions_app. unfold keys at 1. rewrite map_app.
    fold (keys (defs (reached_entry e))). fold (keys (defs (reached es))).
    rewrite (fresh_names_app t (defs (reached_entry e)) _ _ eq_refl).
    change (foldS (V1.process_entry w dir) (e :: es) t)
      with (match V1.process_entry w dir t e with
            | (s', Ok _) => foldS (V1.process_entry w dir) es s'
            | (s', Throw err) => (s', Throw err)
            end).
    split.
    + destruct (V1.process_entry w dir t e) as [t1 [[]|err]] eqn:E;
        [|discriminate].
      apply (He dir t t1) in E. destruct E as [-> Hf1].
      intros Hr. apply IH in Hr. destruct Hr as [-> Hf2].
      split; [now rewrite app_assoc|]. split; assumption.
    + intros [-> [Hf1 Hf2]].
      assert (E : V1.process_entry w dir t e
                  = (t ++ defs (reached_entry e), Ok tt)).
      { apply He. split; [reflexivity|assumption]. }
      rewrite E. apply IH. split; [now rewrite app_assoc|assumption].
Qed.

Lemma V1_turn_result_all (e : entry) : V1_turn_result e.
Proof.
  induction e as [filename contents|filename entries IH] using entry_induction;
    intros dir t t'; cbn [V1.process_entry reached_entry];
    rewrite suffix_gate; destruct (template_suffix filename); cbn [negb].
  - rewrite add_template_spec. cbv zeta.
    cbn [V1_definitions map keys fst snd].
    set (name := V1.registered_name w contents (V1.file_stem filename)).
    split.
    + destruct (in_ name t) eqn:E; [discriminate|].
      intros [= <-]. split; [apply set_fresh_app; now apply in_false in E|].
      split; [repeat constructor; simpl; tauto|].
      now intros k [<-|[]].
    + intros [-> [_ Hf]].
      pose proof (Hf name (or_introl eq_refl)) as Hn. rewrite Hn.
      apply in_false in Hn. now rewrite set_fresh_app by tauto.
  - cbn [V1_definitions map keys]. rewrite app_nil_r. split.
    + intros [= <-]. split; [reflexivity|apply fresh_names_nil].
    + now intros [-> _].
  - apply (V1_turns_result entries IH).
  - cbn [V1_definitions map keys]. rewrite app_nil_r. split.
    + intros [= <-]. split; [reflexivity|apply fresh_names_nil].
    + now intros [-> _].
Qed.

Lemma V1_turns_error (es : list entry) :
  Forall (fun e => forall dir t t' err,
            V1.process_entry w dir t e = (t', Throw err) ->
            err = DuplicateTagError) es ->
  forall dir t t' err,
    foldS (V1.process_entry w dir) es t = (t', Throw err) ->
    err = DuplicateTagError.
Proof.
  induction 1 as [|e es He _ IHes]; intros dir t t' err; [discriminate|].
  change (foldS (V1.process_entry w dir) (e :: es) t)
    with (match V1.process_entry w dir t e with
          | (s', Ok _) => foldS (V1.process_entry w dir) es s'
          | (s', Throw err0) => (s', Throw err0)
          end).
  destruct (V1.process_entry w dir t e) as [t1 [[]|err0]] eqn:E.
  - apply IHes.
  - intros [= _ <-]. exact (He _ _ _ _ E).
Qed.

Lemma V1_turn_error (e : entry) :
  forall dir t t' err,
    V1.process_entry w dir t e = (t', Throw err) -> err = DuplicateTagError.
Proof.
  induction e as [filename contents|filename entries IH] using entry_induction;
    intros dir t t' err; cbn [V1.process_entry];
    destruct (negb (endsWith ".html" filename)
              && negb (endsWith ".njk" filename)); try discriminate.
  - rewrite add_template_spec. cbv zeta.
    destruct (in_ _ t); [now intros [= _ <-]|discriminate].
  - apply (V1_turns_error entries IH).
Qed.

End V1_load.



Section V2_load.
Variable w : World.

Local Abbreviation tagged := (fun fc : string * string => names_tag w (snd fc)).
Local Abbreviation outcome :=
  (fun l : list (string * string) =>
     if forallb tagged l then Ok tt else @Throw unit TypeError).

Lemma foldS_cons {A S : Type} (f : S -> A -> S * result unit) (a : A)
  (l : list A) (s : S) :
  foldS f (a :: l) s
  = match f s a with
    | (s', Ok _) => foldS f l s'
    | (s', Throw e) => (s', Throw e)
    end.
Proof. reflexivity. Qed.

Lemma TagTemplate_new_outcome (path contents : string) :
  (names_tag w contents = true ->
   exists t, V2.TagTemplate_new w path contents = Ok t
             /\ V2.tagname t = cell (get (snd (matter w contents)) "tag"))
  /\ (names_tag w contents = false ->
      V2.TagTemplate_new w path contents = Throw TypeError).
Proof.
  split; intros H; unfold names_tag in H.
  - apply has_true in H. destruct H as [tag Htag].
    destruct (TagTemplate_new_tagged w path contents Htag) as [t [H1 H2]].
    exists t. split; [exact H1|]. now rewrite Htag.
  - apply TagTemplate_new_untagged. now apply has_false.
Qed.

Lemma V2_turns_outcome (es : list entry) :
  Forall (fun e => forall dir t,
            snd (V2.process_entry w dir t e) = outcome (reached_entry e)) es ->
  forall dir t,
    snd (foldS (V2.process_entry w dir) es t) = outcome (reached es).
Proof.
  induction 1 as [|e es He _ IH]; intros dir t; [reflexivity|].
  change (reached (e :: es)) with (reached_entry e ++ reached es).
  rewrite forallb_app, foldS_cons. specialize (He dir t).
  destruct (V2.process_entry w dir t e) as [t1 [[]|err]]; cbn [snd] in *.
  - rewrite IH. destruct (forallb tagged (reached_entry e));
      [reflexivity|discriminate].
  - destruct (forallb tagged (reached_entry e)); [discriminate|exact He].
Qed.

Lemma V2_turn_outcome (e : entry) :
  forall dir t,
    snd (V2.process_entry w dir t e) = outcome (reached_entry e).
Proof.
  induction e as [filename contents|filename entries IH] using entry_induction;
    intros dir t; cbn [V2.process_entry reached_entry];
    rewrite suffix_gate; destruct (template_suffix filename); cbn [negb];
    try reflexivity.
  - cbn [forallb snd]. rewrite andb_true_r.
    destruct (TagTemplate_new_outcome (path_join dir filename) contents)
      as [H1 H2].
    destruct (names_tag w contents).
    + destruct (H1 eq_refl) as [tpl [-> _]]. reflexivity.
    + now rewrite (H2 eq_refl).
  - apply (V2_turns_outcome entries IH).
Qed.

Local Abbreviation tag_of :=
  (fun fc : string * string => cell (get (snd (matter w (snd fc))) "tag")).

Lemma V2_turns_registered (es : list entry) :
  Forall (fun e => forall dir t,
            snd (V2.process_entry w dir t e) = Ok tt ->
            forall fc, In fc (reached_entry e) ->
              has (tag_of fc) (fst (V2.process_entry w dir t e)) = true) es ->
  forall dir t,
    snd (foldS (V2.process_entry w dir) es t) = Ok tt ->
    forall fc, In fc (reached es) ->
      has (tag_of fc) (fst (foldS (V2.process_entry w dir) es t)) = true.
Proof.
  induction 1 as [|e es He _ IH]; intros dir t Hok fc Hin; [destruct Hin|].
  change (reached (e :: es)) with (reached_entry e ++ reached es) in Hin.
  rewrite foldS_cons in *. specialize (He dir t).
  destruct (V2.process_entry w dir t e) as [t1 [[]|err]]; cbn [snd fst] in *;
    [|discriminate].
  apply in_app_or in Hin. destruct Hin as [Hin|Hin].
  - assert (Hk : keeps_names t1 (fst (foldS (V2.process_entry w dir) es t1))).
    { apply (foldS_keeps keeps_names);
        [apply keeps_names_refl|apply keeps_names_trans|].
      apply Forall_forall. intros e' _ t'. apply V2_process_entry_keeps. }
    apply Hk. now apply He.
  - now apply IH.
Qed.

Lemma V2_turn_registered (e : entry) :
  forall dir t,
    snd (V2.process_entry w dir t e) = Ok tt ->
    forall fc, In fc (reached_entry e) ->
      has (tag_of fc) (fst (V2.process_entry w dir t e)) = true.
Proof.
  induction e as [filename contents|filename entries IH] using entry_induction;
    intros dir t; cbn [V2.process_entry reached_entry];
    rewrite suffix_gate; destruct (template_suffix filename); cbn [negb].
  - destruct (TagTemplate_new_outcome (path_join dir filename) contents)
      as [H1 H2].
    destruct (names_tag w contents).
    + destruct (H1 eq_refl) as [tpl [-> Htag]]. cbn [snd fst].
      intros _ fc [<-|[]]. cbn [snd]. rewrite <- Htag.
      apply has_true. eexists. apply get_set_same.
    + rewrite (H2 eq_refl). discriminate.
  - intros _ fc [].
  - apply (V2_turns_registered entries IH).
  - intros _ fc [].
Qed.

End V2_load.



(** ** Names in the first draft *)


